(** * 247Theme storefront widgets: a shallow embedding of the three scripts

    The theme ships three client-side widgets:

    - the Silverchef finance calculator modal        ([SilverchefCalculator]),
    - the brand directory with its alphabet filter   ([BrandShowcase]),
    - the comparison table's mobile accordion        ([ComparisonShowcase]).

    Each class is embedded as a record for the object (and the part of the
    document it touches) and one function per method.  JavaScript numbers are
    IEEE-754 binary64 values ([JSNumber]); timers are entries of a pending
    list, fired by an explicit step; an uncaught exception is the [Thrown]
    outcome, carrying the state reached when it was raised. *)

From Stdlib Require Import ZArith List String Ascii Bool Arith Lia.
From Stdlib Require Import Floats.
Import ListNotations.
Open Scope string_scope.

(* ================================================================== *)
(** * Part I. Definitions                                              *)
(* ================================================================== *)

(** ** Outcomes of a method call

    A method either returns or throws; in both cases the mutations done so
    far stay.  A handler that throws leaves the widget in the state reached
    at the throw (the exception is reported to the console by the host). *)

Inductive outcome (S : Type) : Type :=
| Returned (s : S)
| Thrown (s : S).
Arguments Returned {S} s.
Arguments Thrown {S} s.

Definition andThen {S : Type} (o : outcome S) (k : S -> outcome S) : outcome S :=
  match o with
  | Returned s => k s
  | Thrown s => Thrown s
  end.

Definition final {S : Type} (o : outcome S) : S :=
  match o with
  | Returned s => s
  | Thrown s => s
  end.

Definition returns {S : Type} (o : outcome S) : bool :=
  match o with
  | Returned _ => true
  | Thrown _ => false
  end.

(** A property of the state a call ends in, be it by return or throw. *)
Definition ends_in {S : Type} (P : S -> Prop) (o : outcome S) : Prop := P (final o).

Declare Scope outcome_scope.
Delimit Scope outcome_scope with outcome.
Notation "o ;; k" := (andThen o k)
  (at level 61, left associativity) : outcome_scope.

(** ** Lists of elements

    A NodeList is a list; a node is known by its position in it. *)

Fixpoint mapi_from {A B : Type} (n : nat) (f : nat -> A -> B) (l : list A) : list B :=
  match l with
  | [] => []
  | x :: r => f n x :: mapi_from (S n) f r
  end.
Definition mapi {A B : Type} (f : nat -> A -> B) (l : list A) : list B :=
  mapi_from 0 f l.

(** The list with [f] applied to its [i]-th element (none past the end). *)
Fixpoint modify_nth {A : Type} (i : nat) (f : A -> A) (l : list A) : list A :=
  match l, i with
  | [], _ => []
  | x :: r, O => f x :: r
  | x :: r, S j => x :: modify_nth j f r
  end.

(** The list without its [k]-th element. *)
Definition remove_nth {A : Type} (k : nat) (l : list A) : list A :=
  firstn k l ++ skipn (S k) l.

(** ** JavaScript numbers: IEEE-754 binary64 *)

Module JSNumber.

(** A Number is a binary64 value: [spec_float] with 53 bits of precision
    and exponent bound 1024 ([prec] and [emax] of the Standard Library). *)
Definition number : Type := spec_float.

Definition mul (x y : number) : number := SFmul prec emax x y.
Definition div (x y : number) : number := SFdiv prec emax x y.
Definition add (x y : number) : number := SFadd prec emax x y.

(** [x < y] and [x >= y] as JavaScript evaluates them: false as soon as an
    operand is NaN. *)
Definition lt (x y : number) : bool := SFltb x y.
Definition ge (x y : number) : bool := SFleb y x.

Definition isNaN (x : number) : bool :=
  match x with
  | S754_nan => true
  | _ => false
  end.

Definition isZero (x : number) : bool :=
  match x with
  | S754_zero _ => true
  | _ => false
  end.

(** ToBoolean on a Number: NaN, +0 and -0 are falsy. *)
Definition truthy (x : number) : bool := negb (isNaN x || isZero x).

(** The Number of an integer literal. *)
Definition of_Z (z : Z) : number := binary_normalize prec emax z 0 false.

(** The decimal literals of the scripts.  A literal denotes the binary64
    value nearest to the decimal, which for [0.019] and [0.1] is the
    correctly rounded quotient of two exactly representable integers. *)
Definition lit_0_019 : number := Eval vm_compute in div (of_Z 19) (of_Z 1000).
Definition lit_0_1 : number := Eval vm_compute in div (of_Z 1) (of_Z 10).

(** [Math.round]: the integral Number closest to [x], ties towards
    +Infinity; NaN, the infinities and the zeros are returned unchanged,
    and a result of zero keeps the sign of [x]. *)
Definition round_half_up (s : bool) (m : positive) (e : Z) : Z :=
  let k := (- e)%Z in
  ((2 * cond_Zopp s (Zpos m) + 2 ^ k) / 2 ^ (k + 1))%Z.

Definition Math_round (x : number) : number :=
  match x with
  | S754_finite s m e =>
      if (0 <=? e)%Z then x
      else
        let n := round_half_up s m e in
        if (n =? 0)%Z then S754_zero s else of_Z n
  | _ => x
  end.

End JSNumber.

(** ** The Silverchef calculator modal (silverchef-calculator.js) *)

Module SilverchefCalculator.
Import JSNumber.

(** The elements the script looks up, by the selector that finds them. *)
Inductive ElemId : Type :=
| SilverchefModal        (* #silverchef-modal *)
| FinanceAmount          (* #finance-amount *)
| CalculateButton        (* .silverchef-calculator__calculate *)
| CalculatorResults      (* #calculator-results *)
| CalculatorLoading      (* #calculator-loading *)
| CalculatorBreakdown    (* #calculator-breakdown *)
| CalculatorError        (* #calculator-error *)
| ErrorParagraph         (* the first p of #calculator-error *)
| WeeklyPayment          (* #weekly-payment *)
| AdvancePayment         (* #advance-payment *)
| SecurityBond           (* #security-bond *)
| TotalUpfront           (* #total-upfront *)
| TotalRent              (* #total-rent *)
| OutOfPocket.           (* #out-of-pocket *)

Definition ElemId_eq_dec (a b : ElemId) : {a = b} + {a <> b}.
Proof. decide equality. Defined.

(** What the script reads or writes on an element. *)
Record Element : Type := mkElement {
  value : string;                (* the value of an input *)
  textContent : string;
  display : string;              (* style.display *)
  active : bool;                 (* classList contains 'active' *)
  aria_hidden : option string    (* the aria-hidden attribute *)
}.

(** The document: each element is present or not. *)
Definition Document : Type := ElemId -> option Element.

Definition update (d : Document) (id : ElemId) (f : Element -> Element) : Document :=
  fun j => if ElemId_eq_dec j id then option_map f (d j) else d j.

Definition set_value (v : string) (e : Element) : Element :=
  mkElement v (textContent e) (display e) (active e) (aria_hidden e).
Definition set_textContent (t : string) (e : Element) : Element :=
  mkElement (value e) t (display e) (active e) (aria_hidden e).
Definition set_display (s : string) (e : Element) : Element :=
  mkElement (value e) (textContent e) s (active e) (aria_hidden e).
Definition set_active (b : bool) (e : Element) : Element :=
  mkElement (value e) (textContent e) (display e) b (aria_hidden e).
Definition set_aria_hidden (s : string) (e : Element) : Element :=
  mkElement (value e) (textContent e) (display e) (active e) (Some s).

(** The object [calculateStaticPayments] returns. *)
Record Results : Type := mkResults {
  finance_amount : string;
  weekly_amount : string;
  upfront_total : string;              (* upfront_costs.total *)
  upfront_advance_payment : string;    (* upfront_costs.breakdown.advance_payment *)
  upfront_bond : string;               (* upfront_costs.breakdown.bond *)
  rent_after_12_months : string;       (* totals.rent_after_12_months *)
  out_of_pocket : string               (* totals.out_of_pocket *)
}.

(** What a timer or an awaited promise runs later. *)
Inductive Continuation : Type :=
| FocusAmountInput                 (* openModal's setTimeout callback *)
| ResumeCalculate (r : Results).   (* calculatePayments after its await *)

(** The calculator object, the document and the pending timers.  A field
    of the object is [Some id] when it references the element [id] and
    [None] when it is null. *)
Record State : Type := mkState {
  document : Document;
  body_overflow : string;                 (* document.body.style.overflow *)
  focused : option ElemId;                (* the element focus() was called on last *)
  modal : option ElemId;
  calculateButton : option ElemId;
  amountInput : option ElemId;
  resultsContainer : option ElemId;
  loadingContainer : option ElemId;
  breakdownContainer : option ElemId;
  errorContainer : option ElemId;
  pending : list (Z * Continuation)       (* delay in ms, callback *)
}.

Definition with_document (d : Document) (st : State) : State :=
  mkState d (body_overflow st) (focused st) (modal st) (calculateButton st)
    (amountInput st) (resultsContainer st) (loadingContainer st)
    (breakdownContainer st) (errorContainer st) (pending st).

Definition with_pending (p : list (Z * Continuation)) (st : State) : State :=
  mkState (document st) (body_overflow st) (focused st) (modal st)
    (calculateButton st) (amountInput st) (resultsContainer st)
    (loadingContainer st) (breakdownContainer st) (errorContainer st) p.

(** The constructor: every field null. *)
Definition new_SilverchefCalculator (d : Document) (overflow : string) : State :=
  mkState d overflow None None None None None None None None [].

(** [document.getElementById] and [querySelector]: the element when the
    document has it. *)
Definition query (d : Document) (id : ElemId) : option ElemId :=
  match d id with
  | Some _ => Some id
  | None => None
  end.

(** [if (ref) ref.style.display = s]. *)
Definition set_display_of (ref : option ElemId) (s : string) (d : Document) : Document :=
  match ref with
  | Some id => update d id (set_display s)
  | None => d
  end.

Section Platform.
(** Built-ins of the host: string to Number conversion ([ToNumber] of a
    string), [parseFloat], Number to string conversion, and the
    [Intl.NumberFormat('en-AU', {style: 'currency', currency: 'AUD'})]
    formatter. *)
Variable StringToNumber : string -> number.
Variable parseFloat : string -> number.
Variable NumberToString : number -> string.
Variable Intl_format_AUD : number -> string.

(** [productPrice / 100] converts the attribute first: null becomes +0. *)
Definition ToNumber (attr : option string) : number :=
  match attr with
  | None => S754_zero false
  | Some s => StringToNumber s
  end.

Definition productAmount (data_product_price : option string) : number :=
  Math_round (div (ToNumber data_product_price) (of_Z 100)).

Definition openModal (data_product_price : option string) (st : State) : State :=
  match query (document st) SilverchefModal with
  | None =>
      mkState (document st) (body_overflow st) (focused st) None
        (calculateButton st) (amountInput st) (resultsContainer st)
        (loadingContainer st) (breakdownContainer st) (errorContainer st)
        (pending st)
  | Some m =>
      let d := document st in
      let amount := productAmount data_product_price in
      let input := query d FinanceAmount in
      let d1 :=
        match input with
        | Some i =>
            if ge amount (of_Z 500)
            then update d i (set_value (NumberToString amount))
            else d
        | None => d
        end in
      let d2 := update (update d1 m (set_active true)) m (set_aria_hidden "false") in
      mkState d2 "hidden" (focused st) (Some m)
        (query d CalculateButton) input (query d CalculatorResults)
        (query d CalculatorLoading) (query d CalculatorBreakdown)
        (query d CalculatorError)
        (pending st ++ [(100%Z, FocusAmountInput)])
  end.

Definition hideAllResults (st : State) : State :=
  with_document
    (set_display_of (errorContainer st) "none"
      (set_display_of (breakdownContainer st) "none"
        (set_display_of (loadingContainer st) "none"
          (set_display_of (resultsContainer st) "none" (document st)))))
    st.

Definition closeModal (st : State) : State :=
  match modal st with
  | None => st
  | Some m =>
      let d := update (update (document st) m (set_active false)) m
                 (set_aria_hidden "true") in
      let st1 := hideAllResults (with_document d st) in
      mkState (document st1) "" (focused st1) (modal st1) (calculateButton st1)
        (amountInput st1) (resultsContainer st1) (loadingContainer st1)
        (breakdownContainer st1) (errorContainer st1) (pending st1)
  end.

Definition formatCurrency (amount : number) : string := Intl_format_AUD amount.

Definition weeklyPayment (amount : number) : number :=
  div (Math_round (mul (mul amount lit_0_019) (of_Z 100))) (of_Z 100).
Definition advancePayment (amount : number) : number := weeklyPayment amount.
Definition securityBond (amount : number) : number :=
  div (Math_round (mul (mul amount lit_0_1) (of_Z 100))) (of_Z 100).
Definition totalUpfront (amount : number) : number :=
  add (advancePayment amount) (securityBond amount).
Definition totalRent12Months (amount : number) : number :=
  mul (weeklyPayment amount) (of_Z 52).
Definition outOfPocket (amount : number) : number := totalRent12Months amount.

Definition calculateStaticPayments (amount : number) : Results :=
  {| finance_amount := formatCurrency amount;
     weekly_amount := formatCurrency (weeklyPayment amount);
     upfront_total := formatCurrency (totalUpfront amount);
     upfront_advance_payment := formatCurrency (advancePayment amount);
     upfront_bond := formatCurrency (securityBond amount);
     rent_after_12_months := formatCurrency (totalRent12Months amount);
     out_of_pocket := formatCurrency (outOfPocket amount) |}.

Definition showLoading (st : State) : State :=
  let st1 := hideAllResults st in
  with_document
    (set_display_of (loadingContainer st1) "block"
      (set_display_of (resultsContainer st1) "block" (document st1)))
    st1.

(** [updateElement]: throws when [this.modal] is null. *)
Definition updateElement (id : ElemId) (v : string) (st : State) : outcome State :=
  match modal st with
  | None => Thrown st
  | Some _ =>
      Returned (with_document (update (document st) id (set_textContent v)) st)
  end.

Definition showResults (results : Results) (st : State) : outcome State :=
  let st1 := hideAllResults st in
  match resultsContainer st1, breakdownContainer st1 with
  | Some rc, Some bc =>
      (updateElement WeeklyPayment (weekly_amount results) st1 ;;
       updateElement AdvancePayment (upfront_advance_payment results) ;;
       updateElement SecurityBond (upfront_bond results) ;;
       updateElement TotalUpfront (upfront_total results) ;;
       updateElement TotalRent (rent_after_12_months results) ;;
       updateElement OutOfPocket (out_of_pocket results) ;;
       fun st2 =>
         Returned (with_document
           (update (update (document st2) rc (set_display "block")) bc
              (set_display "block")) st2))%outcome
  | _, _ => Returned st1
  end.

(** [showError]: throws when the error container holds no paragraph. *)
Definition showError (message : string) (st : State) : outcome State :=
  let st1 := hideAllResults st in
  match resultsContainer st1, errorContainer st1 with
  | Some rc, Some ec =>
      match query (document st1) ErrorParagraph with
      | None => Thrown st1
      | Some p =>
          Returned (with_document
            (update (update (update (document st1) p (set_textContent message))
                       rc (set_display "block")) ec (set_display "block")) st1)
      end
  | _, _ => Returned st1
  end.

Definition validation_message : string :=
  "Please enter an amount of $500 or more.".
Definition failure_message : string :=
  "Unable to calculate payments. Please try again.".

(** The amount [calculatePayments] parses from the input. *)
Definition parsedAmount (st : State) (input : ElemId) : number :=
  match document st input with
  | Some e => parseFloat (value e)
  | None => S754_nan
  end.

(** [!amount || amount < 500]. *)
Definition rejected (amount : number) : bool :=
  negb (truthy amount) || lt amount (of_Z 500).

(** [calculatePayments] up to its [await]: the rest is the pending
    [ResumeCalculate], run 1500 ms later. *)
Definition calculatePayments (st : State) : outcome State :=
  match amountInput st with
  | None => Returned st
  | Some input =>
      let amount := parsedAmount st input in
      if rejected amount then showError validation_message st
      else
        let st1 := showLoading st in
        let results := calculateStaticPayments amount in
        Returned (with_pending (pending st1 ++ [(1500%Z, ResumeCalculate results)]) st1)
  end.

(** The rest of [calculatePayments]: [showResults] inside the [try], the
    [catch] showing the failure message. *)
Definition resumeCalculate (results : Results) (st : State) : outcome State :=
  match showResults results st with
  | Returned st' => Returned st'
  | Thrown st' => showError failure_message st'
  end.

Definition runContinuation (c : Continuation) (st : State) : outcome State :=
  match c with
  | FocusAmountInput =>
      match amountInput st with
      | Some i =>
          Returned (mkState (document st) (body_overflow st) (Some i) (modal st)
            (calculateButton st) (amountInput st) (resultsContainer st)
            (loadingContainer st) (breakdownContainer st) (errorContainer st)
            (pending st))
      | None => Returned st
      end
  | ResumeCalculate r => resumeCalculate r st
  end.

Definition fire (k : nat) (st : State) : outcome State :=
  match nth_error (pending st) k with
  | None => Returned st
  | Some (_, c) => runContinuation c (with_pending (remove_nth k (pending st)) st)
  end.

End Platform.

(** *** A sample page

    Every element of the modal is in the document and the amount field
    reads "499".  The host's conversions are given on the strings and
    numbers the sample meets; the formatter renders whole dollar amounts
    of the sample and nothing else. *)
Definition sampleDocument : Document :=
  fun id =>
    match id with
    | FinanceAmount => Some (mkElement "499" "" "" false None)
    | _ => Some (mkElement "" "" "" false None)
    end.
Definition sampleStringToNumber (s : string) : number :=
  if String.eqb s "49900" then of_Z 49900
  else if String.eqb s "100000" then of_Z 100000
  else S754_nan.
Definition sampleParseFloat (s : string) : number :=
  if String.eqb s "499" then of_Z 499
  else if String.eqb s "1000" then of_Z 1000
  else S754_nan.
Definition sampleNumberToString (x : number) : string :=
  if SFeqb x (of_Z 1000) then "1000"
  else if SFeqb x (of_Z 499) then "499"
  else "".
Definition sampleFormat (x : number) : string :=
  if SFeqb x (of_Z 19) then "$19.00"
  else if SFeqb x (of_Z 100) then "$100.00"
  else if SFeqb x (of_Z 119) then "$119.00"
  else if SFeqb x (of_Z 988) then "$988.00"
  else if SFeqb x (of_Z 1000) then "$1,000.00"
  else "".
Definition sample (data_product_price : string) : State :=
  openModal sampleStringToNumber sampleNumberToString (Some data_product_price)
    (new_SilverchefCalculator sampleDocument "").

(** *** The listeners of [bindEvents]

    The document-level listeners, by what the event hits. *)
Inductive Action : Type :=
| TriggerClick (data_product_price : option string)
                         (* click on a [data-silverchef-calculator] element *)
| CloseClick             (* click on or inside a [data-modal-close] element *)
| EscapeKey              (* keydown, key Escape *)
| CalculateClick         (* click on .silverchef-calculator__calculate *)
| EnterInAmount          (* keydown, key Enter, in #finance-amount *)
| Fires (k : nat).       (* the k-th pending callback runs *)

(** [this.modal && this.modal.classList.contains('active')]. *)
Definition modalIsActive (st : State) : bool :=
  match modal st with
  | Some m =>
      match document st m with
      | Some e => active e
      | None => false
      end
  | None => false
  end.

Definition perform (StringToNumber parseFloat : string -> number)
    (NumberToString Intl_format_AUD : number -> string) (st : State) (a : Action) : State :=
  final
    match a with
    | TriggerClick price =>
        Returned (openModal StringToNumber NumberToString price st)
    | CloseClick => Returned (closeModal st)
    | EscapeKey => Returned (if modalIsActive st then closeModal st else st)
    | CalculateClick | EnterInAmount => calculatePayments parseFloat Intl_format_AUD st
    | Fires k => fire k st
    end.

Definition performAll (StringToNumber parseFloat : string -> number)
    (NumberToString Intl_format_AUD : number -> string) (st : State) (l : list Action) : State :=
  fold_left (perform StringToNumber parseFloat NumberToString Intl_format_AUD) l st.

(** The modal was opened on a page that has the modal and the results
    container with its three panels. *)
Definition PanelsBound (st : State) : Prop :=
  modal st = Some SilverchefModal
  /\ resultsContainer st = Some CalculatorResults
  /\ loadingContainer st = Some CalculatorLoading
  /\ breakdownContainer st = Some CalculatorBreakdown
  /\ errorContainer st = Some CalculatorError
  /\ document st SilverchefModal <> None
  /\ document st CalculatorResults <> None
  /\ document st CalculatorLoading <> None
  /\ document st CalculatorBreakdown <> None
  /\ document st CalculatorError <> None.

(** ... and the error panel holds its paragraph. *)
Definition Opened (st : State) : Prop :=
  PanelsBound st /\ document st ErrorParagraph <> None.

Definition displayOf (st : State) (id : ElemId) : option string :=
  option_map display (document st id).
Definition textOf (st : State) (id : ElemId) : option string :=
  option_map textContent (document st id).

(** The [style.display] of the results container and of its loading,
    breakdown and error panels. *)
Definition panels (st : State) : option string * option string * option string * option string :=
  (displayOf st CalculatorResults, displayOf st CalculatorLoading,
   displayOf st CalculatorBreakdown, displayOf st CalculatorError).

(** The slots [showResults] fills, each with the field it receives. *)
Definition slots (r : Results) : list (ElemId * string) :=
  [ (WeeklyPayment, weekly_amount r);
    (AdvancePayment, upfront_advance_payment r);
    (SecurityBond, upfront_bond r);
    (TotalUpfront, upfront_total r);
    (TotalRent, rent_after_12_months r);
    (OutOfPocket, out_of_pocket r) ].

End SilverchefCalculator.

(** ** The brand directory and its alphabet filter (brand-showcase.js) *)

Module BrandShowcase.
Import JSNumber.

(** *** Values and small built-ins *)

(** A [data-letter] value, a filter letter, an attribute: a string, or
    [None] for undefined. *)
Definition strict_eq (a b : option string) : bool :=
  match a, b with
  | Some x, Some y => String.eqb x y
  | None, None => true
  | _, _ => false
  end.

(** ToBoolean: undefined and the empty string are falsy. *)
Definition truthy (a : option string) : bool :=
  match a with
  | Some s => negb (String.eqb s "")
  | None => false
  end.

Definition all : option string := Some "all".

(** [classList] as the list of its tokens, each once. *)
Definition contains (c : string) (l : list string) : bool :=
  existsb (String.eqb c) l.
Definition classList_add (c : string) (l : list string) : list string :=
  if contains c l then l else l ++ [c].
Definition classList_remove (c : string) (l : list string) : list string :=
  filter (fun x => negb (String.eqb c x)) l.
Definition classList_toggle (c : string) (force : bool) (l : list string) : list string :=
  if force then classList_add c l else classList_remove c l.

(** [toUpperCase], exact on ASCII; other code units are left as they are. *)
Definition upper_ascii (c : ascii) : ascii :=
  let n := nat_of_ascii c in
  if ((97 <=? n) && (n <=? 122))%nat then ascii_of_nat (n - 32)%nat else c.
Fixpoint toUpperCase (s : string) : string :=
  match s with
  | EmptyString => EmptyString
  | String c r => String (upper_ascii c) (toUpperCase r)
  end.

Definition mem (i : nat) (l : list nat) : bool := existsb (Nat.eqb i) l.

(** *** The markup *)

Record Button : Type := mkButton {
  button_letter : option string;         (* dataset.letter *)
  button_disabled : bool;
  button_classList : list string;
  button_aria_pressed : option string
}.

Record Card : Type := mkCard {
  card_letter : option string;           (* dataset.letter *)
  card_classList : list string;
  card_display : string                  (* style.display *)
}.

(** What [history.pushState] was given as its URL. *)
Inductive Url : Type :=
| PathAndSearch                (* location.pathname + location.search *)
| Fragment (hash : string).    (* `#letter-${letter}` *)

Inductive Callback : Type :=
| ShowMatching (cardsToShow : list nat)  (* animateFilter's outer timeout; the
                                            indices of the captured cards *)
| AnimationComplete                      (* animateFilter's inner timeout *)
| RemoveAnnouncement (node : nat).       (* announceToScreenReader's timeout *)

Record Timer : Type := mkTimer {
  delay : number;
  callback : Callback
}.

(** The host: address bar, session history, timers, and the live regions
    appended to the body (each with the identity of its node). *)
Record Window : Type := mkWindow {
  location_hash : string;
  history_pushed : list Url;             (* oldest first *)
  timers : list Timer;
  announcements : list (nat * string);
  next_node : nat
}.

Record Options : Type := mkOptions {
  enableAnimation : bool;
  animationDuration : number
}.

Record State : Type := mkState {
  options : Options;
  alphabetButtons : list Button;
  brandCards : list Card;
  emptyState : option string;            (* its style.display, when it exists *)
  brandGrid : option string;             (* its style.display, when it exists *)
  showAllButton : bool;                  (* whether the button exists *)
  currentFilter : option string;
  isAnimating : bool;
  window : Window
}.

Definition with_buttons (b : list Button) (st : State) : State :=
  mkState (options st) b (brandCards st) (emptyState st) (brandGrid st)
    (showAllButton st) (currentFilter st) (isAnimating st) (window st).
Definition with_cards (c : list Card) (st : State) : State :=
  mkState (options st) (alphabetButtons st) c (emptyState st) (brandGrid st)
    (showAllButton st) (currentFilter st) (isAnimating st) (window st).
Definition with_emptyState (e : option string) (st : State) : State :=
  mkState (options st) (alphabetButtons st) (brandCards st) e (brandGrid st)
    (showAllButton st) (currentFilter st) (isAnimating st) (window st).
Definition with_brandGrid (g : option string) (st : State) : State :=
  mkState (options st) (alphabetButtons st) (brandCards st) (emptyState st) g
    (showAllButton st) (currentFilter st) (isAnimating st) (window st).
Definition with_currentFilter (f : option string) (st : State) : State :=
  mkState (options st) (alphabetButtons st) (brandCards st) (emptyState st)
    (brandGrid st) (showAllButton st) f (isAnimating st) (window st).
Definition with_isAnimating (a : bool) (st : State) : State :=
  mkState (options st) (alphabetButtons st) (brandCards st) (emptyState st)
    (brandGrid st) (showAllButton st) (currentFilter st) a (window st).
Definition with_window (w : Window) (st : State) : State :=
  mkState (options st) (alphabetButtons st) (brandCards st) (emptyState st)
    (brandGrid st) (showAllButton st) (currentFilter st) (isAnimating st) w.

(** *** The fragment of a URL

    What [location.hash] reads once the URL parser has taken a URL that
    starts with [#]: the parser drops the C0 controls and spaces that end
    the input and every tab and newline, and percent-encodes, in the
    fragment, the C0 controls, the space, the double quote, [<], [>], the
    backtick and everything above [~] (a string is read as the UTF-8 of its
    code points); an empty fragment reads as the empty string. *)
Definition isC0ControlOrSpace (c : ascii) : bool := (nat_of_ascii c <=? 32)%nat.
Definition isTabOrNewline (c : ascii) : bool :=
  let n := nat_of_ascii c in ((n =? 9) || (n =? 10) || (n =? 13))%nat.
Definition inFragmentPercentEncodeSet (c : ascii) : bool :=
  let n := nat_of_ascii c in
  ((n <=? 32) || (n =? 34) || (n =? 60) || (n =? 62) || (n =? 96) || (126 <? n))%nat.

Definition hexDigit (n : nat) : ascii :=
  match String.get n "0123456789ABCDEF" with
  | Some c => c
  | None => "0"%char
  end.
Definition percentEncode (c : ascii) : string :=
  let n := nat_of_ascii c in
  String "%"%char (String (hexDigit (n / 16)) (String (hexDigit (n mod 16)) EmptyString)).

Fixpoint stripTrailing (s : string) : string :=
  match s with
  | EmptyString => EmptyString
  | String c r =>
      match stripTrailing r with
      | EmptyString => if isC0ControlOrSpace c then EmptyString else String c EmptyString
      | r' => String c r'
      end
  end.

Fixpoint encodeFragment (s : string) : string :=
  match s with
  | EmptyString => EmptyString
  | String c r =>
      if isTabOrNewline c then encodeFragment r
      else if inFragmentPercentEncodeSet c then percentEncode c ++ encodeFragment r
      else String c (encodeFragment r)
  end.

Definition hashOfUrl (url : string) : string :=
  match stripTrailing url with
  | String c fragment =>
      if Ascii.eqb c "#"%char
      then match encodeFragment fragment with
           | EmptyString => ""
           | f => String "#"%char f
           end
      else ""
  | EmptyString => ""
  end.

(** The strings the parser leaves as they are. *)
Fixpoint fragmentPlain (s : string) : bool :=
  match s with
  | EmptyString => true
  | String c r => negb (inFragmentPercentEncodeSet c) && fragmentPlain r
  end.

(** [history.pushState(null, '', url)]: a new entry, and the address bar
    shows its fragment. *)
Definition pushState (u : Url) (w : Window) : Window :=
  mkWindow (match u with PathAndSearch => "" | Fragment h => hashOfUrl h end)
    (history_pushed w ++ [u]) (timers w) (announcements w) (next_node w).

Definition setTimeout (cb : Callback) (ms : number) (w : Window) : Window :=
  mkWindow (location_hash w) (history_pushed w) (timers w ++ [mkTimer ms cb])
    (announcements w) (next_node w).

(** *** The methods *)

Definition cardMatchesFilter (card : Card) (letter : option string) : bool :=
  if strict_eq letter all then true
  else strict_eq (card_letter card) letter.

(** The indices of the cards that satisfy [p]: the captured result of
    [Array.from(this.brandCards).filter(...)]. *)
Fixpoint indices_from (n : nat) (p : Card -> bool) (cards : list Card) : list nat :=
  match cards with
  | [] => []
  | c :: r => if p c then n :: indices_from (S n) p r else indices_from (S n) p r
  end.
Definition indices (p : Card -> bool) (cards : list Card) : list nat :=
  indices_from 0 p cards.

(** [cards.forEach(f)] over the cards at the given indices. *)
Definition forEach_at (idx : list nat) (f : Card -> Card) (cards : list Card) : list Card :=
  mapi (fun i c => if mem i idx then f c else c) cards.

Definition with_card_classList (l : list string) (c : Card) : Card :=
  mkCard (card_letter c) l (card_display c).
Definition with_card_display (d : string) (c : Card) : Card :=
  mkCard (card_letter c) (card_classList c) d.

Definition hideCard (c : Card) : Card :=
  with_card_classList
    (classList_remove "filtering-show" (classList_add "filtering-hide" (card_classList c))) c.
Definition showCard (c : Card) : Card :=
  with_card_classList
    (classList_add "filtering-show" (classList_remove "filtering-hide" (card_classList c))) c.
Definition cleanCard (c : Card) : Card :=
  with_card_classList
    (classList_remove "filtering-show" (classList_remove "filtering-hide" (card_classList c))) c.

Definition updateActiveButton (letter : option string) (st : State) : State :=
  with_buttons
    (map (fun b =>
            let isActive := strict_eq (button_letter b) letter in
            mkButton (button_letter b) (button_disabled b)
              (classList_toggle "active" isActive (button_classList b))
              (Some (if isActive then "true" else "false")))
         (alphabetButtons st))
    st.

(** [updateEmptyState]: throws on [this.brandGrid.style] when the panel
    exists and the grid does not. *)
Definition updateEmptyState (isEmpty : bool) (st : State) : outcome State :=
  match emptyState st with
  | None => Returned st
  | Some _ =>
      let st1 := with_emptyState (Some (if isEmpty then "block" else "none")) st in
      match brandGrid st1 with
      | None => Thrown st1
      | Some _ => Returned (with_brandGrid (Some (if isEmpty then "none" else "grid")) st1)
      end
  end.

Definition animateFilter (letter : option string) (st : State) : State :=
  let st1 := with_isAnimating true st in
  let cardsToHide := indices (fun c => negb (cardMatchesFilter c letter)) (brandCards st1) in
  let cardsToShow := indices (fun c => cardMatchesFilter c letter) (brandCards st1) in
  let st2 := with_cards (forEach_at cardsToHide hideCard (brandCards st1)) st1 in
  with_window
    (setTimeout (ShowMatching cardsToShow)
       (div (animationDuration (options st2)) (of_Z 2)) (window st2))
    st2.

(** The outer timeout's callback. *)
Definition showMatching (cardsToShow : list nat) (st : State) : outcome State :=
  let st1 := with_cards (forEach_at cardsToShow showCard (brandCards st)) st in
  (updateEmptyState (Nat.eqb (List.length cardsToShow) 0) st1 ;;
   fun st2 =>
     Returned (with_window
       (setTimeout AnimationComplete (animationDuration (options st2)) (window st2))
       st2))%outcome.

Definition cleanupFilterClasses (st : State) : State :=
  with_cards (map cleanCard (brandCards st)) st.

(** The inner timeout's callback. *)
Definition animationComplete (st : State) : State :=
  cleanupFilterClasses (with_isAnimating false st).

Definition instantFilter (letter : option string) (st : State) : outcome State :=
  let st1 :=
    with_cards
      (map (fun c =>
              with_card_display (if cardMatchesFilter c letter then "block" else "none") c)
           (brandCards st))
      st in
  let visibleCards := indices (fun c => cardMatchesFilter c letter) (brandCards st1) in
  updateEmptyState (Nat.eqb (List.length visibleCards) 0) st1.

Definition updateCounts (st : State) : State :=
  with_buttons
    (map (fun b =>
            let letter := button_letter b in
            if strict_eq letter all then b
            else
              let hasCards :=
                existsb (fun c => strict_eq (card_letter c) letter) (brandCards st) in
              mkButton letter (negb hasCards)
                (classList_toggle "brand-showcase__alphabet-btn--disabled"
                   (negb hasCards) (button_classList b))
                (button_aria_pressed b))
         (alphabetButtons st))
    st.

(** [updateURL(letter = this.currentFilter)]: an undefined argument takes
    the default. *)
Definition updateURL (arg : option string) (st : State) : State :=
  let letter := match arg with None => currentFilter st | Some _ => arg end in
  if negb (truthy letter) || strict_eq letter all then
    if negb (String.eqb (location_hash (window st)) "")
    then with_window (pushState PathAndSearch (window st)) st
    else st
  else
    match letter with
    | Some l => with_window (pushState (Fragment ("#letter-" ++ l)) (window st)) st
    | None => st
    end.

Definition getLetterFromURL (st : State) : string :=
  let hash := location_hash (window st) in
  if String.prefix "#letter-" hash
  then String.substring 8 (String.length hash - 8)%nat hash
  else "all".

Definition announceToScreenReader (message : string) (st : State) : State :=
  let w := window st in
  let node := next_node w in
  with_window
    (setTimeout (RemoveAnnouncement node) (of_Z 1000)
       (mkWindow (location_hash w) (history_pushed w) (timers w)
          (announcements w ++ [(node, message)]) (S node)))
    st.

(** [announceFilterChange]: [letter.toUpperCase()] throws on undefined. *)
Definition announceFilterChange (letter : option string) (st : State) : outcome State :=
  match letter with
  | None => Thrown st
  | Some l =>
      let message :=
        if String.eqb l "all" then "Showing all brands"
        else "Showing brands starting with " ++ toUpperCase l in
      Returned (announceToScreenReader message st)
  end.

Definition filterByLetter (letter : option string) (updateHistory : bool) (st : State)
  : outcome State :=
  if isAnimating st && enableAnimation (options st) then Returned st
  else
    let st1 := updateActiveButton letter (with_currentFilter letter st) in
    ((if enableAnimation (options st1)
      then Returned (animateFilter letter st1)
      else instantFilter letter st1) ;;
     (fun st2 => Returned (if updateHistory then updateURL letter st2 else st2)) ;;
     announceFilterChange letter)%outcome.

(** [handleAlphabetClick] with [event.currentTarget] the [i]-th button. *)
Definition handleAlphabetClick (i : nat) (st : State) : outcome State :=
  if isAnimating st then Returned st
  else
    match nth_error (alphabetButtons st) i with
    | None => Returned st
    | Some button =>
        let letter := button_letter button in
        if button_disabled button || strict_eq letter (currentFilter st)
        then Returned st
        else
          (filterByLetter letter true st ;;
           fun st1 => Returned (updateURL letter st1))%outcome
    end.

Definition handleAlphabetKeydown (i : nat) (key : string) (st : State) : outcome State :=
  if String.eqb key "Enter" || String.eqb key " "
  then handleAlphabetClick i st
  else Returned st.

Definition handleShowAllClick (st : State) : outcome State :=
  (filterByLetter all true st ;;
   fun st1 => Returned (updateURL all st1))%outcome.

Definition handlePopState (st : State) : outcome State :=
  filterByLetter (Some (getLetterFromURL st)) false st.

Definition handleInitialFilter (st : State) : outcome State :=
  let letter := getLetterFromURL st in
  if truthy (Some letter) && negb (String.eqb letter "all")
  then filterByLetter (Some letter) false st
  else Returned st.

Definition init (st : State) : outcome State :=
  (handleInitialFilter (updateURL None st) ;;
   fun st1 => Returned (updateCounts st1))%outcome.

(** The constructor, from the container's markup, the options after the
    defaults were merged, and the fragment the address bar shows.  The
    widget has pushed no entry, set no timer and made no announcement. *)
Definition new_BrandShowcase (buttons : list Button) (cards : list Card)
    (empty grid : option string) (showAll : bool) (opts : Options) (hash : string)
  : outcome State :=
  init (mkState opts buttons cards empty grid showAll all false
          (mkWindow hash [] [] [] 0)).

Definition defaultOptions : Options := mkOptions true (of_Z 300).

Definition setFilter (letter : option string) (st : State) : outcome State :=
  filterByLetter letter true st.

Definition getCurrentFilter (st : State) : option string := currentFilter st.

Definition getVisibleCardsCount (st : State) : nat :=
  List.length (indices (fun c => cardMatchesFilter c (currentFilter st)) (brandCards st)).

(** *** The event loop *)

Definition removeAnnouncement (node : nat) (st : State) : State :=
  let w := window st in
  with_window
    (mkWindow (location_hash w) (history_pushed w) (timers w)
       (filter (fun a => negb (Nat.eqb (fst a) node)) (announcements w))
       (next_node w))
    st.

Definition runCallback (cb : Callback) (st : State) : outcome State :=
  match cb with
  | ShowMatching cardsToShow => showMatching cardsToShow st
  | AnimationComplete => Returned (animationComplete st)
  | RemoveAnnouncement node => Returned (removeAnnouncement node st)
  end.

(** The [k]-th pending timer fires: it leaves the list and its callback
    runs. *)
Definition fireTimer (k : nat) (st : State) : outcome State :=
  let w := window st in
  match nth_error (timers w) k with
  | None => Returned st
  | Some t =>
      runCallback (callback t)
        (with_window
           (mkWindow (location_hash w) (history_pushed w) (remove_nth k (timers w))
              (announcements w) (next_node w))
           st)
  end.

(** The browser moved through the session history: the address bar shows
    [hash] when [popstate] is dispatched. *)
Definition navigate (hash : string) (st : State) : State :=
  let w := window st in
  with_window
    (mkWindow hash (history_pushed w) (timers w) (announcements w) (next_node w))
    st.

Inductive Event : Type :=
| AlphabetClick (i : nat)
| AlphabetKeydown (i : nat) (key : string)
| ShowAllClick
| PopState (hash : string)
| SetFilter (letter : option string)
| TimerFires (k : nat).

(** One turn of the event loop; an exception ends the turn. *)
Definition step (st : State) (ev : Event) : State :=
  final
    match ev with
    | AlphabetClick i => handleAlphabetClick i st
    | AlphabetKeydown i key => handleAlphabetKeydown i key st
    | ShowAllClick => if showAllButton st then handleShowAllClick st else Returned st
    | PopState hash => handlePopState (navigate hash st)
    | SetFilter letter => setFilter letter st
    | TimerFires k => fireTimer k st
    end.

Definition run (st : State) (evs : list Event) : State := fold_left step evs st.

(** The animation timers still pending. *)
Definition isAnimationCallback (cb : Callback) : bool :=
  match cb with
  | ShowMatching _ | AnimationComplete => true
  | RemoveAnnouncement _ => false
  end.

Definition pendingAnimations (st : State) : nat :=
  List.length (filter (fun t => isAnimationCallback (callback t)) (timers (window st))).

(** At most one animation is under way, and none when the flag is down. *)
Definition AnimationInv (st : State) : Prop :=
  (pendingAnimations st <= 1)%nat
  /\ (isAnimating st = false -> pendingAnimations st = 0%nat).

(** What a call leaves alone as far as animations go. *)
Definition keeps (st st' : State) : Prop :=
  pendingAnimations st' = pendingAnimations st /\ isAnimating st' = isAnimating st.

(** The markup the filter never rewrites: the letters of the buttons and
    of the cards, the disabled flags, the options. *)
Definition letters (st : State) : list (option string * bool) * list (option string) :=
  (map (fun b => (button_letter b, button_disabled b)) (alphabetButtons st),
   map card_letter (brandCards st)).

(** [updateCounts] has run: a letter other than 'all' that no card
    carries has its button disabled. *)
Definition hasCards (letter : option string) (st : State) : bool :=
  existsb (fun c => strict_eq (card_letter c) letter) (brandCards st).
Definition CountsUpdated (st : State) : Prop :=
  forall b, In b (alphabetButtons st) ->
            strict_eq (button_letter b) all = false ->
            hasCards (button_letter b) st = false ->
            button_disabled b = true.


(** *** A sample directory

    An "all" button and the letters A and Z; two brands under A, none
    under Z; an empty-state panel and a grid; a show-all button. *)
Definition sampleButtons : list Button :=
  [ mkButton (Some "all") false ["brand-showcase__alphabet-btn"; "active"] (Some "true");
    mkButton (Some "A") false ["brand-showcase__alphabet-btn"] (Some "false");
    mkButton (Some "Z") false ["brand-showcase__alphabet-btn"] (Some "false") ].
Definition sampleCards : list Card :=
  [ mkCard (Some "A") ["brand-showcase__card"] "";
    mkCard (Some "A") ["brand-showcase__card"] "" ].
Definition sample (opts : Options) (hash : string) : State :=
  final (new_BrandShowcase sampleButtons sampleCards (Some "none") (Some "grid") true
           opts hash).

(** *** What the widget keeps in step *)

(** The buttons show the current filter: a button carries the class
    'active' and [aria-pressed] "true" exactly when its letter is the
    current filter. *)
Definition isActive (b : Button) : bool := contains "active" (button_classList b).
Definition ActiveSync (st : State) : Prop :=
  forall b, In b (alphabetButtons st) ->
            isActive b = strict_eq (button_letter b) (currentFilter st)
            /\ button_aria_pressed b
               = Some (if strict_eq (button_letter b) (currentFilter st)
                       then "true" else "false").

(** The flag is up and no timer is left to bring it down. *)
Definition Stuck (st : State) : Prop :=
  isAnimating st = true
  /\ enableAnimation (options st) = true
  /\ pendingAnimations st = 0%nat.

(** The nodes the pending timers will remove from the body, in order. *)
Fixpoint removalNodes (ts : list Timer) : list nat :=
  match ts with
  | [] => []
  | t :: r =>
      match callback t with
      | RemoveAnnouncement node => node :: removalNodes r
      | _ => removalNodes r
      end
  end.

(** Every announcement in the body has its removal timer pending, and
    the nodes are distinct and older than the next one. *)
Definition Announced (w : Window) : Prop :=
  map fst (announcements w) = removalNodes (timers w)
  /\ NoDup (map fst (announcements w))
  /\ Forall (fun n => n < next_node w)%nat (map fst (announcements w)).

(** The window once its [k]-th timer has fired and left the list. *)
Definition expire (k : nat) (w : Window) : Window :=
  mkWindow (location_hash w) (history_pushed w) (remove_nth k (timers w))
    (announcements w) (next_node w).

(** The cards on display: [style.display] is 'block'. *)
Definition displayedCount (st : State) : nat :=
  List.length (filter (fun c => String.eqb (card_display c) "block") (brandCards st)).

End BrandShowcase.

(** ** The comparison table's mobile accordion (comparison-showcase.js) *)

Module ComparisonShowcase.

(** An element with the [data-mobile-toggle] attribute.  [closest_block]
    is [button.closest('.comparison-showcase__mobile-block')] as an index
    into [mobileBlocks]; an index past the end stands for a block that the
    list does not hold. *)
Record ToggleButton : Type := mkToggleButton {
  closest_block : option nat;
  toggle_role : option string;
  toggle_tabindex : option string;
  toggle_aria_expanded : option string
}.

(** A [.comparison-showcase__mobile-block].  [block_toggle] is
    [block.querySelector('[data-mobile-toggle]')] as an index into
    [toggleButtons], and [block_content] is
    [block.querySelector('.comparison-showcase__mobile-content')] as an
    index into [contents]: the first such element below the block, which
    a block that holds another block may share with it. *)
Record Block : Type := mkBlock {
  data_mobile_state : option string;
  data_mobile_side : option string;
  block_toggle : option nat;
  block_content : option nat
}.

(** A dispatched [CustomEvent]: its name and its [detail]. *)
Record CustomEvent : Type := mkCustomEvent {
  event_name : string;
  detail_block : nat;                    (* the block, by its index *)
  detail_side : option string
}.

Record State : Type := mkState {
  innerWidth : Z;                        (* window.innerWidth *)
  mobileBlocks : list Block;
  toggleButtons : list ToggleButton;
  contents : list (option string);       (* the aria-hidden attribute of each
                                            .comparison-showcase__mobile-content *)
  toggleBound : bool;                    (* click and keydown listeners on the buttons *)
  resizeBound : bool;                    (* the resize listener on the window *)
  dispatched : list CustomEvent          (* oldest first *)
}.

Definition breakpoint : Z := 900.

Definition with_blocks (b : list Block) (st : State) : State :=
  mkState (innerWidth st) b (toggleButtons st) (contents st) (toggleBound st)
    (resizeBound st) (dispatched st).
Definition with_toggleButtons (t : list ToggleButton) (st : State) : State :=
  mkState (innerWidth st) (mobileBlocks st) t (contents st) (toggleBound st)
    (resizeBound st) (dispatched st).
Definition with_contents (c : list (option string)) (st : State) : State :=
  mkState (innerWidth st) (mobileBlocks st) (toggleButtons st) c (toggleBound st)
    (resizeBound st) (dispatched st).
Definition with_toggleBound (b : bool) (st : State) : State :=
  mkState (innerWidth st) (mobileBlocks st) (toggleButtons st) (contents st) b
    (resizeBound st) (dispatched st).

Definition isExpanded (b : Block) : bool :=
  match data_mobile_state b with
  | Some s => String.eqb s "expanded"
  | None => false
  end.

Definition isMobileView (st : State) : bool := (innerWidth st <? breakpoint)%Z.

Definition set_mobile_state (s : string) (b : Block) : Block :=
  mkBlock (Some s) (data_mobile_side b) (block_toggle b) (block_content b).

(** The attributes [updateAriaAttributes] writes for one block. *)
Definition aria_of_toggle (expanded : bool) (t : ToggleButton) : ToggleButton :=
  mkToggleButton (closest_block t) (Some "button") (Some "0")
    (Some (if expanded then "true" else "false")).
Definition aria_of_content (expanded : bool) (c : option string) : option string :=
  Some (if expanded then "false" else "true").

(** The loop goes over the blocks in order; when two blocks find the same
    toggle or the same content, the later block writes last. *)
Definition updateAriaAttributes (st : State) : State :=
  let buttons :=
    fold_left
      (fun bs b =>
         match block_toggle b with
         | Some t => modify_nth t (aria_of_toggle (isExpanded b)) bs
         | None => bs
         end)
      (mobileBlocks st) (toggleButtons st) in
  let cs :=
    fold_left
      (fun cs b =>
         match block_content b with
         | Some c => modify_nth c (aria_of_content (isExpanded b)) cs
         | None => cs
         end)
      (mobileBlocks st) (contents st) in
  with_contents cs (with_toggleButtons buttons st).

(** [block.getAttribute('data-mobile-side')] of the [block]-th block. *)
Definition sideOf (blocks : list Block) (block : nat) : option string :=
  match nth_error blocks block with
  | Some b => data_mobile_side b
  | None => None
  end.

Definition dispatchCustomEvent (block : nat) (eventName : string) (st : State) : State :=
  let side := sideOf (mobileBlocks st) block in
  mkState (innerWidth st) (mobileBlocks st) (toggleButtons st) (contents st)
    (toggleBound st) (resizeBound st)
    (dispatched st ++ [mkCustomEvent eventName block side]).

Definition expandBlock (block : nat) (st : State) : State :=
  let st1 := with_blocks (modify_nth block (set_mobile_state "expanded") (mobileBlocks st)) st in
  dispatchCustomEvent block "comparison:expanded" (updateAriaAttributes st1).

Definition collapseBlock (block : nat) (st : State) : State :=
  let st1 := with_blocks (modify_nth block (set_mobile_state "collapsed") (mobileBlocks st)) st in
  dispatchCustomEvent block "comparison:collapsed" (updateAriaAttributes st1).

(** The callback of [handleToggle]'s [forEach], for the clicked [block]. *)
Definition iteration (block : nat) (s : State) (otherBlock : nat) : State :=
  if Nat.eqb otherBlock block then expandBlock block s
  else collapseBlock otherBlock s.

(** [handleToggle] with [event.currentTarget] the [i]-th toggle button. *)
Definition handleToggle (i : nat) (st : State) : State :=
  if negb (isMobileView st) then st
  else
    match nth_error (toggleButtons st) i with
    | None => st
    | Some button =>
        match closest_block button with
        | None => st
        | Some block =>
            fold_left (iteration block) (seq 0 (List.length (mobileBlocks st))) st
        end
    end.

Definition handleKeydown (i : nat) (key : string) (st : State) : State :=
  if String.eqb key "Enter" || String.eqb key " " then handleToggle i st else st.

Definition bindEvents (st : State) : State :=
  match toggleButtons st with
  | [] => st
  | _ =>
      with_toggleBound true
        (with_toggleButtons
           (map (fun t => mkToggleButton (closest_block t) (Some "button") (Some "0")
                            (toggle_aria_expanded t))
                (toggleButtons st))
           st)
  end.

Definition removeEvents (st : State) : State :=
  match toggleButtons st with
  | [] => st
  | _ => with_toggleBound false st
  end.

Definition setInitialState (st : State) : State :=
  match mobileBlocks st with
  | [] => st
  | _ =>
      updateAriaAttributes
        (fold_left
           (fun s i =>
              match nth_error (mobileBlocks s) i with
              | Some b => if isExpanded b then expandBlock i s else collapseBlock i s
              | None => s
              end)
           (seq 0 (List.length (mobileBlocks st))) st)
  end.

Definition enableMobileToggle (st : State) : State := setInitialState (bindEvents st).
Definition disableMobileToggle (st : State) : State := removeEvents st.

Definition handleResize (st : State) : State :=
  if isMobileView st then enableMobileToggle st else disableMobileToggle st.

(** [connectedCallback]: the element's blocks, toggle buttons and contents
    as the markup has them. *)
Definition init (width : Z) (blocks : list Block) (buttons : list ToggleButton)
    (cs : list (option string)) : State :=
  let st := mkState width blocks buttons cs false false [] in
  let st1 := if isMobileView st then enableMobileToggle st else disableMobileToggle st in
  mkState (innerWidth st1) (mobileBlocks st1) (toggleButtons st1) (contents st1)
    (toggleBound st1) true (dispatched st1).

(** The first block in the expanded state, by its index. *)
Fixpoint find_index {A : Type} (p : A -> bool) (n : nat) (l : list A) : option nat :=
  match l with
  | [] => None
  | x :: r => if p x then Some n else find_index p (S n) r
  end.
Definition getExpandedBlock (st : State) : option nat :=
  find_index isExpanded 0 (mobileBlocks st).

(** The blocks in the expanded state. *)
Definition expandedCount (st : State) : nat :=
  List.length (filter isExpanded (mobileBlocks st)).

(** What a toggle on the block [x] leaves in the [j]-th block and
    dispatches for it. *)
Definition stateAfterToggle (x j : nat) : string :=
  if Nat.eqb j x then "expanded" else "collapsed".
Definition eventAfterToggle (x j : nat) : string :=
  if Nat.eqb j x then "comparison:expanded" else "comparison:collapsed".
Definition toggled (x j : nat) (b : Block) : Block :=
  set_mobile_state (stateAfterToggle x j) b.

(** *** A sample table

    Two blocks, left and right, each with its toggle and its content; the
    left one expanded in the markup; a phone-sized viewport. *)
Definition sampleBlocks : list Block :=
  [ mkBlock (Some "expanded") (Some "left") (Some 0%nat) (Some 0%nat);
    mkBlock (Some "collapsed") (Some "right") (Some 1%nat) (Some 1%nat) ].
Definition sampleToggles : list ToggleButton :=
  [ mkToggleButton (Some 0%nat) None None None;
    mkToggleButton (Some 1%nat) None None None ].
Definition sampleContents : list (option string) := [None; None].
Definition sample : State := init 375 sampleBlocks sampleToggles sampleContents.

(** *** The state the markup asks for

    What [setInitialState] makes of a block, and the event it dispatches
    for it: 'expanded' stays, anything else becomes 'collapsed'. *)
Definition initialState (b : Block) : string :=
  if isExpanded b then "expanded" else "collapsed".
Definition initialized (b : Block) : Block :=
  set_mobile_state (initialState b) b.
Definition initialEvent (j : nat) (b : Block) : CustomEvent :=
  mkCustomEvent (if isExpanded b then "comparison:expanded" else "comparison:collapsed")
    j (data_mobile_side b).

(** The elements the blocks find with [querySelector], for the toggle and
    for the content, in the order of the blocks. *)
Fixpoint indicesOf (idx : Block -> option nat) (blocks : list Block) : list nat :=
  match blocks with
  | [] => []
  | b :: r =>
      match idx b with
      | Some t => t :: indicesOf idx r
      | None => indicesOf idx r
      end
  end.
Definition togglesOf (blocks : list Block) : list nat := indicesOf block_toggle blocks.
Definition contentsOf (blocks : list Block) : list nat := indicesOf block_content blocks.

(** No toggle and no content is found by two blocks. *)
Definition Unshared (blocks : list Block) : Prop :=
  NoDup (togglesOf blocks) /\ NoDup (contentsOf blocks).

(** The ARIA attributes agree with the states: the toggle of a block reads
    [aria-expanded] "true" exactly when the block is expanded, and its
    content [aria-hidden] "false" exactly then. *)
Definition AriaConsistent (st : State) : Prop :=
  forall j b, nth_error (mobileBlocks st) j = Some b ->
    (forall c a,
       block_content b = Some c ->
       nth_error (contents st) c = Some a ->
       a = Some (if isExpanded b then "false" else "true"))
    /\ (forall t button,
          block_toggle b = Some t ->
          nth_error (toggleButtons st) t = Some button ->
          toggle_aria_expanded button = Some (if isExpanded b then "true" else "false")
          /\ toggle_role button = Some "button"
          /\ toggle_tabindex button = Some "0").

(** *** The public methods *)

(** [toggle.click()]: the click listener of the toggle runs when it is
    bound (no toggle lies inside another toggle, whose listener the
    bubbling event would reach as well). *)
Definition click (i : nat) (st : State) : State :=
  if toggleBound st then handleToggle i st else st.

(** The selector of [toggleBlock] is the text
    [[data-mobile-side="] ++ side ++ ["]]]: [side] stands for itself inside
    the quotes when it has no quote, no backslash, no line break (LF, CR,
    FF) and no NUL, and the selector then finds the first element whose
    attribute equals [side]. *)
Definition plainInSelector (c : ascii) : bool :=
  let n := nat_of_ascii c in
  negb ((n =? 0) || (n =? 10) || (n =? 12) || (n =? 13) || (n =? 34) || (n =? 92))%nat.
Fixpoint selectorSafe (side : string) : bool :=
  match side with
  | EmptyString => true
  | String c r => plainInSelector c && selectorSafe r
  end.

Definition hasSide (side : string) (b : Block) : bool :=
  match data_mobile_side b with
  | Some s => String.eqb s side
  | None => false
  end.

(** [toggleBlock(side)], the [data-mobile-side] attribute being carried by
    the blocks.  The result is [None] for a [side] that does not stand for
    itself in the selector: [querySelector] then throws a SyntaxError or
    looks for something else, which is left out here. *)
Definition toggleBlock (side : string) (st : State) : option State :=
  if negb (isMobileView st) then Some st
  else if negb (selectorSafe side) then None
  else
    Some
      match find_index (hasSide side) 0 (mobileBlocks st) with
      | None => st
      | Some x =>
          match nth_error (mobileBlocks st) x with
          | None => st
          | Some block =>
              match block_toggle block with
              | Some toggle => click toggle st
              | None => st
              end
          end
      end.

(** The window was resized to [width]. *)
Definition resize (width : Z) (st : State) : State :=
  let st1 := mkState width (mobileBlocks st) (toggleButtons st) (contents st)
               (toggleBound st) (resizeBound st) (dispatched st) in
  if resizeBound st then handleResize st1 else st1.

(** *** What happens to the element

    A click or a key on the [i]-th toggle (its listeners run when they are
    bound), or a resize of the window. *)
Inductive Event : Type :=
| Click (i : nat)
| Keydown (i : nat) (key : string)
| Resize (width : Z).

Definition keydown (i : nat) (key : string) (st : State) : State :=
  if toggleBound st then handleKeydown i key st else st.

Definition step (st : State) (ev : Event) : State :=
  match ev with
  | Click i => click i st
  | Keydown i key => keydown i key st
  | Resize width => resize width st
  end.

Definition run (st : State) (evs : list Event) : State := fold_left step evs st.

End ComparisonShowcase.

(** ** The debounced resize listener of the brand directory

    [debounce(func, wait)] returns a function that closes over the variable
    [timeout].  The host's timers are known by the id [setTimeout] returns;
    all timers of one closure have the same delay, [wait]. *)
Module Debounce.

Section Closure.
Variables Args World : Type.
Variable func : Args -> World -> World.

Record Debounced : Type := mkDebounced {
  timeout : option nat;            (* the variable [timeout]; [None] is undefined *)
  scheduled : list (nat * Args);   (* the pending timers of the closure, each with
                                      the arguments its [later] captured *)
  next_id : nat;                   (* the id the next [setTimeout] returns *)
  world : World                    (* what [func] acts on *)
}.

(** [debounce(func, wait)], in a host whose next timer id is [first_id]. *)
Definition debounce (first_id : nat) (w : World) : Debounced :=
  mkDebounced None [] first_id w.

Definition without (id : nat) (ts : list (nat * Args)) : list (nat * Args) :=
  filter (fun t => negb (Nat.eqb (fst t) id)) ts.

(** [clearTimeout(timeout)]; clearing [undefined], or an id that is not
    pending, does nothing. *)
Definition clearTimeout (id : option nat) (ts : list (nat * Args)) : list (nat * Args) :=
  match id with
  | Some i => without i ts
  | None => ts
  end.

Definition executedFunction (args : Args) (c : Debounced) : Debounced :=
  let ts := clearTimeout (timeout c) (scheduled c) in
  mkDebounced (Some (next_id c)) (ts ++ [(next_id c, args)]) (S (next_id c)) (world c).

Definition later (args : Args) (c : Debounced) : Debounced :=
  mkDebounced (timeout c) (clearTimeout (timeout c) (scheduled c)) (next_id c)
    (func args (world c)).

(** The host runs the timer [id], when it is pending. *)
Definition expire (id : nat) (c : Debounced) : Debounced :=
  match find (fun t => Nat.eqb (fst t) id) (scheduled c) with
  | Some (_, args) =>
      later args (mkDebounced (timeout c) (without id (scheduled c)) (next_id c) (world c))
  | None => c
  end.

Inductive Call : Type :=
| Invoke (args : Args)
| Expire (id : nat).

Definition step (c : Debounced) (ev : Call) : Debounced :=
  match ev with
  | Invoke args => executedFunction args c
  | Expire id => expire id c
  end.

Definition run (c : Debounced) (evs : list Call) : Debounced := fold_left step evs c.

(** At most one timer is pending, the one [timeout] names. *)
Definition Settled (c : Debounced) : Prop :=
  scheduled c = []
  \/ exists id args, scheduled c = [(id, args)] /\ timeout c = Some id.

End Closure.

Arguments mkDebounced {Args World} _ _ _ _.
Arguments timeout {Args World} _.
Arguments scheduled {Args World} _.
Arguments next_id {Args World} _.
Arguments world {Args World} _.
Arguments debounce {Args World} _ _.
Arguments executedFunction {Args World} _ _.
Arguments later {Args World} _ _ _.
Arguments expire {Args World} _ _ _.
Arguments Invoke {Args} _.
Arguments Expire {Args} _.
Arguments step {Args World} _ _ _.
Arguments run {Args World} _ _ _.
Arguments Settled {Args World} _.

(** *** What the listener does: [handleResize]

    The part of the page [updateLayout] reads and writes: the width of the
    window and the [scroll-behavior] style of the alphabet navigation
    ([None] when the container has no such element). *)
Record Layout : Type := mkLayout {
  innerWidth : Z;
  nav_scrollBehavior : option string
}.

Definition ensureScrollableAlphabet (l : Layout) : Layout :=
  match nav_scrollBehavior l with
  | Some _ => mkLayout (innerWidth l) (Some "smooth")
  | None => l
  end.

Definition updateLayout (l : Layout) : Layout :=
  if (innerWidth l <=? 899)%Z then ensureScrollableAlphabet l else l.

Definition handleResize (l : Layout) : Layout := updateLayout l.

(** The window's resize listener, [debounce(handleResize.bind(this), 250)]:
    its argument is the event, which [handleResize] does not read. *)
Definition resizeListener (first_id : nat) (l : Layout) : Debounced unit Layout :=
  debounce first_id l.

Inductive WindowEvent : Type :=
| Resized (width : Z)              (* a resize event, the window now [width] wide *)
| TimerFires (id : nat).

Definition windowStep (c : Debounced unit Layout) (ev : WindowEvent) : Debounced unit Layout :=
  match ev with
  | Resized width =>
      executedFunction tt
        (mkDebounced (timeout c) (scheduled c) (next_id c)
           (mkLayout width (nav_scrollBehavior (world c))))
  | TimerFires id => expire (fun _ => handleResize) id c
  end.

Definition windowRun (c : Debounced unit Layout) (evs : list WindowEvent)
  : Debounced unit Layout := fold_left windowStep evs c.

(** The style is 'smooth' once it was set, and an absent navigation stays
    absent. *)
Definition keepsStyle (l0 l : Layout) : Prop :=
  nav_scrollBehavior l = nav_scrollBehavior l0
  \/ (nav_scrollBehavior l0 <> None /\ nav_scrollBehavior l = Some "smooth").

End Debounce.

(** ** Listeners and the identity of functions

    An event target keeps its listeners by type and callback, and a
    callback is known by the identity of the function object: adding a
    listener that is already there does nothing, and removing takes away
    the listener with that very function.  [Function.prototype.bind], a
    function expression and an arrow function each give a new function
    object. *)
Module EventTarget.

Inductive Method : Type :=
| HandleAlphabetClick
| HandleAlphabetKeydown
| HandleShowAllClick
| HandlePopState
| HandleResize.

Inductive Fn : Type :=
| Proto (m : Method)               (* the function the prototype holds *)
| Created (serial : nat).          (* the [serial]-th function created at run time *)

Inductive Target : Type :=
| AlphabetButton (i : nat)
| ShowAllButton
| ToggleButton (i : nat)
| TheWindow.

Record Listener : Type := mkListener {
  target : Target;
  type : string;
  callback : Fn
}.

Definition Listener_eq_dec (a b : Listener) : {a = b} + {a <> b}.
Proof.
  decide equality.
  - decide equality; [ decide equality | apply Nat.eq_dec ].
  - apply string_dec.
  - decide equality; apply Nat.eq_dec.
Defined.

(** The listeners of the page, oldest first, and the number of function
    objects created so far. *)
Record Page : Type := mkPage {
  listeners : list Listener;
  created : nat
}.

Definition addEventListener (l : Listener) (p : Page) : Page :=
  if in_dec Listener_eq_dec l (listeners p) then p
  else mkPage (listeners p ++ [l]) (created p).

Definition removeEventListener (l : Listener) (p : Page) : Page :=
  mkPage (remove Listener_eq_dec l (listeners p)) (created p).

Definition newFunction (p : Page) : Fn * Page :=
  (Created (created p), mkPage (listeners p) (S (created p))).

(** [target.addEventListener(type, method.bind(this))]. *)
Definition addBound (t : Target) (ty : string) (p : Page) : Page :=
  let (f, p1) := newFunction p in addEventListener (mkListener t ty f) p1.

(** No listener of the page is a prototype method, and the functions that
    listen were created before now. *)
Definition Fresh (p : Page) : Prop :=
  Forall (fun l => exists k, callback l = Created k /\ (k < created p)%nat) (listeners p).

Definition removeAll (ks l : list Listener) : list Listener :=
  fold_left (fun l k => remove Listener_eq_dec k l) ks l.

(** [q] has the listeners of [p] and [n] more, after them. *)
Definition Extends (p q : Page) (n : nat) : Prop :=
  Fresh q
  /\ exists added, listeners q = (listeners p ++ added)%list /\ List.length added = n.

End EventTarget.

(** *** The listeners of the brand directory: [bindEvents] and [destroy] *)
Module BrandShowcaseListeners.
Import EventTarget.

Definition bindButton (p : Page) (i : nat) : Page :=
  addBound (AlphabetButton i) "keydown" (addBound (AlphabetButton i) "click" p).

(** [bindEvents] for [buttons] alphabet buttons; [debounce] is given the
    bound [handleResize] and returns one more function, the listener. *)
Definition bindEvents (buttons : nat) (showAllButton : bool) (p : Page) : Page :=
  let p1 := fold_left bindButton (seq 0 buttons) p in
  let p2 := if showAllButton then addBound ShowAllButton "click" p1 else p1 in
  let p3 := addBound TheWindow "popstate" p2 in
  let (_, p4) := newFunction p3 in
  addBound TheWindow "resize" p4.

Definition unbindButton (p : Page) (i : nat) : Page :=
  removeEventListener (mkListener (AlphabetButton i) "keydown" (Proto HandleAlphabetKeydown))
    (removeEventListener (mkListener (AlphabetButton i) "click" (Proto HandleAlphabetClick))
       p).

Definition destroy (buttons : nat) (showAllButton : bool) (p : Page) : Page :=
  let p1 := fold_left unbindButton (seq 0 buttons) p in
  let p2 := if showAllButton
            then removeEventListener
                   (mkListener ShowAllButton "click" (Proto HandleShowAllClick)) p1
            else p1 in
  removeEventListener (mkListener TheWindow "resize" (Proto HandleResize))
    (removeEventListener (mkListener TheWindow "popstate" (Proto HandlePopState)) p2).

End BrandShowcaseListeners.

(** *** The listeners of the comparison table *)
Module ComparisonShowcaseListeners.
Import EventTarget.

(** The functions the instance holds: the class field [handleKeydown] (an
    arrow function) and the two methods the constructor binds and stores
    back. *)
Record Fields : Type := mkFields {
  handleToggleFn : Fn;
  handleResizeFn : Fn;
  handleKeydownFn : Fn
}.

Definition constructor (p : Page) : Fields * Page :=
  let (keydown, p1) := newFunction p in
  let (toggle, p2) := newFunction p1 in
  let (resize, p3) := newFunction p2 in
  (mkFields toggle resize keydown, p3).

Definition clickListener (f : Fields) (i : nat) : Listener :=
  mkListener (ToggleButton i) "click" (handleToggleFn f).
Definition keydownListener (f : Fields) (i : nat) : Listener :=
  mkListener (ToggleButton i) "keydown" (handleKeydownFn f).
Definition resizeListener (f : Fields) : Listener :=
  mkListener TheWindow "resize" (handleResizeFn f).

Definition bindEvents (f : Fields) (buttons : nat) (p : Page) : Page :=
  match buttons with
  | O => p
  | _ =>
      fold_left
        (fun p i => addEventListener (keydownListener f i)
                      (addEventListener (clickListener f i) p))
        (seq 0 buttons) p
  end.

Definition removeEvents (f : Fields) (buttons : nat) (p : Page) : Page :=
  match buttons with
  | O => p
  | _ =>
      fold_left
        (fun p i => removeEventListener (keydownListener f i)
                      (removeEventListener (clickListener f i) p))
        (seq 0 buttons) p
  end.

(** [handleResize], on a viewport that is narrow ([mobile]) or wide. *)
Definition handleResize (mobile : bool) (f : Fields) (buttons : nat) (p : Page) : Page :=
  if mobile then bindEvents f buttons p else removeEvents f buttons p.

Definition init (mobile : bool) (f : Fields) (buttons : nat) (p : Page) : Page :=
  addEventListener (resizeListener f)
    (if mobile then bindEvents f buttons p else removeEvents f buttons p).

Definition cleanup (f : Fields) (buttons : nat) (p : Page) : Page :=
  removeEventListener (resizeListener f) (removeEvents f buttons p).

(** The listeners of the instance. *)
Definition own (f : Fields) (buttons : nat) : list Listener :=
  (flat_map (fun i => [clickListener f i; keydownListener f i]) (seq 0 buttons)
   ++ [resizeListener f])%list.

(** The listeners of the page are those that were there before the
    instance, followed by listeners of the instance. *)
Definition Owned (f : Fields) (buttons : nat) (before : list Listener) (p : Page) : Prop :=
  exists mine, listeners p = (before ++ mine)%list
               /\ (forall x, In x mine -> In x (own f buttons)).

End ComparisonShowcaseListeners.

(* ================================================================== *)
(** * Part II. Properties                                              *)
(* ================================================================== *)

(** ** Numbers *)

Section NumberFacts.
Import JSNumber.

(** The literals are the values the host's parser gives them. *)
Example lit_0_019_is_the_double : Prim2SF 0x1.374bc6a7ef9dbp-6%float = lit_0_019.
Proof. vm_compute. reflexivity. Qed.

Example lit_0_1_is_the_double : Prim2SF 0x1.999999999999ap-4%float = lit_0_1.
Proof. vm_compute. reflexivity. Qed.

Example Math_round_ties_up :
  Math_round (Prim2SF 2.5%float) = of_Z 3
  /\ Math_round (Prim2SF (-2.5)%float) = of_Z (-2)
  /\ Math_round (Prim2SF (-0.5)%float) = S754_zero true
  /\ Math_round (Prim2SF 0x1.fffffffffffffp-2%float) = S754_zero false.
Proof. vm_compute. repeat split. Qed.





End NumberFacts.

(** ** The Silverchef calculator *)

Section CalculatorFacts.
Import JSNumber SilverchefCalculator.

(** Hiding the result panels touches the document only. *)
Lemma hideAllResults_frame (st : State) :
  pending (hideAllResults st) = pending st
  /\ amountInput (hideAllResults st) = amountInput st
  /\ resultsContainer (hideAllResults st) = resultsContainer st
  /\ errorContainer (hideAllResults st) = errorContainer st
  /\ modal (hideAllResults st) = modal st.
Proof. repeat split. Qed.

Lemma showError_pending (message : string) (st : State) :
  pending (final (showError message st)) = pending st.
Proof.
  unfold showError.
  destruct (resultsContainer (hideAllResults st)), (errorContainer (hideAllResults st));
    try reflexivity.
  destruct (query (document (hideAllResults st)) ErrorParagraph); reflexivity.
Qed.



(** C2.  For the amount 1000 the static calculation gives a weekly payment
    of 19, a security bond of 100, a total upfront of 119 (the weekly
    payment plus the bond) and a 12-month rent of 988 (the weekly payment
    times 52), each rendered by the AUD currency formatter; and for every
    amount the weekly payment is round(amount * 0.019 * 100) / 100 and the
    bond is round(amount * 0.1 * 100) / 100. *)
Theorem calculateStaticPayments_1000 (Intl_format_AUD : number -> string) :
  let r := calculateStaticPayments Intl_format_AUD (of_Z 1000) in
  (weeklyPayment (of_Z 1000) = of_Z 19
   /\ securityBond (of_Z 1000) = of_Z 100
   /\ totalUpfront (of_Z 1000) = of_Z 119
   /\ totalRent12Months (of_Z 1000) = of_Z 988)
  /\ (weekly_amount r = Intl_format_AUD (of_Z 19)
      /\ upfront_advance_payment r = Intl_format_AUD (of_Z 19)
      /\ upfront_bond r = Intl_format_AUD (of_Z 100)
      /\ upfront_total r = Intl_format_AUD (of_Z 119)
      /\ rent_after_12_months r = Intl_format_AUD (of_Z 988)
      /\ out_of_pocket r = Intl_format_AUD (of_Z 988)
      /\ finance_amount r = Intl_format_AUD (of_Z 1000))
  /\ (forall amount : number,
        let r' := calculateStaticPayments Intl_format_AUD amount in
        let weekly := div (Math_round (mul (mul amount lit_0_019) (of_Z 100))) (of_Z 100) in
        let bond := div (Math_round (mul (mul amount lit_0_1) (of_Z 100))) (of_Z 100) in
        weekly_amount r' = Intl_format_AUD weekly
        /\ upfront_bond r' = Intl_format_AUD bond
        /\ upfront_total r' = Intl_format_AUD (add weekly bond)
        /\ rent_after_12_months r' = Intl_format_AUD (mul weekly (of_Z 52))).
Proof.
  assert (H : weeklyPayment (of_Z 1000) = of_Z 19
              /\ securityBond (of_Z 1000) = of_Z 100
              /\ totalUpfront (of_Z 1000) = of_Z 119
              /\ totalRent12Months (of_Z 1000) = of_Z 988)
    by (vm_compute; repeat split).
  destruct H as (Hw & Hb & Hu & Hr).
  cbv zeta. split; [ repeat split; assumption | ]. split.
  - unfold calculateStaticPayments, formatCurrency, outOfPocket, advancePayment.
    cbn [weekly_amount upfront_advance_payment upfront_bond upfront_total
           rent_after_12_months out_of_pocket finance_amount].
    rewrite Hw, Hb, Hu, Hr. repeat split.
  - intros amount. repeat split.
Qed.

(** C10.  [openModal] pre-fills the amount field only when the price
    attribute, divided by 100 and rounded, is at least 500: otherwise the
    field keeps its value; and it does pre-fill it, with that amount, when
    the modal and the field exist and the amount is at least 500. *)
Theorem openModal_prefill (StringToNumber : string -> number)
    (NumberToString : number -> string) (price : option string) (st : State) :
  let amount := productAmount StringToNumber price in
  let st' := openModal StringToNumber NumberToString price st in
  (ge amount (of_Z 500) = false ->
     option_map value (document st' FinanceAmount)
     = option_map value (document st FinanceAmount))
  /\ (ge amount (of_Z 500) = true ->
      document st SilverchefModal <> None ->
      document st FinanceAmount <> None ->
      option_map value (document st' FinanceAmount) = Some (NumberToString amount)).
Proof.
  cbv zeta. unfold openModal, query.
  destruct (document st SilverchefModal) as [m | ] eqn:Em.
  - destruct (document st FinanceAmount) as [e | ] eqn:Ee.
    + split; intros Hge.
      * rewrite Hge. cbn. unfold update. cbn. now rewrite Ee.
      * intros _ _. rewrite Hge. cbn. unfold update. cbn. now rewrite Ee.
    + split; intros Hge.
      * cbn. unfold update. cbn. now rewrite Ee.
      * intros _ H. congruence.
  - split; intros Hge; [ reflexivity | intros H; congruence ].
Qed.

End CalculatorFacts.

Section CalculatorSamples.
Import JSNumber SilverchefCalculator.

(** The page at work: a product of 1000 dollars, opened, calculated, and
    the results shown 1500 ms later. *)
Example sample_calculation :
  let st := sample "100000" in
  let st1 := final (calculatePayments sampleParseFloat sampleFormat st) in
  let st2 := final (fire 1 st1) in
  option_map value (document st FinanceAmount) = Some "1000"
  /\ map fst (pending st1) = [100%Z; 1500%Z]
  /\ option_map textContent (document st2 WeeklyPayment) = Some "$19.00"
  /\ option_map textContent (document st2 SecurityBond) = Some "$100.00"
  /\ option_map textContent (document st2 TotalUpfront) = Some "$119.00"
  /\ option_map textContent (document st2 TotalRent) = Some "$988.00"
  /\ option_map display (document st2 CalculatorBreakdown) = Some "block".
Proof. vm_compute. repeat split. Qed.

Lemma openModal_prefill_witness :
  ge (productAmount sampleStringToNumber (Some "49900")) (of_Z 500) = false
  /\ option_map value (document (sample "49900") FinanceAmount) = Some "499"
  /\ ge (productAmount sampleStringToNumber (Some "100000")) (of_Z 500) = true
  /\ option_map value (document (sample "100000") FinanceAmount) = Some "1000".
Proof.
  pose proof (openModal_prefill sampleStringToNumber sampleNumberToString (Some "49900")
                (new_SilverchefCalculator sampleDocument "")) as H.
  pose proof (openModal_prefill sampleStringToNumber sampleNumberToString (Some "100000")
                (new_SilverchefCalculator sampleDocument "")) as H'.
  cbv zeta in H, H'. destruct H as [H _], H' as [_ H'].
  split; [ reflexivity | ]. split; [ exact (H eq_refl) | ].
  split; [ reflexivity | ].
  apply H'; [ reflexivity | discriminate | discriminate ].
Defined.

End CalculatorSamples.

(** ** The calculator's panels and listeners *)

Section CalculatorLoopFacts.
Import JSNumber SilverchefCalculator.

(** Unfolds the bookkeeping of an opened modal down to its elements. *)
Ltac bound H :=
  destruct H as (Hm & Hr & Hl & Hb & He & Pm & Pr & Pl & Pb & Pe);
  match type of Pm with ?d _ <> None =>
    destruct (d SilverchefModal) as [em | ] eqn:Em; [ | congruence ] end;
  match type of Pr with ?d _ <> None =>
    destruct (d CalculatorResults) as [er | ] eqn:Er; [ | congruence ] end;
  match type of Pl with ?d _ <> None =>
    destruct (d CalculatorLoading) as [el | ] eqn:El; [ | congruence ] end;
  match type of Pb with ?d _ <> None =>
    destruct (d CalculatorBreakdown) as [eb | ] eqn:Eb; [ | congruence ] end;
  match type of Pe with ?d _ <> None =>
    destruct (d CalculatorError) as [ee | ] eqn:Ee; [ | congruence ] end.

Ltac opened H :=
  let B := fresh "B" in
  destruct H as [B Pp]; bound B;
  match type of Pp with ?d _ <> None =>
    destruct (d ErrorParagraph) as [ep | ] eqn:Ep; [ | congruence ] end.

Lemma update_eq (d : Document) (id : ElemId) (f : Element -> Element) :
  update d id f id = option_map f (d id).
Proof. unfold update. destruct (ElemId_eq_dec id id); congruence. Qed.

Lemma update_neq (d : Document) (id j : ElemId) (f : Element -> Element) :
  j <> id -> update d id f j = d j.
Proof. intros H. unfold update. destruct (ElemId_eq_dec j id); congruence. Qed.

(** Looks an element up through the updates made on the document. *)
Ltac lookup :=
  repeat first [ rewrite update_eq | rewrite update_neq by discriminate ].

Ltac panels_now :=
  unfold panels, displayOf, textOf, modalIsActive, hideAllResults, query;
  cbn [document with_document with_pending resultsContainer loadingContainer
         breakdownContainer errorContainer modal pending amountInput body_overflow
         andThen final returns];
  repeat match goal with
         | H : _ = Some _ |- _ => rewrite H
         end;
  cbn [set_display_of]; lookup;
  repeat match goal with
         | H : _ = Some _ |- _ => rewrite H
         end;
  cbn [option_map display textContent active set_display set_textContent set_active
         set_aria_hidden].

Lemma showLoading_panels (st : State) :
  PanelsBound st ->
  panels (showLoading st) = (Some "block", Some "block", Some "none", Some "none").
Proof.
  intros H. bound H. unfold showLoading. panels_now.
  rewrite ?Er, ?El, ?Eb, ?Ee. reflexivity.
Qed.

Lemma showError_panels (message : string) (st : State) :
  Opened st ->
  returns (showError message st) = true
  /\ panels (final (showError message st))
     = (Some "block", Some "none", Some "none", Some "block")
  /\ textOf (final (showError message st)) ErrorParagraph = Some message.
Proof.
  intros H. opened H. unfold showError. panels_now.
  rewrite ?Ep. panels_now. rewrite ?Er, ?El, ?Eb, ?Ee, ?Ep. repeat split.
Qed.

Lemma showError_without_paragraph (message : string) (st : State) :
  PanelsBound st ->
  document st ErrorParagraph = None ->
  returns (showError message st) = false
  /\ panels (final (showError message st))
     = (Some "none", Some "none", Some "none", Some "none").
Proof.
  intros H Ep. bound H. unfold showError. panels_now.
  rewrite ?Ep. panels_now. rewrite ?Er, ?El, ?Eb, ?Ee. repeat split.
Qed.

Lemma showResults_panels (r : Results) (st : State) :
  PanelsBound st ->
  returns (showResults r st) = true
  /\ panels (final (showResults r st))
     = (Some "block", Some "none", Some "block", Some "none")
  /\ modalIsActive (final (showResults r st)) = modalIsActive st
  /\ (forall slot v, In (slot, v) (slots r) -> document st slot <> None ->
                     textOf (final (showResults r st)) slot = Some v).
Proof.
  intros H. bound H. unfold showResults, updateElement.
  do 8 (cbn [andThen modal with_document hideAllResults resultsContainer
               breakdownContainer];
        rewrite ?Hm, ?Hr, ?Hb).
  panels_now.
  rewrite ?Er, ?El, ?Eb, ?Ee, ?Em. split; [ reflexivity | ].
  split; [ reflexivity | ]. split; [ reflexivity | ].
  intros slot v Hin Hp. unfold slots in Hin. cbn [In] in Hin.
  repeat match goal with
         | H : _ \/ _ |- _ => destruct H as [H | H]
         | H : (_, _) = (_, _) |- _ => injection H as <- <-
         | H : False |- _ => destruct H
         end;
    cbn; match goal with
         | |- context [document st ?s] => destruct (document st s); [ reflexivity | congruence ]
         end.
Qed.

Lemma ends_in_bind {S : Type} (P : S -> Prop) (o : outcome S) (k : S -> outcome S) :
  ends_in P o -> (forall s, P s -> ends_in P (k s)) -> ends_in P (andThen o k).
Proof. destruct o as [s | s]; cbn; intros H Hk; [ now apply Hk | exact H ]. Qed.

Lemma updateElement_pending (id : ElemId) (v : string) (p : list (Z * Continuation))
    (st : State) :
  pending st = p -> ends_in (fun s => pending s = p) (updateElement id v st).
Proof. unfold updateElement. destruct (modal st); trivial. Qed.

Lemma showResults_pending (r : Results) (st : State) :
  pending (final (showResults r st)) = pending st.
Proof.
  unfold showResults.
  destruct (resultsContainer (hideAllResults st)), (breakdownContainer (hideAllResults st));
    try reflexivity.
  change (ends_in (fun s => pending s = pending st)
            (updateElement WeeklyPayment (weekly_amount r) (hideAllResults st);;
             updateElement AdvancePayment (upfront_advance_payment r);;
             updateElement SecurityBond (upfront_bond r);;
             updateElement TotalUpfront (upfront_total r);;
             updateElement TotalRent (rent_after_12_months r);;
             updateElement OutOfPocket (out_of_pocket r);;
             (fun st2 =>
                Returned (with_document
                  (update (update (document st2) e (set_display "block")) e0
                     (set_display "block")) st2)))%outcome).
  repeat apply ends_in_bind;
    try (intros s Hs; first [ now apply updateElement_pending | exact Hs ]).
  now apply updateElement_pending.
Qed.

Lemma update_present (d : Document) (id j : ElemId) (f : Element -> Element) :
  d j <> None -> update d id f j <> None.
Proof.
  unfold update. destruct (ElemId_eq_dec j id); [ | trivial ].
  destruct (d j); cbn; congruence.
Qed.

Lemma closeModal_PanelsBound (st : State) : PanelsBound st -> PanelsBound (closeModal st).
Proof.
  intros H. bound H. unfold closeModal. rewrite Hm.
  unfold PanelsBound. panels_now. rewrite ?Er, ?El, ?Eb, ?Ee, ?Em.
  repeat split; discriminate.
Qed.

Lemma with_pending_PanelsBound (p : list (Z * Continuation)) (st : State) :
  PanelsBound st -> PanelsBound (with_pending p st).
Proof. trivial. Qed.

Lemma sample_Opened : Opened (sample "100000").
Proof. vm_compute. repeat split; discriminate. Qed.










(** X4.  Once the modal is open, [showLoading], [showError] and
    [showResults] each leave the results container displayed with exactly
    one of its panels: the loading panel, the error panel (its paragraph
    holding the message) or the breakdown panel (each slot that exists
    holding its field of the results). *)
Theorem results_panels_exclusive (st : State) :
  Opened st ->
  panels (showLoading st) = (Some "block", Some "block", Some "none", Some "none")
  /\ (forall message,
        returns (showError message st) = true
        /\ panels (final (showError message st))
           = (Some "block", Some "none", Some "none", Some "block")
        /\ textOf (final (showError message st)) ErrorParagraph = Some message)
  /\ (forall r,
        returns (showResults r st) = true
        /\ panels (final (showResults r st))
           = (Some "block", Some "none", Some "block", Some "none")
        /\ (forall slot v, In (slot, v) (slots r) -> document st slot <> None ->
                           textOf (final (showResults r st)) slot = Some v)).
Proof.
  intros H. split; [ apply showLoading_panels, H | ]. split.
  - intros message. now apply showError_panels.
  - intros r. destruct (showResults_panels r st (proj1 H)) as (H1 & H2 & _ & H4).
    repeat split; assumption.
Qed.

Lemma results_panels_exclusive_witness :
  Opened (sample "100000")
  /\ panels (showLoading (sample "100000"))
     = (Some "block", Some "block", Some "none", Some "none").
Proof.
  split; [ exact sample_Opened | ].
  exact (proj1 (results_panels_exclusive (sample "100000") sample_Opened)).
Defined.

(** X5.  [closeModal] hides the modal and all panels and restores the body
    scroll, but it leaves the pending callbacks alone: when the result of
    a calculation started before the close arrives, the results container
    and the breakdown panel are displayed again, in the closed modal. *)
Theorem closeModal_keeps_pending_results (st : State) (k : nat) (ms : Z) (r : Results) :
  Opened st ->
  nth_error (pending st) k = Some (ms, ResumeCalculate r) ->
  let st1 := closeModal st in
  let st2 := final (fire k st1) in
  (modalIsActive st1 = false
   /\ body_overflow st1 = ""
   /\ panels st1 = (Some "none", Some "none", Some "none", Some "none")
   /\ pending st1 = pending st)
  /\ (modalIsActive st2 = false
      /\ panels st2 = (Some "block", Some "none", Some "block", Some "none")
      /\ pending st2 = remove_nth k (pending st)).
Proof.
  intros [H Hp] Hk st1 st2.
  assert (B1 : PanelsBound st1) by now apply closeModal_PanelsBound.
  assert (P1 : pending st1 = pending st).
  { unfold st1, closeModal. destruct (modal st); reflexivity. }
  assert (A1 : modalIsActive st1 = false
               /\ body_overflow st1 = ""
               /\ panels st1 = (Some "none", Some "none", Some "none", Some "none")).
  { unfold st1. bound H. unfold closeModal. rewrite Hm. panels_now.
    rewrite ?Er, ?El, ?Eb, ?Ee, ?Em. repeat split. }
  destruct A1 as (A1 & A2 & A3).
  split; [ repeat split; assumption | ].
  assert (E2 : st2 = final (showResults r (with_pending (remove_nth k (pending st)) st1))).
  { unfold st2, fire. rewrite P1, Hk. cbn [runContinuation]. unfold resumeCalculate.
    destruct (showResults_panels r (with_pending (remove_nth k (pending st)) st1))
      as (R & _); [ now apply with_pending_PanelsBound | ].
    destruct (showResults r _); [ reflexivity | discriminate ]. }
  destruct (showResults_panels r (with_pending (remove_nth k (pending st)) st1))
    as (_ & R2 & R3 & _); [ now apply with_pending_PanelsBound | ].
  rewrite E2. split; [ | split ].
  - rewrite R3. exact A1.
  - exact R2.
  - apply showResults_pending.
Qed.

Lemma closeModal_keeps_pending_results_witness :
  let st := final (calculatePayments sampleParseFloat sampleFormat (sample "100000")) in
  map fst (pending st) = [100%Z; 1500%Z]
  /\ displayOf (closeModal st) CalculatorBreakdown = Some "none"
  /\ displayOf (final (fire 1 (closeModal st))) CalculatorBreakdown = Some "block".
Proof.
  cbv zeta.
  assert (O : Opened (final (calculatePayments sampleParseFloat sampleFormat
                               (sample "100000"))))
    by (vm_compute; repeat split; discriminate).
  pose proof (closeModal_keeps_pending_results _ 1 1500%Z
                (calculateStaticPayments sampleFormat (of_Z 1000)) O eq_refl) as H.
  cbv zeta in H. destruct H as ((_ & _ & H1 & _) & (_ & H2 & _)).
  split; [ reflexivity | ]. split.
  - exact (f_equal (fun p => snd (fst p)) H1).
  - exact (f_equal (fun p => snd (fst p)) H2).
Defined.

(** X6.  On a page without the modal, whatever the listeners receive, the
    calculator changes nothing: the document and the body scroll stay as
    they were, the object binds no element, and nothing is left pending. *)
Theorem without_modal_nothing_happens (StringToNumber parseFloat : string -> number)
    (NumberToString Intl_format_AUD : number -> string)
    (d : Document) (overflow : string) (actions : list Action) :
  d SilverchefModal = None ->
  let st := performAll StringToNumber parseFloat NumberToString Intl_format_AUD
              (new_SilverchefCalculator d overflow) actions in
  document st = d
  /\ body_overflow st = overflow
  /\ pending st = []
  /\ focused st = None
  /\ modal st = None
  /\ amountInput st = None.
Proof.
  intros Hd. cbv zeta.
  set (I := fun st : State =>
              document st = d /\ body_overflow st = overflow /\ pending st = []
              /\ focused st = None /\ modal st = None /\ amountInput st = None).
  assert (Hstep : forall st a,
             I st -> I (perform StringToNumber parseFloat NumberToString Intl_format_AUD st a)).
  { intros st a (I1 & I2 & I3 & I4 & I5 & I6). unfold perform.
    destruct a as [price | | | | | k]; cbn [final].
    - unfold openModal, query. rewrite I1, Hd. repeat split; assumption.
    - unfold closeModal. rewrite I5. repeat split; assumption.
    - unfold modalIsActive. rewrite I5. repeat split; assumption.
    - unfold calculatePayments. rewrite I6. repeat split; assumption.
    - unfold calculatePayments. rewrite I6. repeat split; assumption.
    - unfold fire. rewrite I3. destruct k; repeat split; assumption. }
  assert (Hall : forall l st,
             I st -> I (performAll StringToNumber parseFloat NumberToString Intl_format_AUD st l)).
  { induction l as [ | a l IH]; intros st Hst; [ exact Hst | ].
    cbn. apply IH, Hstep, Hst. }
  apply Hall. repeat split.
Qed.

Lemma without_modal_nothing_happens_witness :
  let st := performAll sampleStringToNumber sampleParseFloat sampleNumberToString sampleFormat
              (new_SilverchefCalculator (fun _ => None) "scroll")
              [TriggerClick (Some "100000"); CalculateClick; Fires 0; EscapeKey; CloseClick] in
  body_overflow st = "scroll" /\ pending st = [].
Proof.
  cbv zeta.
  pose proof (without_modal_nothing_happens sampleStringToNumber sampleParseFloat
                sampleNumberToString sampleFormat (fun _ => None) "scroll"
                [TriggerClick (Some "100000"); CalculateClick; Fires 0; EscapeKey; CloseClick]
                eq_refl) as H.
  cbv zeta in H. destruct H as (_ & H2 & H3 & _). split; assumption.
Defined.

(** X7.  When the error panel has no paragraph, a rejected amount makes
    [calculatePayments] end with the exception [showError] raises (the
    promise of the async method is rejected), after the panels were
    hidden: nothing is displayed and nothing is left pending. *)
Theorem validation_error_without_paragraph (parseFloat : string -> number)
    (Intl_format_AUD : number -> string) (st : State) (input : ElemId) :
  PanelsBound st ->
  document st ErrorParagraph = None ->
  amountInput st = Some input ->
  rejected (parsedAmount parseFloat st input) = true ->
  let o := calculatePayments parseFloat Intl_format_AUD st in
  returns o = false
  /\ panels (final o) = (Some "none", Some "none", Some "none", Some "none")
  /\ pending (final o) = pending st.
Proof.
  intros B Ep Hin Hr. cbv zeta.
  assert (E : calculatePayments parseFloat Intl_format_AUD st
              = showError validation_message st).
  { unfold calculatePayments. now rewrite Hin, Hr. }
  rewrite E.
  destruct (showError_without_paragraph validation_message st B Ep) as [H1 H2].
  split; [ exact H1 | ]. split; [ exact H2 | apply showError_pending ].
Qed.

Lemma validation_error_without_paragraph_witness :
  let page : Document :=
    fun id => match id with ErrorParagraph => None | _ => sampleDocument id end in
  let st := openModal sampleStringToNumber sampleNumberToString (Some "49900")
              (new_SilverchefCalculator page "") in
  returns (calculatePayments sampleParseFloat sampleFormat st) = false.
Proof.
  cbv zeta.
  assert (B : PanelsBound
                (openModal sampleStringToNumber sampleNumberToString (Some "49900")
                   (new_SilverchefCalculator
                      (fun id => match id with
                                 | ErrorParagraph => None
                                 | _ => sampleDocument id
                                 end) "")))
    by (vm_compute; repeat split; discriminate).
  exact (proj1 (validation_error_without_paragraph sampleParseFloat sampleFormat _
                  FinanceAmount B eq_refl eq_refl eq_refl)).
Defined.

End CalculatorLoopFacts.

(** ** The brand directory *)

Section BrandShowcaseFacts.
Import JSNumber BrandShowcase.

(** *** Outcomes *)

Lemma ends_in_andThen (P : State -> Prop) (o : outcome State) (k : State -> outcome State) :
  ends_in P o -> (forall s, P s -> ends_in P (k s)) -> ends_in P (andThen o k).
Proof. destruct o as [s | s]; cbn; intros H Hk; [ now apply Hk | exact H ]. Qed.

(** *** Strings and lists *)

Lemma strict_eq_refl (a : option string) : strict_eq a a = true.
Proof. destruct a; cbn; [ apply String.eqb_refl | reflexivity ]. Qed.

Lemma strict_eq_true (a b : option string) : strict_eq a b = true <-> a = b.
Proof.
  destruct a as [x | ], b as [y | ]; cbn; try (split; congruence).
  rewrite String.eqb_eq. split; congruence.
Qed.

Lemma substring_all (s : string) : String.substring 0 (String.length s) s = s.
Proof. induction s as [ | c s IH]; cbn; [ reflexivity | now rewrite IH ]. Qed.

Lemma filter_remove_nth {A : Type} (p : A -> bool) (k : nat) (l : list A) (x : A) :
  nth_error l k = Some x ->
  List.length (filter p l)
  = ((if p x then 1 else 0) + List.length (filter p (remove_nth k l)))%nat.
Proof.
  unfold remove_nth. revert k. induction l as [ | y l IH]; intros [ | k] H; cbn in *;
    try discriminate.
  - injection H as ->. destruct (p x); reflexivity.
  - destruct (p y); cbn; rewrite (IH k H); destruct (p x); lia.
Qed.

Lemma filter_app_length {A : Type} (p : A -> bool) (l : list A) (x : A) :
  List.length (filter p (l ++ [x]))
  = (List.length (filter p l) + (if p x then 1 else 0))%nat.
Proof. rewrite filter_app, length_app. cbn. destruct (p x); reflexivity. Qed.

Lemma mapi_from_length {A B : Type} (f : nat -> A -> B) (l : list A) (n : nat) :
  List.length (mapi_from n f l) = List.length l.
Proof. revert n. induction l; intros n; cbn; [ | rewrite IHl ]; reflexivity. Qed.

Lemma mapi_from_map {A B C : Type} (g : B -> C) (f : nat -> A -> B) (h : A -> C)
    (l : list A) (n : nat) :
  (forall i a, g (f i a) = h a) ->
  map g (mapi_from n f l) = map h l.
Proof.
  intros H. revert n. induction l as [ | a l IH]; intros n; cbn;
    [ | rewrite H, IH ]; reflexivity.
Qed.

Lemma mem_indices_from (p : Card -> bool) (cards : list Card) (n i : nat) (c : Card) :
  nth_error cards i = Some c ->
  mem (n + i) (indices_from n p cards) = p c.
Proof.
  unfold mem.
  assert (Hlow : forall cs m j,
             (j < m)%nat -> existsb (Nat.eqb j) (indices_from m p cs) = false).
  { induction cs as [ | d cs IH]; intros m j Hj; cbn; [ reflexivity | ].
    destruct (p d); cbn; [ | apply IH; lia ].
    rewrite IH by lia. destruct (Nat.eqb_spec j m); [ lia | reflexivity ]. }
  revert n i. induction cards as [ | d cards IH]; intros n [ | i] H;
    cbn [indices_from nth_error] in *; try discriminate.
  - injection H as ->. rewrite Nat.add_0_r.
    destruct (p c); cbn [existsb]; [ now rewrite Nat.eqb_refl | apply Hlow; lia ].
  - replace (n + S i)%nat with (S n + i)%nat by lia.
    destruct (p d); cbn [existsb]; [ | now apply IH ].
    rewrite (IH (S n) i H). destruct (Nat.eqb_spec (S n + i) n); [ lia | reflexivity ].
Qed.

(** [forEach] over the captured cards is a conditional map, also when the
    cards were rewritten in place since they were captured. *)
Lemma forEach_at_indices_map (p : Card -> bool) (f g : Card -> Card) (cards : list Card) :
  forEach_at (indices p cards) f (map g cards)
  = map (fun c => if p c then f (g c) else g c) cards.
Proof.
  unfold forEach_at, mapi, indices.
  assert (H : forall suffix n prefix,
             cards = (prefix ++ suffix)%list -> n = List.length prefix ->
             mapi_from n (fun i c => if mem i (indices_from 0 p cards) then f c else c)
               (map g suffix)
             = map (fun c => if p c then f (g c) else g c) suffix).
  { induction suffix as [ | c suffix IH]; intros n prefix Hc Hn; cbn; [ reflexivity | ].
    assert (Hm : mem n (indices_from 0 p cards) = p c).
    { apply (mem_indices_from p cards 0 n c).
      subst. rewrite nth_error_app2, Nat.sub_diag by lia. reflexivity. }
    rewrite Hm. f_equal. apply (IH (S n) (prefix ++ [c])%list).
    - now rewrite <- app_assoc.
    - rewrite length_app; cbn; lia. }
  apply (H cards 0%nat []); reflexivity.
Qed.

Lemma forEach_at_indices (p : Card -> bool) (f : Card -> Card) (cards : list Card) :
  forEach_at (indices p cards) f cards = map (fun c => if p c then f c else c) cards.
Proof.
  transitivity (forEach_at (indices p cards) f (map (fun c => c) cards));
    [ now rewrite map_id | apply forEach_at_indices_map ].
Qed.

Lemma nth_error_last {A : Type} (l : list A) (x : A) :
  nth_error (l ++ [x]) (List.length l) = Some x.
Proof. rewrite nth_error_app2, Nat.sub_diag by lia. reflexivity. Qed.

Lemma remove_nth_last {A : Type} (l : list A) (x : A) :
  remove_nth (List.length l) (l ++ [x]) = l.
Proof.
  unfold remove_nth. rewrite firstn_app, Nat.sub_diag, firstn_all. cbn [firstn].
  rewrite skipn_all2 by (rewrite length_app; cbn; lia). now rewrite !app_nil_r.
Qed.

Lemma contains_classList_remove (c : string) (l : list string) :
  contains c (classList_remove c l) = false.
Proof.
  unfold contains, classList_remove. induction l as [ | x l IH]; cbn; [ reflexivity | ].
  destruct (String.eqb c x) eqn:E; cbn; [ exact IH | now rewrite E, IH ].
Qed.

Lemma contains_classList_remove_other (c c' : string) (l : list string) :
  contains c l = false -> contains c (classList_remove c' l) = false.
Proof.
  unfold contains, classList_remove. induction l as [ | x l IH]; cbn; [ reflexivity | ].
  intros H. apply orb_false_elim in H. destruct H as [Hx Hl].
  destruct (String.eqb c' x); cbn; [ now apply IH | now rewrite Hx, IH ].
Qed.

(** *** Decoding the fragment *)




(** *** One animation at a time *)

Lemma keeps_refl (st : State) : keeps st st.
Proof. split; reflexivity. Qed.

Lemma keeps_trans (a b c : State) : keeps a b -> keeps b c -> keeps a c.
Proof. unfold keeps. intros [H1 H2] [H3 H4]. split; congruence. Qed.

Lemma keeps_AnimationInv (st st' : State) : keeps st st' -> AnimationInv st -> AnimationInv st'.
Proof. unfold keeps, AnimationInv. intros [-> ->]. trivial. Qed.

Lemma keeps_updateURL (arg : option string) (st : State) : keeps st (updateURL arg st).
Proof.
  unfold updateURL.
  repeat match goal with
         | |- context [if ?b then _ else _] => destruct b
         | |- context [match ?x with Some _ => _ | None => _ end] => destruct x
         end; split; reflexivity.
Qed.

Lemma keeps_updateEmptyState (isEmpty : bool) (st : State) :
  keeps st (final (updateEmptyState isEmpty st)).
Proof.
  unfold updateEmptyState. destruct (emptyState st); [ | apply keeps_refl ].
  cbn. destruct (brandGrid st); split; reflexivity.
Qed.

Lemma keeps_instantFilter (letter : option string) (st : State) :
  keeps st (final (instantFilter letter st)).
Proof.
  unfold instantFilter.
  eapply keeps_trans; [ | apply keeps_updateEmptyState ]. split; reflexivity.
Qed.

Lemma keeps_announceFilterChange (letter : option string) (st : State) :
  keeps st (final (announceFilterChange letter st)).
Proof.
  destruct letter as [l | ]; [ | apply keeps_refl ].
  split; [ | reflexivity ].
  unfold pendingAnimations. cbn. rewrite filter_app_length. cbn. lia.
Qed.

Lemma AnimationInv_animateFilter (letter : option string) (st : State) :
  AnimationInv st -> isAnimating st = false -> AnimationInv (animateFilter letter st).
Proof.
  intros [_ H0] Hf. specialize (H0 Hf).
  assert (E : pendingAnimations (animateFilter letter st) = 1%nat).
  { unfold pendingAnimations in *. cbn. rewrite filter_app_length, H0. reflexivity. }
  split; [ lia | ]. cbn. discriminate.
Qed.

Lemma AnimationInv_filterByLetter (letter : option string) (updateHistory : bool) (st : State) :
  AnimationInv st -> ends_in AnimationInv (filterByLetter letter updateHistory st).
Proof.
  intros Inv. unfold filterByLetter.
  destruct (isAnimating st && enableAnimation (options st)) eqn:G; [ exact Inv | ].
  apply ends_in_andThen; [ apply ends_in_andThen | ].
  - cbn [updateActiveButton with_currentFilter with_buttons options enableAnimation].
    destruct (enableAnimation (options st)) eqn:En.
    + apply AnimationInv_animateFilter.
      * exact Inv.
      * cbn. now rewrite andb_true_r in G.
    + eapply keeps_AnimationInv; [ apply keeps_instantFilter | exact Inv ].
  - intros s Hs. destruct updateHistory; [ | exact Hs ].
    eapply keeps_AnimationInv; [ apply keeps_updateURL | exact Hs ].
  - intros s Hs. eapply keeps_AnimationInv; [ apply keeps_announceFilterChange | exact Hs ].
Qed.

Lemma AnimationInv_handleAlphabetClick (i : nat) (st : State) :
  AnimationInv st -> ends_in AnimationInv (handleAlphabetClick i st).
Proof.
  intros Inv. unfold handleAlphabetClick.
  destruct (isAnimating st); [ exact Inv | ].
  destruct (nth_error (alphabetButtons st) i) as [b | ]; [ | exact Inv ].
  destruct (button_disabled b || strict_eq (button_letter b) (currentFilter st));
    [ exact Inv | ].
  apply ends_in_andThen; [ now apply AnimationInv_filterByLetter | ].
  intros s Hs. eapply keeps_AnimationInv; [ apply keeps_updateURL | exact Hs ].
Qed.

Lemma AnimationInv_fireTimer (k : nat) (st : State) :
  AnimationInv st -> ends_in AnimationInv (fireTimer k st).
Proof.
  intros [Hle H0]. unfold fireTimer.
  destruct (nth_error (timers (window st)) k) as [t | ] eqn:E; [ | split; assumption ].
  pose proof (filter_remove_nth (fun t => isAnimationCallback (callback t)) k _ t E) as Hc.
  fold (pendingAnimations st) in Hc.
  set (st1 := with_window _ st).
  assert (Hp : pendingAnimations st
               = ((if isAnimationCallback (callback t) then 1 else 0)
                  + pendingAnimations st1)%nat) by exact Hc.
  assert (Ha : isAnimating st1 = isAnimating st) by reflexivity.
  clearbody st1. clear Hc E.
  destruct (callback t) as [cardsToShow | | node]; cbn [runCallback isAnimationCallback] in *.
  - (* the outer timeout *)
    assert (P1 : pendingAnimations st1 = 0%nat) by lia.
    unfold showMatching.
    set (st2 := with_cards _ st1).
    assert (K2 : keeps st1 st2) by (split; reflexivity).
    pose proof (keeps_updateEmptyState (Nat.eqb (List.length cardsToShow) 0) st2) as K3.
    destruct (updateEmptyState _ st2) as [s | s]; cbn [andThen final ends_in] in *.
    + destruct K2 as [K2 K2'], K3 as [K3 K3'].
      unfold ends_in. cbn [final].
      assert (E : pendingAnimations
                    (with_window
                       (setTimeout AnimationComplete (animationDuration (options s))
                          (window s)) s) = 1%nat).
      { unfold pendingAnimations in *. cbn. rewrite filter_app_length. cbn. lia. }
      split; [ lia | ]. intros Hf. cbn in Hf.
      assert (isAnimating st = false) by congruence.
      specialize (H0 H). lia.
    + eapply keeps_AnimationInv; [ exact K3 | ].
      eapply keeps_AnimationInv; [ exact K2 | ]. split; lia.
  - (* the inner timeout *)
    unfold ends_in. cbn [final].
    assert (E : pendingAnimations (animationComplete st1) = pendingAnimations st1)
      by reflexivity.
    split; [ lia | ]. intros _. lia.
  - (* the end of an announcement *)
    unfold ends_in. cbn [final].
    assert (E : pendingAnimations (removeAnnouncement node st1) = pendingAnimations st1)
      by reflexivity.
    assert (E' : isAnimating (removeAnnouncement node st1) = isAnimating st1)
      by reflexivity.
    split; [ lia | ]. rewrite E', Ha. intros Hf. specialize (H0 Hf). lia.
Qed.

Lemma AnimationInv_step (st : State) (ev : Event) :
  AnimationInv st -> AnimationInv (step st ev).
Proof.
  intros Inv. unfold step.
  destruct ev as [i | i key | | hash | letter | k].
  - now apply AnimationInv_handleAlphabetClick.
  - unfold handleAlphabetKeydown.
    destruct (String.eqb key "Enter" || String.eqb key " ");
      [ now apply AnimationInv_handleAlphabetClick | exact Inv ].
  - destruct (showAllButton st); [ | exact Inv ].
    unfold handleShowAllClick.
    apply ends_in_andThen; [ now apply AnimationInv_filterByLetter | ].
    intros s Hs. eapply keeps_AnimationInv; [ apply keeps_updateURL | exact Hs ].
  - apply AnimationInv_filterByLetter.
    eapply keeps_AnimationInv; [ | exact Inv ]. split; reflexivity.
  - now apply AnimationInv_filterByLetter.
  - now apply AnimationInv_fireTimer.
Qed.

Lemma AnimationInv_run (evs : list Event) (st : State) :
  AnimationInv st -> AnimationInv (run st evs).
Proof.
  revert st. induction evs as [ | ev evs IH]; intros st Inv; cbn; [ exact Inv | ].
  apply IH. now apply AnimationInv_step.
Qed.

Lemma AnimationInv_init (st : State) : AnimationInv st -> ends_in AnimationInv (init st).
Proof.
  intros Inv. unfold init.
  apply ends_in_andThen.
  - unfold handleInitialFilter.
    assert (I1 : AnimationInv (updateURL None st))
      by (eapply keeps_AnimationInv; [ apply keeps_updateURL | exact Inv ]).
    destruct (truthy _ && negb _); [ now apply AnimationInv_filterByLetter | exact I1 ].
  - intros s Hs. eapply keeps_AnimationInv; [ | exact Hs ]. split; reflexivity.
Qed.

Lemma AnimationInv_new (buttons : list Button) (cards : list Card)
    (empty grid : option string) (showAll : bool) (opts : Options) (hash : string) :
  ends_in AnimationInv (new_BrandShowcase buttons cards empty grid showAll opts hash).
Proof. apply AnimationInv_init. split; [ cbn; lia | reflexivity ]. Qed.

(** C1.  While [isAnimating] is set and animation is enabled,
    [filterByLetter] (and [setFilter]) returns with the widget, the address
    bar, the history and the timers exactly as they were; the click handler
    does so whenever [isAnimating] is set, for any button; and in every
    state the widget reaches after its construction at most one filter
    animation is pending, none when the flag is down: two animations never
    overlap. *)
Theorem filter_requests_ignored_while_animating :
  (forall (st : State) (letter : option string) (updateHistory : bool),
      isAnimating st = true -> enableAnimation (options st) = true ->
      filterByLetter letter updateHistory st = Returned st
      /\ setFilter letter st = Returned st)
  /\ (forall (st : State) (i : nat),
        isAnimating st = true -> handleAlphabetClick i st = Returned st)
  /\ (forall buttons cards empty grid showAll opts hash (evs : list Event),
        let st := run (final (new_BrandShowcase buttons cards empty grid showAll opts hash))
                    evs in
        (pendingAnimations st <= 1)%nat
        /\ (isAnimating st = false -> pendingAnimations st = 0%nat)).
Proof.
  split; [ | split ].
  - intros st letter updateHistory Ha En.
    unfold setFilter, filterByLetter. rewrite Ha, En. split; reflexivity.
  - intros st i Ha. unfold handleAlphabetClick. now rewrite Ha.
  - intros. apply AnimationInv_run, AnimationInv_new.
Qed.

Lemma filter_requests_ignored_while_animating_witness :
  let st := step (sample defaultOptions "") (AlphabetClick 1) in
  isAnimating st = true
  /\ enableAnimation (options st) = true
  /\ filterByLetter (Some "Z") true st = Returned st
  /\ handleAlphabetClick 2 st = Returned st.
Proof.
  cbv zeta.
  pose proof filter_requests_ignored_while_animating as (H1 & H2 & _).
  split; [ reflexivity | ]. split; [ reflexivity | ]. split.
  - exact (proj1 (H1 (step (sample defaultOptions "") (AlphabetClick 1)) (Some "Z") true
                    eq_refl eq_refl)).
  - exact (H2 (step (sample defaultOptions "") (AlphabetClick 1)) 2%nat eq_refl).
Defined.

(** *** What the filter leaves of the markup *)

Lemma letters_with_cards (f : Card -> Card) (st : State) :
  (forall c, card_letter (f c) = card_letter c) ->
  letters (with_cards (map f (brandCards st)) st) = letters st.
Proof.
  intros H. unfold letters. cbn. f_equal. rewrite map_map. now apply map_ext.
Qed.

Lemma letters_forEach_at (idx : list nat) (f : Card -> Card) (st : State) :
  (forall c, card_letter (f c) = card_letter c) ->
  letters (with_cards (forEach_at idx f (brandCards st)) st) = letters st.
Proof.
  intros H. unfold letters. cbn. f_equal. unfold forEach_at, mapi.
  apply mapi_from_map. intros i c. destruct (mem i idx); [ apply H | reflexivity ].
Qed.

Lemma letters_updateActiveButton (letter : option string) (st : State) :
  letters (updateActiveButton letter st) = letters st.
Proof. unfold letters. cbn. f_equal. rewrite map_map. now apply map_ext. Qed.

Lemma letters_updateURL (arg : option string) (st : State) :
  letters (updateURL arg st) = letters st.
Proof.
  unfold updateURL.
  repeat match goal with
         | |- context [if ?b then _ else _] => destruct b
         | |- context [match ?x with Some _ => _ | None => _ end] => destruct x
         end; reflexivity.
Qed.

Lemma letters_updateEmptyState (isEmpty : bool) (st : State) :
  letters (final (updateEmptyState isEmpty st)) = letters st.
Proof.
  unfold updateEmptyState. destruct (emptyState st); [ | reflexivity ].
  cbn. destruct (brandGrid st); reflexivity.
Qed.

Lemma letters_animateFilter (letter : option string) (st : State) :
  letters (animateFilter letter st) = letters st.
Proof.
  unfold animateFilter.
  change (letters (with_window ?w ?s)) with (letters s).
  now rewrite letters_forEach_at.
Qed.

Lemma letters_instantFilter (letter : option string) (st : State) :
  letters (final (instantFilter letter st)) = letters st.
Proof.
  unfold instantFilter. rewrite letters_updateEmptyState.
  now apply letters_with_cards.
Qed.

Lemma letters_announceFilterChange (letter : option string) (st : State) :
  letters (final (announceFilterChange letter st)) = letters st.
Proof. destruct letter; reflexivity. Qed.

Lemma letters_filterByLetter (letter : option string) (updateHistory : bool) (st : State) :
  letters (final (filterByLetter letter updateHistory st)) = letters st.
Proof.
  unfold filterByLetter.
  destruct (isAnimating st && enableAnimation (options st)); [ reflexivity | ].
  apply (ends_in_andThen (fun s => letters s = letters st));
    [ apply (ends_in_andThen (fun s => letters s = letters st)) | ].
  - unfold ends_in.
    destruct (enableAnimation _); cbn [final];
      [ rewrite letters_animateFilter | rewrite letters_instantFilter ];
      rewrite letters_updateActiveButton; reflexivity.
  - intros s Hs. unfold ends_in. cbn [final].
    destruct updateHistory; [ now rewrite letters_updateURL | exact Hs ].
  - intros s Hs. unfold ends_in. now rewrite letters_announceFilterChange.
Qed.

Lemma letters_handleAlphabetClick (i : nat) (st : State) :
  letters (final (handleAlphabetClick i st)) = letters st.
Proof.
  unfold handleAlphabetClick.
  destruct (isAnimating st); [ reflexivity | ].
  destruct (nth_error (alphabetButtons st) i) as [b | ]; [ | reflexivity ].
  destruct (button_disabled b || strict_eq (button_letter b) (currentFilter st));
    [ reflexivity | ].
  apply (ends_in_andThen (fun s => letters s = letters st)).
  - apply letters_filterByLetter.
  - intros s Hs. unfold ends_in. cbn [final]. now rewrite letters_updateURL.
Qed.

Lemma letters_fireTimer (k : nat) (st : State) :
  letters (final (fireTimer k st)) = letters st.
Proof.
  unfold fireTimer.
  destruct (nth_error (timers (window st)) k) as [t | ]; [ | reflexivity ].
  set (st1 := with_window _ st).
  change (letters st) with (letters st1). clearbody st1.
  destruct (callback t) as [cardsToShow | | node]; cbn [runCallback].
  - unfold showMatching.
    apply (ends_in_andThen (fun s => letters s = letters st1)).
    + unfold ends_in. rewrite letters_updateEmptyState.
      now apply letters_forEach_at.
    + intros s Hs. exact Hs.
  - cbn [final]. unfold animationComplete, cleanupFilterClasses.
    now rewrite letters_with_cards.
  - reflexivity.
Qed.

Lemma letters_step (st : State) (ev : Event) : letters (step st ev) = letters st.
Proof.
  unfold step. destruct ev as [i | i key | | hash | letter | k].
  - apply letters_handleAlphabetClick.
  - unfold handleAlphabetKeydown.
    destruct (String.eqb key "Enter" || String.eqb key " ");
      [ apply letters_handleAlphabetClick | reflexivity ].
  - destruct (showAllButton st); [ | reflexivity ].
    unfold handleShowAllClick.
    apply (ends_in_andThen (fun s => letters s = letters st)).
    + apply letters_filterByLetter.
    + intros s Hs. unfold ends_in. cbn [final]. now rewrite letters_updateURL.
  - unfold handlePopState. now rewrite letters_filterByLetter.
  - apply letters_filterByLetter.
  - apply letters_fireTimer.
Qed.

Lemma letters_run (evs : list Event) (st : State) : letters (run st evs) = letters st.
Proof.
  revert st. induction evs as [ | ev evs IH]; intros st; cbn; [ reflexivity | ].
  unfold run in IH. now rewrite IH, letters_step.
Qed.

Lemma existsb_card_letter (p : option string -> bool) (cards : list Card) :
  existsb (fun c => p (card_letter c)) cards = existsb p (map card_letter cards).
Proof. induction cards as [ | c cards IH]; cbn; [ | rewrite IH ]; reflexivity. Qed.

Lemma hasCards_letters (letter : option string) (st st' : State) :
  letters st' = letters st -> hasCards letter st' = hasCards letter st.
Proof.
  unfold letters, hasCards. intros E. injection E as _ Ec.
  rewrite !(existsb_card_letter (fun x => strict_eq x letter)). now rewrite Ec.
Qed.

Lemma CountsUpdated_letters (st st' : State) :
  letters st' = letters st -> CountsUpdated st -> CountsUpdated st'.
Proof.
  intros E H b' Hin Hne Hno.
  rewrite (hasCards_letters _ _ _ E) in Hno.
  unfold letters in E. injection E as Eb _.
  apply (in_map (fun b => (button_letter b, button_disabled b))) in Hin.
  rewrite Eb in Hin. apply in_map_iff in Hin. destruct Hin as (b & Hb & Hin).
  injection Hb as Hl Hd. rewrite <- Hd. apply (H b Hin); now rewrite Hl.
Qed.

Lemma CountsUpdated_updateCounts (st : State) : CountsUpdated (updateCounts st).
Proof.
  intros b' Hin Hne Hno. unfold updateCounts in Hin. cbn in Hin.
  apply in_map_iff in Hin. destruct Hin as (b & Hb & _).
  change (hasCards (button_letter b') (updateCounts st))
    with (hasCards (button_letter b') st) in Hno.
  destruct (strict_eq (button_letter b) all) eqn:E; subst b'.
  - congruence.
  - cbn in *. unfold hasCards in Hno. now rewrite Hno.
Qed.

(** The constructor returns: [init] clears the fragment before it reads
    it, so the initial filter stays 'all'. *)
Lemma new_BrandShowcase_returns (buttons : list Button) (cards : list Card)
    (empty grid : option string) (showAll : bool) (opts : Options) (hash : string) :
  new_BrandShowcase buttons cards empty grid showAll opts hash
  = Returned (updateCounts
      (updateURL None (mkState opts buttons cards empty grid showAll all false
                         (mkWindow hash [] [] [] 0)))).
Proof.
  unfold new_BrandShowcase, init, handleInitialFilter, getLetterFromURL, updateURL.
  cbn [currentFilter truthy strict_eq all String.eqb Ascii.eqb Bool.eqb negb orb
         window location_hash].
  destruct (String.eqb hash "") eqn:E.
  - apply String.eqb_eq in E. subst hash. reflexivity.
  - reflexivity.
Qed.

Lemma CountsUpdated_reachable (buttons : list Button) (cards : list Card)
    (empty grid : option string) (showAll : bool) (opts : Options) (hash : string)
    (evs : list Event) :
  CountsUpdated
    (run (final (new_BrandShowcase buttons cards empty grid showAll opts hash)) evs).
Proof.
  eapply CountsUpdated_letters; [ apply letters_run | ].
  rewrite new_BrandShowcase_returns. apply CountsUpdated_updateCounts.
Qed.

(** *** The current filter after a request *)

(** [updateURL] touches the host only. *)
Lemma updateURL_window (arg : option string) (st : State) :
  exists w, updateURL arg st = with_window w st.
Proof.
  assert (H : st = with_window (window st) st) by (destruct st; reflexivity).
  unfold updateURL.
  destruct (negb _ || strict_eq _ all).
  - destruct (negb _); eauto.
  - destruct (match arg with Some _ => arg | None => currentFilter st end); eauto.
Qed.

Lemma currentFilter_updateURL (arg : option string) (st : State) :
  currentFilter (updateURL arg st) = currentFilter st.
Proof. destruct (updateURL_window arg st) as [w ->]. reflexivity. Qed.

Lemma currentFilter_updateEmptyState (isEmpty : bool) (st : State) :
  currentFilter (final (updateEmptyState isEmpty st)) = currentFilter st.
Proof.
  unfold updateEmptyState. destruct (emptyState st); [ | reflexivity ].
  cbn. destruct (brandGrid st); reflexivity.
Qed.

Lemma currentFilter_filterByLetter (letter : option string) (updateHistory : bool)
    (st : State) :
  currentFilter (final (filterByLetter letter updateHistory st))
  = if isAnimating st && enableAnimation (options st) then currentFilter st else letter.
Proof.
  unfold filterByLetter.
  destruct (isAnimating st && enableAnimation (options st)); [ reflexivity | ].
  apply (ends_in_andThen (fun s => currentFilter s = letter));
    [ apply (ends_in_andThen (fun s => currentFilter s = letter)) | ].
  - unfold ends_in. destruct (enableAnimation _); cbn [final]; [ reflexivity | ].
    unfold instantFilter. now rewrite currentFilter_updateEmptyState.
  - intros s Hs. unfold ends_in. cbn [final].
    destruct updateHistory; [ now rewrite currentFilter_updateURL | exact Hs ].
  - intros s Hs. unfold ends_in. destruct letter; exact Hs.
Qed.

Lemma indices_from_letters (letter : option string) (cs cs' : list Card) (n : nat) :
  map card_letter cs' = map card_letter cs ->
  indices_from n (fun c => cardMatchesFilter c letter) cs'
  = indices_from n (fun c => cardMatchesFilter c letter) cs.
Proof.
  revert cs n. induction cs' as [ | c' cs' IH]; intros [ | c cs] n E; cbn in E;
    try discriminate; [ reflexivity | ].
  injection E as Ec E.
  assert (Hm : cardMatchesFilter c' letter = cardMatchesFilter c letter)
    by (unfold cardMatchesFilter; now rewrite Ec).
  cbn [indices_from]. now rewrite Hm, (IH cs (S n) E).
Qed.

Lemma keeps_announceToScreenReader (message : string) (st : State) :
  keeps st (announceToScreenReader message st).
Proof.
  split; [ | reflexivity ].
  unfold pendingAnimations. cbn. rewrite filter_app_length. cbn. lia.
Qed.

Lemma updateURL_letter (L : string) (st : State) :
  L <> "" -> L <> "all" ->
  updateURL (Some L) st
  = with_window (pushState (Fragment ("#letter-" ++ L)) (window st)) st.
Proof.
  intros Hne Hna. apply String.eqb_neq in Hne, Hna.
  unfold updateURL. cbn [truthy strict_eq all]. now rewrite Hne, Hna.
Qed.

(** A request that is carried out with animation enabled. *)
Lemma filterByLetter_animated (L : string) (updateHistory : bool) (st : State) :
  isAnimating st = false -> enableAnimation (options st) = true ->
  filterByLetter (Some L) updateHistory st
  = Returned
      (announceToScreenReader
         (if String.eqb L "all" then "Showing all brands"
          else "Showing brands starting with " ++ toUpperCase L)
         (let st2 := animateFilter (Some L)
                       (updateActiveButton (Some L) (with_currentFilter (Some L) st)) in
          if updateHistory then updateURL (Some L) st2 else st2)).
Proof.
  intros Ha En. unfold filterByLetter. rewrite Ha, En. cbn [andb].
  set (st1 := updateActiveButton _ _).
  assert (E : enableAnimation (options st1) = true) by exact En.
  rewrite E. reflexivity.
Qed.

(** *** Requests for the letter that is already current *)

(** C5, as amended.  A click on the button of the current letter is a
    no-op.  A request through [setFilter] or [filterByLetter] for the
    current letter is ignored while an animation is in progress (with
    animation enabled); in every case it leaves the current filter and the
    set of matching cards as they were; but with animation enabled and no
    animation in progress it starts an animation again and, for a letter
    other than 'all', pushes a further history entry. *)
Theorem same_letter_request (st : State) (L : string) :
  currentFilter st = Some L ->
  (forall i b, nth_error (alphabetButtons st) i = Some b ->
               button_letter b = Some L ->
               handleAlphabetClick i st = Returned st)
  /\ (isAnimating st = true -> enableAnimation (options st) = true ->
      forall updateHistory, filterByLetter (Some L) updateHistory st = Returned st)
  /\ (forall updateHistory,
        let st' := final (filterByLetter (Some L) updateHistory st) in
        currentFilter st' = Some L
        /\ indices (fun c => cardMatchesFilter c (Some L)) (brandCards st')
           = indices (fun c => cardMatchesFilter c (Some L)) (brandCards st)
        /\ getVisibleCardsCount st' = getVisibleCardsCount st)
  /\ (isAnimating st = false -> enableAnimation (options st) = true ->
      let st' := final (setFilter (Some L) st) in
      isAnimating st' = true
      /\ pendingAnimations st' = S (pendingAnimations st)
      /\ (L <> "" -> L <> "all" ->
          history_pushed (window st')
          = (history_pushed (window st) ++ [Fragment ("#letter-" ++ L)])%list)).
Proof.
  intros Hc. split; [ | split; [ | split ] ].
  - intros i b Hb Hl. unfold handleAlphabetClick.
    destruct (isAnimating st); [ reflexivity | ].
    rewrite Hb, Hl, Hc, strict_eq_refl, orb_true_r. reflexivity.
  - intros Ha En updateHistory. unfold filterByLetter. now rewrite Ha, En.
  - intros updateHistory st'.
    assert (E1 : currentFilter st' = Some L).
    { unfold st'. rewrite currentFilter_filterByLetter.
      destruct (isAnimating st && enableAnimation (options st)); [ exact Hc | reflexivity ]. }
    assert (E2 : indices (fun c => cardMatchesFilter c (Some L)) (brandCards st')
                 = indices (fun c => cardMatchesFilter c (Some L)) (brandCards st)).
    { apply indices_from_letters.
      pose proof (letters_filterByLetter (Some L) updateHistory st) as E.
      unfold letters in E. now injection E. }
    split; [ exact E1 | ]. split; [ exact E2 | ].
    unfold getVisibleCardsCount. now rewrite E1, Hc, E2.
  - intros Ha En st'. unfold st', setFilter.
    rewrite (filterByLetter_animated L true st Ha En). cbn [final].
    set (st2 := animateFilter (Some L) _).
    destruct (keeps_updateURL (Some L) st2) as [K1 K2].
    destruct (keeps_announceToScreenReader
                (if String.eqb L "all" then "Showing all brands"
                 else "Showing brands starting with " ++ toUpperCase L)
                (updateURL (Some L) st2)) as [K3 K4].
    split; [ | split ].
    + rewrite K4, K2. reflexivity.
    + rewrite K3, K1. unfold st2, pendingAnimations. cbn.
      rewrite filter_app_length. cbn. lia.
    + intros Hne Hna.
      rewrite (updateURL_letter L st2 Hne Hna). reflexivity.
Qed.

Lemma same_letter_request_witness :
  let st := run (sample defaultOptions "") [SetFilter (Some "A"); TimerFires 0; TimerFires 1] in
  currentFilter st = Some "A"
  /\ isAnimating st = false
  /\ enableAnimation (options st) = true
  /\ isAnimating (final (setFilter (Some "A") st)) = true.
Proof.
  cbv zeta. split; [ reflexivity | ]. split; [ reflexivity | ]. split; [ reflexivity | ].
  exact (proj1 (proj2 (proj2 (proj2
           (same_letter_request
              (run (sample defaultOptions "")
                 [SetFilter (Some "A"); TimerFires 0; TimerFires 1])
              "A" eq_refl))) eq_refl eq_refl)).
Defined.

(** C5 fails as stated on [setFilter]: requested again once the first
    animation is over, the letter A starts a second animation and pushes a
    second, identical history entry; with animation disabled the second
    request, made at once, pushes the duplicate entry too. *)
Lemma same_letter_request_repeats :
  let st1 := run (sample defaultOptions "")
               [SetFilter (Some "A"); TimerFires 0; TimerFires 1] in
  let st2 := step st1 (SetFilter (Some "A")) in
  let plain := step (sample (mkOptions false (of_Z 300)) "") (SetFilter (Some "A")) in
  (currentFilter st1 = Some "A"
   /\ isAnimating st1 = false
   /\ pendingAnimations st1 = 0%nat
   /\ history_pushed (window st1) = [Fragment "#letter-A"])
  /\ (isAnimating st2 = true
      /\ pendingAnimations st2 = 1%nat
      /\ history_pushed (window st2) = [Fragment "#letter-A"; Fragment "#letter-A"])
  /\ (currentFilter plain = Some "A"
      /\ history_pushed (window plain) = [Fragment "#letter-A"]
      /\ history_pushed (window (step plain (SetFilter (Some "A"))))
         = [Fragment "#letter-A"; Fragment "#letter-A"]).
Proof. vm_compute. repeat split. Qed.

(** *** Letters without cards *)

(** C6, as amended.  In every state the widget reaches, the button of a
    letter other than 'all' that no card carries is disabled, and a click
    on it changes nothing: the letter does not become the current filter
    through its button.  [setFilter] does not look at the cards: unless an
    animation is in progress with animation enabled, the requested letter
    becomes the current filter. *)
Theorem letters_without_cards :
  (forall buttons cards empty grid showAll opts hash (evs : list Event) i b,
      let st := run (final (new_BrandShowcase buttons cards empty grid showAll opts hash))
                  evs in
      nth_error (alphabetButtons st) i = Some b ->
      strict_eq (button_letter b) all = false ->
      hasCards (button_letter b) st = false ->
      button_disabled b = true
      /\ handleAlphabetClick i st = Returned st
      /\ step st (AlphabetClick i) = st)
  /\ (forall (st : State) (L : option string),
        isAnimating st && enableAnimation (options st) = false ->
        getCurrentFilter (final (setFilter L st)) = L).
Proof.
  split.
  - intros buttons cards empty grid showAll opts hash evs i b st Hb Hne Hno.
    assert (Hd : button_disabled b = true).
    { apply (CountsUpdated_reachable buttons cards empty grid showAll opts hash evs);
        [ eapply nth_error_In; exact Hb | exact Hne | exact Hno ]. }
    assert (Hc : handleAlphabetClick i st = Returned st).
    { unfold handleAlphabetClick. destruct (isAnimating st); [ reflexivity | ].
      now rewrite Hb, Hd. }
    split; [ exact Hd | ]. split; [ exact Hc | ].
    unfold step. now rewrite Hc.
  - intros st L G. unfold getCurrentFilter, setFilter.
    now rewrite currentFilter_filterByLetter, G.
Qed.

Lemma letters_without_cards_witness :
  let st := sample defaultOptions "" in
  hasCards (Some "Z") st = false
  /\ step st (AlphabetClick 2) = st
  /\ getCurrentFilter (final (setFilter (Some "Z") st)) = Some "Z".
Proof.
  cbv zeta. split; [ reflexivity | ]. split.
  - exact (proj2 (proj2
             (proj1 letters_without_cards sampleButtons sampleCards (Some "none")
                (Some "grid") true defaultOptions "" [] 2%nat
                (mkButton (Some "Z") true
                   ["brand-showcase__alphabet-btn";
                    "brand-showcase__alphabet-btn--disabled"] (Some "false"))
                eq_refl eq_refl eq_refl))).
  - exact (proj2 letters_without_cards (sample defaultOptions "") (Some "Z") eq_refl).
Defined.

(** C6 fails as stated on [setFilter]: no card carries Z, its button is
    disabled, and a direct call still makes Z the current filter. *)
Lemma setFilter_selects_disabled_letter :
  let st := sample defaultOptions "" in
  hasCards (Some "Z") st = false
  /\ option_map button_disabled (nth_error (alphabetButtons st) 2) = Some true
  /\ getCurrentFilter st = Some "all"
  /\ getCurrentFilter (final (setFilter (Some "Z") st)) = Some "Z"
  /\ getVisibleCardsCount (final (setFilter (Some "Z") st)) = 0%nat.
Proof. vm_compute. repeat split. Qed.

(** *** The phases of the animated transition *)

(** C9, as amended.  [animateFilter] raises the flag, applies the hide
    class to the cards that do not match and sets a timer of half the
    configured duration; when it fires, the show class is applied to the
    matching cards, the empty-state panel is shown or hidden according to
    whether no card matches, and a timer of the full configured duration
    is set; when that one fires, the flag is cleared and both transient
    classes are off every card.  (The grid is assumed present when the
    panel is, as [updateEmptyState] needs it.) *)
Theorem animateFilter_phases (letter : option string) (st : State) :
  emptyState st = None \/ brandGrid st <> None ->
  let d := animationDuration (options st) in
  let matching := fun c => cardMatchesFilter c letter in
  let isEmpty := Nat.eqb (List.length (indices matching (brandCards st))) 0 in
  let k := List.length (timers (window st)) in
  let st1 := animateFilter letter st in
  let st2 := final (fireTimer k st1) in
  let st3 := final (fireTimer k st2) in
  (isAnimating st1 = true
   /\ brandCards st1 = map (fun c => if matching c then c else hideCard c) (brandCards st)
   /\ timers (window st1)
      = (timers (window st)
         ++ [mkTimer (div d (of_Z 2)) (ShowMatching (indices matching (brandCards st)))])%list)
  /\ (isAnimating st2 = true
      /\ brandCards st2
         = map (fun c => if matching c then showCard c else hideCard c) (brandCards st)
      /\ emptyState st2
         = option_map (fun _ => if isEmpty then "block" else "none") (emptyState st)
      /\ brandGrid st2
         = match emptyState st with
           | Some _ => option_map (fun _ => if isEmpty then "none" else "grid") (brandGrid st)
           | None => brandGrid st
           end
      /\ timers (window st2) = (timers (window st) ++ [mkTimer d AnimationComplete])%list)
  /\ (isAnimating st3 = false
      /\ brandCards st3 = map cleanCard (brandCards st2)
      /\ (forall c, In c (brandCards st3) ->
                    contains "filtering-hide" (card_classList c) = false
                    /\ contains "filtering-show" (card_classList c) = false)
      /\ timers (window st3) = timers (window st)).
Proof.
  intros Hgrid d matching isEmpty k st1 st2 st3.
  (* the first phase *)
  assert (C1 : brandCards st1
               = map (fun c => if matching c then c else hideCard c) (brandCards st)).
  { unfold st1, animateFilter. cbn [brandCards with_window with_cards with_isAnimating].
    rewrite forEach_at_indices. apply map_ext. intros c.
    fold (matching c). now destruct (matching c). }
  assert (T1 : timers (window st1)
               = (timers (window st)
                  ++ [mkTimer (div d (of_Z 2))
                        (ShowMatching (indices matching (brandCards st)))])%list)
    by reflexivity.
  (* the second phase *)
  assert (E2 : fireTimer k st1
               = showMatching (indices matching (brandCards st))
                   (with_window
                      (mkWindow (location_hash (window st)) (history_pushed (window st))
                         (timers (window st)) (announcements (window st))
                         (next_node (window st)))
                      st1)).
  { unfold fireTimer. rewrite T1. unfold k.
    rewrite nth_error_last, remove_nth_last. reflexivity. }
  set (cards2 := map (fun c => if matching c then showCard c else hideCard c) (brandCards st)).
  assert (S2 : st2
               = mkState (options st) (alphabetButtons st) cards2
                   (option_map (fun _ => if isEmpty then "block" else "none") (emptyState st))
                   (match emptyState st with
                    | Some _ =>
                        option_map (fun _ => if isEmpty then "none" else "grid") (brandGrid st)
                    | None => brandGrid st
                    end)
                   (showAllButton st) (currentFilter st) true
                   (mkWindow (location_hash (window st)) (history_pushed (window st))
                      (timers (window st) ++ [mkTimer d AnimationComplete])
                      (announcements (window st)) (next_node (window st)))).
  { unfold st2. rewrite E2. unfold showMatching.
    cbn [brandCards with_window with_cards]. rewrite C1.
    rewrite forEach_at_indices_map.
    replace (map (fun c => if matching c
                           then showCard (if matching c then c else hideCard c)
                           else if matching c then c else hideCard c) (brandCards st))
      with cards2
      by (apply map_ext; intros c; now destruct (matching c)).
    fold isEmpty. unfold updateEmptyState.
    cbn [emptyState brandGrid with_cards with_window with_emptyState st1 animateFilter
           with_isAnimating].
    destruct (emptyState st) as [e | ] eqn:Ee; cbn [option_map].
    - destruct (brandGrid st) as [g | ] eqn:Eg; [ | destruct Hgrid as [H | H]; congruence ].
      unfold st1, animateFilter.
      cbn [andThen final options alphabetButtons brandCards emptyState brandGrid
             showAllButton currentFilter isAnimating window with_window with_cards
             with_isAnimating with_brandGrid with_emptyState setTimeout timers
             location_hash history_pushed announcements next_node].
      reflexivity.
    - unfold st1, animateFilter.
      cbn [andThen final options alphabetButtons brandCards emptyState brandGrid
             showAllButton currentFilter isAnimating window with_window with_cards
             with_isAnimating with_brandGrid with_emptyState setTimeout timers
             location_hash history_pushed announcements next_node].
      rewrite <- Ee. reflexivity. }
  (* the third phase *)
  assert (E3 : st3
               = animationComplete
                   (with_window
                      (mkWindow (location_hash (window st)) (history_pushed (window st))
                         (timers (window st)) (announcements (window st))
                         (next_node (window st)))
                      st2)).
  { unfold st3, fireTimer. rewrite S2.
    cbn [window timers location_hash history_pushed announcements next_node].
    unfold k. rewrite nth_error_last, remove_nth_last. reflexivity. }
  split; [ split; [ reflexivity | split; [ exact C1 | exact T1 ] ] | ].
  split; [ rewrite S2; repeat split | ].
  rewrite E3. split; [ reflexivity | ]. split; [ reflexivity | ].
  split; [ | reflexivity ].
  intros c Hin. cbn in Hin. apply in_map_iff in Hin. destruct Hin as (c0 & <- & _).
  cbn [cleanCard with_card_classList card_classList]. split.
  - apply contains_classList_remove_other, contains_classList_remove.
  - apply contains_classList_remove.
Qed.

Lemma animateFilter_phases_witness :
  let st := sample defaultOptions "" in
  (emptyState st = None \/ brandGrid st <> None)
  /\ isAnimating (animateFilter (Some "Z") st) = true
  /\ emptyState (final (fireTimer 0 (animateFilter (Some "Z") st))) = Some "block".
Proof.
  cbv zeta.
  assert (H : emptyState (sample defaultOptions "") = None
              \/ brandGrid (sample defaultOptions "") <> None)
    by (right; discriminate).
  pose proof (animateFilter_phases (Some "Z") (sample defaultOptions "") H) as P.
  cbv zeta in P. destruct P as ((P1 & _) & (_ & _ & P2 & _) & _).
  split; [ exact H | ]. split; [ exact P1 | exact P2 ].
Defined.

(** C9 fails as stated: with the default duration of 300 ms the first
    timer is set to 150 ms and the second to 300 ms. *)
Lemma animateFilter_delays_differ :
  let st := sample defaultOptions "" in
  let st1 := animateFilter (Some "A") st in
  let st2 := final (fireTimer 0 st1) in
  animationDuration (options st) = of_Z 300
  /\ map delay (timers (window st1)) = [of_Z 150]
  /\ map callback (timers (window st2)) = [AnimationComplete]
  /\ map delay (timers (window st2)) = [of_Z 300]
  /\ of_Z 150 <> of_Z 300.
Proof. vm_compute. repeat split. discriminate. Qed.

(** *** The address bar and the history *)

(** X1.  The constructor always returns, with the filter 'all', no
    animation, and an address bar without fragment: [init] calls
    [updateURL] before [handleInitialFilter], which removes the fragment
    (pushing the bare path and query) before it could be read. *)
Theorem constructor_clears_fragment (buttons : list Button) (cards : list Card)
    (empty grid : option string) (showAll : bool) (opts : Options) (hash : string) :
  let o := new_BrandShowcase buttons cards empty grid showAll opts hash in
  returns o = true
  /\ getCurrentFilter (final o) = Some "all"
  /\ isAnimating (final o) = false
  /\ location_hash (window (final o)) = ""
  /\ history_pushed (window (final o))
     = (if String.eqb hash "" then [] else [PathAndSearch]).
Proof.
  cbv zeta. rewrite new_BrandShowcase_returns. unfold updateURL.
  cbn [currentFilter truthy strict_eq all String.eqb Ascii.eqb Bool.eqb negb orb
         window location_hash].
  destruct (String.eqb hash "") eqn:E.
  - apply String.eqb_eq in E. subst hash. repeat split.
  - repeat split.
Qed.

(** X2.  One click on the button of another letter pushes the history
    entry of that letter twice: once in [filterByLetter], once more in the
    handler. *)
Theorem alphabet_click_pushes_twice (st : State) (i : nat) (b : Button) (L : string) :
  isAnimating st = false ->
  enableAnimation (options st) = true ->
  nth_error (alphabetButtons st) i = Some b ->
  button_disabled b = false ->
  button_letter b = Some L ->
  currentFilter st <> Some L ->
  L <> "" -> L <> "all" ->
  history_pushed (window (final (handleAlphabetClick i st)))
  = (history_pushed (window st)
     ++ [Fragment ("#letter-" ++ L); Fragment ("#letter-" ++ L)])%list.
Proof.
  intros Ha En Hb Hd Hl Hc Hne Hna. unfold handleAlphabetClick.
  rewrite Ha, Hb, Hd, Hl.
  assert (E : strict_eq (Some L) (currentFilter st) = false).
  { destruct (strict_eq (Some L) (currentFilter st)) eqn:E; [ | reflexivity ].
    apply strict_eq_true in E. congruence. }
  rewrite E. cbn [orb].
  rewrite (filterByLetter_animated L true st Ha En). cbn [andThen final].
  rewrite !(updateURL_letter L) by assumption.
  cbn. now rewrite <- app_assoc.
Qed.

Lemma alphabet_click_pushes_twice_witness :
  history_pushed (window (step (sample defaultOptions "") (AlphabetClick 1)))
  = [Fragment "#letter-A"; Fragment "#letter-A"].
Proof.
  exact (alphabet_click_pushes_twice (sample defaultOptions "") 1
           (mkButton (Some "A") false ["brand-showcase__alphabet-btn"] (Some "false"))
           "A" eq_refl eq_refl eq_refl eq_refl eq_refl
           ltac:(discriminate) ltac:(discriminate) ltac:(discriminate)).
Defined.

(** The URL parser leaves a plain string as it is. *)
Lemma plain_char (c : ascii) :
  inFragmentPercentEncodeSet c = false ->
  isTabOrNewline c = false /\ isC0ControlOrSpace c = false.
Proof.
  unfold inFragmentPercentEncodeSet, isTabOrNewline, isC0ControlOrSpace.
  set (n := nat_of_ascii c). intros H.
  repeat (apply orb_false_elim in H; destruct H as [H ?]).
  apply Nat.leb_gt in H. split; [ | now apply Nat.leb_gt ].
  repeat (apply orb_false_intro); apply Nat.eqb_neq; lia.
Qed.

Lemma encodeFragment_plain (s : string) : fragmentPlain s = true -> encodeFragment s = s.
Proof.
  induction s as [ | c s IH]; cbn [fragmentPlain encodeFragment]; [ reflexivity | ].
  intros H. apply andb_prop in H. destruct H as [Hc Hs]. apply negb_true_iff in Hc.
  destruct (plain_char c Hc) as [-> _]. now rewrite Hc, IH.
Qed.

Lemma stripTrailing_plain (s : string) : fragmentPlain s = true -> stripTrailing s = s.
Proof.
  induction s as [ | c s IH]; cbn [fragmentPlain stripTrailing]; [ reflexivity | ].
  intros H. apply andb_prop in H. destruct H as [Hc Hs]. apply negb_true_iff in Hc.
  destruct (plain_char c Hc) as [_ Hn]. rewrite (IH Hs), Hn. now destruct s.
Qed.

Lemma hashOfUrl_plain (L : string) :
  fragmentPlain L = true -> hashOfUrl ("#letter-" ++ L) = "#letter-" ++ L.
Proof.
  intros H. unfold hashOfUrl.
  assert (P : fragmentPlain ("#letter-" ++ L) = true) by exact H.
  rewrite (stripTrailing_plain _ P).
  change ("#letter-" ++ L) with (String "#"%char ("letter-" ++ L)).
  cbv beta iota. change (Ascii.eqb "#"%char "#"%char) with true. cbv iota.
  assert (Q : fragmentPlain ("letter-" ++ L) = true) by exact H.
  rewrite (encodeFragment_plain _ Q). reflexivity.
Qed.

(** X3.  The fragment round trip: with animation enabled and no animation
    in progress, after [setFilter] for a letter other than 'all' that the
    URL parser leaves as it is (no control character, space, double quote,
    [<], [>], backtick, nor anything above [~]), the address bar reads
    [#letter-] followed by the letter and decodes to the letter; after
    [setFilter] for 'all' it has no fragment and decodes to 'all'.  A
    letter the parser encodes does not come back: 'a b' decodes to
    'a%20b'. *)
Theorem fragment_round_trip (st : State) :
  isAnimating st = false ->
  enableAnimation (options st) = true ->
  (forall L, L <> "" -> L <> "all" -> fragmentPlain L = true ->
             let st' := final (setFilter (Some L) st) in
             location_hash (window st') = "#letter-" ++ L
             /\ getLetterFromURL st' = L)
  /\ (let st' := final (setFilter all st) in
      location_hash (window st') = "" /\ getLetterFromURL st' = "all")
  /\ (let st' := final (setFilter (Some "a b") st) in
      location_hash (window st') = "#letter-a%20b" /\ getLetterFromURL st' = "a%20b").
Proof.
  intros Ha En. split; [ | split ].
  - intros L Hne Hna Hp st'. unfold st', setFilter.
    rewrite (filterByLetter_animated L true st Ha En). cbn [final].
    rewrite (updateURL_letter L) by assumption.
    unfold getLetterFromURL.
    cbn [announceToScreenReader window with_window setTimeout location_hash pushState].
    rewrite (hashOfUrl_plain L Hp).
    split; [ reflexivity | ].
    cbn. rewrite Nat.sub_0_r.
    replace (String.prefix "" L) with true by (now destruct L).
    apply substring_all.
  - unfold setFilter, all.
    rewrite (filterByLetter_animated "all" true st Ha En). cbn [final].
    unfold getLetterFromURL, updateURL.
    cbn [truthy strict_eq all String.eqb Ascii.eqb Bool.eqb negb orb].
    destruct (String.eqb (location_hash (window _)) "") eqn:E.
    + apply String.eqb_eq in E. cbn [negb]. cbn in E |- *. rewrite E. now split.
    + cbn. now split.
  - unfold setFilter.
    rewrite (filterByLetter_animated "a b" true st Ha En). cbn [final].
    rewrite (updateURL_letter "a b") by discriminate.
    unfold getLetterFromURL.
    cbn [announceToScreenReader window with_window setTimeout location_hash pushState].
    split; reflexivity.
Qed.

Lemma fragment_round_trip_witness :
  getLetterFromURL (final (setFilter (Some "A") (sample defaultOptions ""))) = "A".
Proof.
  exact (proj2 (proj1 (fragment_round_trip (sample defaultOptions "") eq_refl eq_refl)
                  "A" ltac:(discriminate) ltac:(discriminate) eq_refl)).
Defined.

(** *** The active button *)

Lemma contains_classList_add (c : string) (l : list string) :
  contains c (classList_add c l) = true.
Proof.
  unfold classList_add. destruct (contains c l) eqn:E; [ exact E | ].
  unfold contains. rewrite existsb_app. cbn. now rewrite String.eqb_refl, orb_true_r.
Qed.

Lemma contains_classList_toggle (c : string) (force : bool) (l : list string) :
  contains c (classList_toggle c force l) = force.
Proof.
  destruct force; [ apply contains_classList_add | apply contains_classList_remove ].
Qed.

Lemma ActiveSync_frame (st st' : State) :
  alphabetButtons st' = alphabetButtons st ->
  currentFilter st' = currentFilter st ->
  ActiveSync st -> ActiveSync st'.
Proof. unfold ActiveSync. intros -> ->. trivial. Qed.

Lemma ActiveSync_updateActiveButton (letter : option string) (st : State) :
  ActiveSync (updateActiveButton letter (with_currentFilter letter st)).
Proof.
  intros b' Hin. cbn in Hin. apply in_map_iff in Hin. destruct Hin as (b & <- & _).
  unfold isActive.
  cbn [button_classList button_letter button_aria_pressed currentFilter
         updateActiveButton with_buttons with_currentFilter].
  rewrite contains_classList_toggle. split; reflexivity.
Qed.

Lemma buttons_updateURL (arg : option string) (st : State) :
  alphabetButtons (updateURL arg st) = alphabetButtons st.
Proof. destruct (updateURL_window arg st) as [w ->]. reflexivity. Qed.

Lemma buttons_updateEmptyState (isEmpty : bool) (st : State) :
  alphabetButtons (final (updateEmptyState isEmpty st)) = alphabetButtons st.
Proof.
  unfold updateEmptyState. destruct (emptyState st); [ | reflexivity ].
  cbn. destruct (brandGrid st); reflexivity.
Qed.

Lemma ActiveSync_updateURL (arg : option string) (st : State) :
  ActiveSync st -> ActiveSync (updateURL arg st).
Proof.
  apply ActiveSync_frame; [ apply buttons_updateURL | apply currentFilter_updateURL ].
Qed.

Lemma ActiveSync_filterByLetter (letter : option string) (updateHistory : bool) (st : State) :
  (isAnimating st && enableAnimation (options st) = false \/ ActiveSync st) ->
  ends_in ActiveSync (filterByLetter letter updateHistory st).
Proof.
  intros H. unfold filterByLetter.
  destruct (isAnimating st && enableAnimation (options st)).
  - destruct H as [H | H]; [ discriminate | exact H ].
  - clear H. pose proof (ActiveSync_updateActiveButton letter st) as A.
    set (st1 := updateActiveButton letter (with_currentFilter letter st)) in *.
    clearbody st1.
    apply ends_in_andThen; [ apply ends_in_andThen | ].
    + unfold ends_in. destruct (enableAnimation (options st1)); cbn [final].
      * revert A. now apply ActiveSync_frame.
      * revert A. apply ActiveSync_frame.
        -- unfold instantFilter. now rewrite buttons_updateEmptyState.
        -- unfold instantFilter. now rewrite currentFilter_updateEmptyState.
    + intros s Hs. unfold ends_in. cbn [final].
      destruct updateHistory; [ now apply ActiveSync_updateURL | exact Hs ].
    + intros s Hs. unfold ends_in. destruct letter; exact Hs.
Qed.

Lemma ActiveSync_fireTimer (k : nat) (st : State) :
  ActiveSync st -> ends_in ActiveSync (fireTimer k st).
Proof.
  intros A. unfold fireTimer.
  destruct (nth_error (timers (window st)) k) as [t | ]; [ | exact A ].
  destruct (callback t) as [cardsToShow | | node]; cbn [runCallback].
  - unfold showMatching. apply ends_in_andThen.
    + unfold ends_in. revert A. apply ActiveSync_frame.
      * now rewrite buttons_updateEmptyState.
      * now rewrite currentFilter_updateEmptyState.
    + intros s Hs. exact Hs.
  - exact A.
  - exact A.
Qed.

(** X8.  A filter request that is carried out leaves the buttons in step
    with the filter: a button has the class 'active' and [aria-pressed]
    "true" exactly when its letter is the current filter; and every later
    event (click, key, show-all, popstate, [setFilter], timer) keeps them
    in step. *)
Theorem active_button_follows_filter :
  (forall (st : State) (letter : option string) (updateHistory : bool),
      isAnimating st && enableAnimation (options st) = false ->
      let st' := final (filterByLetter letter updateHistory st) in
      currentFilter st' = letter
      /\ forall b, In b (alphabetButtons st') ->
                   isActive b = strict_eq (button_letter b) letter
                   /\ button_aria_pressed b
                      = Some (if strict_eq (button_letter b) letter then "true" else "false"))
  /\ (forall (st : State) (ev : Event), ActiveSync st -> ActiveSync (step st ev)).
Proof.
  split.
  - intros st letter updateHistory G st'.
    assert (E : currentFilter st' = letter).
    { unfold st'. now rewrite currentFilter_filterByLetter, G. }
    split; [ exact E | ].
    pose proof (ActiveSync_filterByLetter letter updateHistory st (or_introl G)) as A.
    unfold ends_in in A. fold st' in A. intros b Hb.
    specialize (A b Hb). now rewrite E in A.
  - intros st ev A. unfold step.
    destruct ev as [i | i key | | hash | letter | k].
    + unfold handleAlphabetClick.
      destruct (isAnimating st); [ exact A | ].
      destruct (nth_error (alphabetButtons st) i) as [b | ]; [ | exact A ].
      destruct (button_disabled b || strict_eq (button_letter b) (currentFilter st));
        [ exact A | ].
      apply ends_in_andThen; [ apply ActiveSync_filterByLetter; now right | ].
      intros s Hs. now apply ActiveSync_updateURL.
    + unfold handleAlphabetKeydown.
      destruct (String.eqb key "Enter" || String.eqb key " "); [ | exact A ].
      unfold handleAlphabetClick.
      destruct (isAnimating st); [ exact A | ].
      destruct (nth_error (alphabetButtons st) i) as [b | ]; [ | exact A ].
      destruct (button_disabled b || strict_eq (button_letter b) (currentFilter st));
        [ exact A | ].
      apply ends_in_andThen; [ apply ActiveSync_filterByLetter; now right | ].
      intros s Hs. now apply ActiveSync_updateURL.
    + destruct (showAllButton st); [ | exact A ].
      unfold handleShowAllClick.
      apply ends_in_andThen; [ apply ActiveSync_filterByLetter; now right | ].
      intros s Hs. now apply ActiveSync_updateURL.
    + apply ActiveSync_filterByLetter. right. exact A.
    + apply ActiveSync_filterByLetter. now right.
    + now apply ActiveSync_fireTimer.
Qed.

Lemma active_button_follows_filter_witness :
  let st := final (setFilter (Some "A") (sample defaultOptions "")) in
  map isActive (alphabetButtons st) = [false; true; false]
  /\ ActiveSync st
  /\ ActiveSync (step st (TimerFires 0)).
Proof.
  cbv zeta.
  pose proof active_button_follows_filter as [H1 H2].
  specialize (H1 (sample defaultOptions "") (Some "A") true eq_refl).
  cbv zeta in H1. destruct H1 as [E H1].
  assert (A : ActiveSync (final (setFilter (Some "A") (sample defaultOptions "")))).
  { intros b Hb. unfold setFilter. rewrite E. now apply H1. }
  split; [ reflexivity | ]. split; [ exact A | ]. apply H2, A.
Defined.

(** *** The address bar and the history, continued *)

Lemma bar_updateEmptyState (isEmpty : bool) (st : State) :
  window (final (updateEmptyState isEmpty st)) = window st.
Proof.
  unfold updateEmptyState. destruct (emptyState st); [ | reflexivity ].
  cbn. destruct (brandGrid st); reflexivity.
Qed.

Lemma bar_filterByLetter (letter : option string) (st : State) :
  let st' := final (filterByLetter letter false st) in
  location_hash (window st') = location_hash (window st)
  /\ history_pushed (window st') = history_pushed (window st).
Proof.
  cbv zeta. unfold filterByLetter.
  destruct (isAnimating st && enableAnimation (options st)); [ now split | ].
  set (P := fun s : State =>
              location_hash (window s) = location_hash (window st)
              /\ history_pushed (window s) = history_pushed (window st)).
  change (ends_in P
            ((if enableAnimation
                   (options (updateActiveButton letter (with_currentFilter letter st)))
              then Returned (animateFilter letter
                               (updateActiveButton letter (with_currentFilter letter st)))
              else instantFilter letter
                     (updateActiveButton letter (with_currentFilter letter st)));;
             (fun st2 => Returned st2);;
             announceFilterChange letter)%outcome).
  apply ends_in_andThen; [ apply ends_in_andThen | ].
  - unfold ends_in, P. destruct (enableAnimation _); cbn [final].
    + now split.
    + unfold instantFilter. rewrite bar_updateEmptyState. now split.
  - intros s Hs. exact Hs.
  - intros s Hs. unfold ends_in. destruct letter; exact Hs.
Qed.

(** X10.  Going back or forward never pushes a history entry: after
    [popstate] the address bar still shows the fragment the browser
    navigated to, and the history the widget has pushed is unchanged. *)
Theorem popstate_pushes_nothing (st : State) (hash : string) :
  let st' := step st (PopState hash) in
  location_hash (window st') = hash
  /\ history_pushed (window st') = history_pushed (window st).
Proof.
  cbv zeta. unfold step, handlePopState.
  destruct (bar_filterByLetter (Some (getLetterFromURL (navigate hash st)))
              (navigate hash st)) as [H1 H2].
  split; [ exact H1 | exact H2 ].
Qed.

(** X11.  A click on the show-all button while an animation is in progress
    (with animation enabled) leaves the filter, the buttons and the cards
    as they are, and still removes the fragment from the address bar,
    pushing the bare path when there was one. *)
Theorem show_all_while_animating (st : State) :
  showAllButton st = true ->
  isAnimating st = true ->
  enableAnimation (options st) = true ->
  let st' := step st ShowAllClick in
  currentFilter st' = currentFilter st
  /\ alphabetButtons st' = alphabetButtons st
  /\ brandCards st' = brandCards st
  /\ isAnimating st' = true
  /\ location_hash (window st') = ""
  /\ history_pushed (window st')
     = (history_pushed (window st)
        ++ (if String.eqb (location_hash (window st)) "" then [] else [PathAndSearch]))%list.
Proof.
  intros Hs Ha En. cbv zeta. unfold step, handleShowAllClick, filterByLetter.
  rewrite Hs, Ha, En. cbn [andb andThen final]. unfold updateURL.
  cbn [truthy strict_eq all String.eqb Ascii.eqb Bool.eqb negb orb].
  destruct (String.eqb (location_hash (window st)) "") eqn:E; cbn [negb].
  - apply String.eqb_eq in E. rewrite app_nil_r. repeat split; assumption.
  - repeat split; assumption.
Qed.

Lemma show_all_while_animating_witness :
  let st := step (sample defaultOptions "") (SetFilter (Some "A")) in
  location_hash (window st) = "#letter-A"
  /\ currentFilter (step st ShowAllClick) = Some "A"
  /\ location_hash (window (step st ShowAllClick)) = "".
Proof.
  cbv zeta.
  pose proof (show_all_while_animating
                (step (sample defaultOptions "") (SetFilter (Some "A")))
                eq_refl eq_refl eq_refl) as H.
  cbv zeta in H. destruct H as (H1 & _ & _ & _ & H5 & _).
  split; [ reflexivity | ]. split; [ rewrite H1; reflexivity | exact H5 ].
Defined.

(** *** The instant filter *)

Lemma indices_from_length (p : Card -> bool) (cards : list Card) (n : nat) :
  List.length (indices_from n p cards) = List.length (filter p cards).
Proof.
  revert n. induction cards as [ | c cards IH]; intros n; cbn; [ reflexivity | ].
  destruct (p c); cbn; now rewrite IH.
Qed.

Lemma displayed_filter (letter : option string) (cards : list Card) :
  filter (fun c => String.eqb (card_display c) "block")
    (map (fun c => with_card_display (if cardMatchesFilter c letter then "block" else "none") c)
       cards)
  = map (fun c => with_card_display "block" c)
      (filter (fun c => cardMatchesFilter c letter) cards).
Proof.
  induction cards as [ | c cards IH]; cbn; [ reflexivity | ].
  destruct (cardMatchesFilter c letter); cbn; now rewrite IH.
Qed.

Lemma matching_filter (letter : option string) (cards : list Card) :
  filter (fun c => cardMatchesFilter c letter)
    (map (fun c => with_card_display (if cardMatchesFilter c letter then "block" else "none") c)
       cards)
  = map (fun c => with_card_display "block" c)
      (filter (fun c => cardMatchesFilter c letter) cards).
Proof.
  induction cards as [ | c cards IH]; cbn; [ reflexivity | ].
  change (cardMatchesFilter (with_card_display ?d c) letter) with (cardMatchesFilter c letter).
  destruct (cardMatchesFilter c letter); cbn; now rewrite IH.
Qed.

Lemma timers_updateURL (arg : option string) (st : State) :
  timers (window (updateURL arg st)) = timers (window st)
  /\ announcements (window (updateURL arg st)) = announcements (window st)
  /\ next_node (window (updateURL arg st)) = next_node (window st).
Proof.
  unfold updateURL.
  repeat match goal with
         | |- context [if ?b then _ else _] => destruct b
         | |- context [match ?x with Some _ => _ | None => _ end] => destruct x
         end; repeat split.
Qed.

(** What [updateURL] and the announcement leave alone. *)
Lemma tail_of_filterByLetter (letter : option string) (updateHistory : bool) (s : State) :
  let s' := final ((Returned (if updateHistory then updateURL letter s else s))
                   ;; announceFilterChange letter)%outcome in
  brandCards s' = brandCards s
  /\ emptyState s' = emptyState s
  /\ brandGrid s' = brandGrid s
  /\ isAnimating s' = isAnimating s
  /\ currentFilter s' = currentFilter s
  /\ pendingAnimations s' = pendingAnimations s.
Proof.
  cbv zeta. cbn [andThen].
  set (s1 := if updateHistory then updateURL letter s else s).
  assert (H1 : brandCards s1 = brandCards s /\ emptyState s1 = emptyState s
               /\ brandGrid s1 = brandGrid s /\ isAnimating s1 = isAnimating s
               /\ currentFilter s1 = currentFilter s
               /\ pendingAnimations s1 = pendingAnimations s).
  { unfold s1. destruct updateHistory; [ | repeat split ].
    pose proof (keeps_updateURL letter s) as [K1 K2].
    destruct (updateURL_window letter s) as [w Hw]. rewrite Hw in *.
    repeat split; assumption. }
  clearbody s1. destruct H1 as (A & B & C & D & E & F).
  pose proof (keeps_announceFilterChange letter s1) as [K1 K2].
  destruct letter as [l | ]; cbn [announceFilterChange final] in *;
    repeat split; try assumption; congruence.
Qed.

(** X9.  With animation disabled (and the grid in place when the panel is)
    a filter request shows exactly the matching cards at once: every card's
    [display] is 'block' when it matches and 'none' otherwise, the number
    of displayed cards is what [getVisibleCardsCount] returns, the
    empty-state panel is shown and the grid hidden exactly when that number
    is zero, and no animation is started. *)
Theorem instant_filter_shows_matching (letter : option string) (updateHistory : bool)
    (st : State) :
  enableAnimation (options st) = false ->
  emptyState st = None \/ brandGrid st <> None ->
  let st' := final (filterByLetter letter updateHistory st) in
  brandCards st'
  = map (fun c => with_card_display (if cardMatchesFilter c letter then "block" else "none") c)
      (brandCards st)
  /\ displayedCount st' = getVisibleCardsCount st'
  /\ emptyState st'
     = option_map (fun _ => if Nat.eqb (displayedCount st') 0 then "block" else "none")
         (emptyState st)
  /\ brandGrid st'
     = match emptyState st with
       | Some _ =>
           option_map (fun _ => if Nat.eqb (displayedCount st') 0 then "none" else "grid")
             (brandGrid st)
       | None => brandGrid st
       end
  /\ isAnimating st' = isAnimating st
  /\ pendingAnimations st' = pendingAnimations st.
Proof.
  intros En Hgrid st'.
  set (cards' := map (fun c => with_card_display
                                 (if cardMatchesFilter c letter then "block" else "none") c)
                   (brandCards st)).
  set (n := List.length (filter (fun c => cardMatchesFilter c letter) (brandCards st))).
  assert (Hn : List.length (indices (fun c => cardMatchesFilter c letter) cards') = n).
  { unfold indices. rewrite indices_from_length. unfold cards'.
    rewrite matching_filter. apply length_map. }
  set (st1 := updateActiveButton letter (with_currentFilter letter st)).
  assert (I : exists s,
             instantFilter letter st1 = Returned s
             /\ brandCards s = cards'
             /\ emptyState s
                = option_map (fun _ => if Nat.eqb n 0 then "block" else "none") (emptyState st)
             /\ brandGrid s
                = match emptyState st with
                  | Some _ =>
                      option_map (fun _ => if Nat.eqb n 0 then "none" else "grid") (brandGrid st)
                  | None => brandGrid st
                  end
             /\ isAnimating s = isAnimating st
             /\ currentFilter s = letter
             /\ pendingAnimations s = pendingAnimations st).
  { unfold instantFilter.
    cbn [brandCards with_cards st1 updateActiveButton with_buttons with_currentFilter].
    fold cards'. rewrite Hn. unfold updateEmptyState.
    cbn [emptyState brandGrid with_cards with_emptyState with_buttons with_currentFilter].
    change (emptyState st1) with (emptyState st).
    change (brandGrid st1) with (brandGrid st).
    destruct (emptyState st) as [e | ] eqn:Ee.
    - destruct (brandGrid st) as [g | ] eqn:Eg; [ | destruct Hgrid; congruence ].
      eexists. split; [ reflexivity | ]. repeat split.
    - eexists. split; [ reflexivity | ].
      change (emptyState (with_cards cards' st1)) with (emptyState st).
      rewrite Ee. repeat split. }
  destruct I as (s & Es & Ic & Ie & Ig & Ia & If & Ip).
  assert (E : st' = final ((Returned (if updateHistory then updateURL letter s else s))
                           ;; announceFilterChange letter)%outcome).
  { unfold st', filterByLetter. rewrite En, andb_false_r.
    fold st1. change (enableAnimation (options st1)) with (enableAnimation (options st)).
    rewrite En, Es. reflexivity. }
  pose proof (tail_of_filterByLetter letter updateHistory s) as T. cbv zeta in T.
  rewrite <- E in T. destruct T as (Tc & Te & Tg & Ta & Tf & Tp).
  assert (D : displayedCount st' = n).
  { unfold displayedCount. rewrite Tc, Ic. unfold cards'.
    rewrite displayed_filter. apply length_map. }
  assert (V : getVisibleCardsCount st' = n).
  { unfold getVisibleCardsCount. rewrite Tc, Tf, If, Ic. exact Hn. }
  rewrite D.
  split; [ congruence | ]. split; [ congruence | ].
  split; [ congruence | ]. split; [ congruence | ]. split; congruence.
Qed.

Lemma instant_filter_shows_matching_witness :
  let st := final (setFilter (Some "Z") (sample (mkOptions false (of_Z 300)) "")) in
  emptyState st = Some "block" /\ brandGrid st = Some "none".
Proof.
  cbv zeta.
  assert (G : emptyState (sample (mkOptions false (of_Z 300)) "") = None
              \/ brandGrid (sample (mkOptions false (of_Z 300)) "") <> None)
    by (right; vm_compute; discriminate).
  assert (E : enableAnimation (options (sample (mkOptions false (of_Z 300)) "")) = false)
    by (vm_compute; reflexivity).
  pose proof (instant_filter_shows_matching (Some "Z") true
                (sample (mkOptions false (of_Z 300)) "") E G) as H.
  cbv zeta in H. destruct H as (_ & _ & H3 & H4 & _).
  unfold setFilter. split.
  - etransitivity; [ exact H3 | vm_compute; reflexivity ].
  - etransitivity; [ exact H4 | vm_compute; reflexivity ].
Defined.

(** *** A panel without its grid *)

Lemma no_animation_timer (ts : list Timer) (k : nat) (t : Timer) :
  List.length (filter (fun t => isAnimationCallback (callback t)) ts) = 0%nat ->
  nth_error ts k = Some t ->
  isAnimationCallback (callback t) = false
  /\ List.length (filter (fun t => isAnimationCallback (callback t)) (remove_nth k ts)) = 0%nat.
Proof.
  intros H0 Hk.
  pose proof (filter_remove_nth (fun t => isAnimationCallback (callback t)) k ts t Hk) as H.
  rewrite H0 in H. destruct (isAnimationCallback (callback t)); [ discriminate | ].
  split; [ reflexivity | ]. cbn in H. lia.
Qed.

Lemma Stuck_step (st : State) (ev : Event) :
  Stuck st -> Stuck (step st ev) /\ currentFilter (step st ev) = currentFilter st.
Proof.
  intros (Ha & En & P0). unfold step.
  assert (G : forall l u, filterByLetter l u st = Returned st).
  { intros l u. unfold filterByLetter. now rewrite Ha, En. }
  assert (S0 : Stuck st) by (repeat split; assumption).
  destruct ev as [i | i key | | hash | letter | k].
  - unfold handleAlphabetClick. rewrite Ha. now split.
  - unfold handleAlphabetKeydown, handleAlphabetClick. rewrite Ha.
    destruct (String.eqb key "Enter" || String.eqb key " "); now split.
  - destruct (showAllButton st); [ | now split ].
    unfold handleShowAllClick. rewrite G. cbn [andThen final].
    pose proof (keeps_updateURL all st) as [K1 K2].
    destruct (updateURL_window all st) as [w Hw].
    split; [ | apply currentFilter_updateURL ].
    unfold Stuck. rewrite K1, K2. rewrite Hw. cbn [options with_window].
    repeat split; assumption.
  - unfold handlePopState, filterByLetter.
    change (isAnimating (navigate hash st)) with (isAnimating st).
    change (options (navigate hash st)) with (options st).
    rewrite Ha, En. cbn [andb final]. now split.
  - unfold setFilter. rewrite G. now split.
  - unfold fireTimer.
    destruct (nth_error (timers (window st)) k) as [t | ] eqn:E; [ | now split ].
    destruct (no_animation_timer _ k t P0 E) as [Hc Hr].
    destruct (callback t) as [cardsToShow | | node]; try discriminate.
    cbn [runCallback final]. split; [ | reflexivity ].
    repeat split; first [ assumption | exact Hr ].
Qed.

Lemma Stuck_run (evs : list Event) (st : State) :
  Stuck st -> Stuck (run st evs) /\ currentFilter (run st evs) = currentFilter st.
Proof.
  unfold run. revert st. induction evs as [ | ev evs IH]; intros st S; [ now split | ].
  cbn [fold_left]. destruct (Stuck_step st ev S) as [S1 F1].
  destruct (IH (step st ev) S1) as [S2 F2]. split; [ exact S2 | congruence ].
Qed.

Lemma remove_nth_app1 {A : Type} (k : nat) (l1 l2 : list A) :
  (k < List.length l1)%nat -> remove_nth k (l1 ++ l2) = (remove_nth k l1 ++ l2)%list.
Proof.
  intros H. unfold remove_nth.
  rewrite firstn_app, skipn_app.
  replace (k - List.length l1)%nat with 0%nat by lia.
  replace (S k - List.length l1)%nat with 0%nat by lia.
  cbn [firstn skipn]. now rewrite app_nil_r, app_assoc.
Qed.

(** X12.  When the empty-state panel exists and the grid does not, the
    first animated filter request never completes: the callback of its
    first timer throws in [updateEmptyState] before the second timer is
    set, so [isAnimating] stays set with no timer left to clear it, and
    from then on no event changes the current filter. *)
Theorem missing_grid_freezes_filter (st : State) (L : string) :
  emptyState st <> None ->
  brandGrid st = None ->
  enableAnimation (options st) = true ->
  isAnimating st = false ->
  pendingAnimations st = 0%nat ->
  let k := List.length (timers (window st)) in
  let st1 := final (setFilter (Some L) st) in
  returns (fireTimer k st1) = false
  /\ forall evs,
       let st3 := run (final (fireTimer k st1)) evs in
       isAnimating st3 = true
       /\ pendingAnimations st3 = 0%nat
       /\ currentFilter st3 = Some L.
Proof.
  intros He Hg En Ha P0 k st1.
  set (s := animateFilter (Some L) (updateActiveButton (Some L) (with_currentFilter (Some L) st))).
  destruct (updateURL_window (Some L) s) as [w Hw].
  pose proof (timers_updateURL (Some L) s) as (Ht & _ & _).
  rewrite Hw in Ht. cbn [window with_window] in Ht.
  assert (E1 : st1 = announceToScreenReader
                       (if String.eqb L "all" then "Showing all brands"
                        else "Showing brands starting with " ++ toUpperCase L)
                       (with_window w s)).
  { unfold st1, setFilter. rewrite (filterByLetter_animated L true st Ha En).
    cbn [final]. fold s. now rewrite Hw. }
  assert (Ts : timers (window s)
               = (timers (window st)
                  ++ [mkTimer (div (animationDuration (options st)) (of_Z 2))
                        (ShowMatching
                           (indices (fun c => cardMatchesFilter c (Some L)) (brandCards st)))])%list)
    by reflexivity.
  destruct (emptyState st) as [e | ] eqn:Ee; [ | congruence ].
  assert (F : exists s2, fireTimer k st1 = Thrown s2 /\ Stuck s2 /\ currentFilter s2 = Some L).
  { rewrite E1. unfold fireTimer.
    cbn [window announceToScreenReader with_window setTimeout timers location_hash
           history_pushed announcements next_node].
    rewrite Ht, Ts. unfold k.
    rewrite nth_error_app1 by (rewrite length_app; cbn; lia).
    rewrite nth_error_last. cbn [callback runCallback].
    rewrite remove_nth_app1 by (rewrite length_app; cbn; lia).
    rewrite remove_nth_last.
    unfold showMatching, updateEmptyState.
    cbn [emptyState brandGrid with_cards with_window with_emptyState
           announceToScreenReader].
    change (emptyState s) with (emptyState st). rewrite Ee.
    cbn [brandGrid with_emptyState with_cards with_window announceToScreenReader].
    change (brandGrid s) with (brandGrid st). rewrite Hg. cbn [andThen].
    eexists. split; [ reflexivity | ]. split; [ | reflexivity ].
    split; [ reflexivity | ]. split; [ exact En | ].
    unfold pendingAnimations in *. cbn. rewrite filter_app_length, P0. reflexivity. }
  destruct F as (s2 & F & S2 & C2). rewrite F. split; [ reflexivity | ].
  intros evs st3. cbn [final] in st3.
  destruct (Stuck_run evs s2 S2) as ((A & _ & P) & C).
  repeat split; [ exact A | exact P | unfold st3; congruence ].
Qed.

Lemma missing_grid_freezes_filter_witness :
  let st := final (new_BrandShowcase sampleButtons sampleCards (Some "none") None true
                     defaultOptions "") in
  let st2 := final (fireTimer 0 (final (setFilter (Some "A") st))) in
  currentFilter (run st2 [TimerFires 0; SetFilter (Some "Z"); AlphabetClick 2; ShowAllClick])
  = Some "A".
Proof.
  cbv zeta.
  pose proof (missing_grid_freezes_filter
                (final (new_BrandShowcase sampleButtons sampleCards (Some "none") None true
                          defaultOptions ""))
                "A" ltac:(discriminate) eq_refl eq_refl eq_refl eq_refl) as H.
  cbv zeta in H. destruct H as [_ H].
  exact (proj2 (proj2 (H [TimerFires 0; SetFilter (Some "Z"); AlphabetClick 2; ShowAllClick]))).
Defined.

(** *** What the widget does to the host *)

Lemma updateURL_window_cases (arg : option string) (st : State) :
  window (updateURL arg st) = window st
  \/ exists u, window (updateURL arg st) = pushState u (window st).
Proof.
  unfold updateURL.
  destruct (negb _ || strict_eq _ all).
  - destruct (negb _); [ right; eexists; reflexivity | now left ].
  - destruct (match arg with Some _ => arg | None => currentFilter st end);
      [ right; eexists; reflexivity | now left ].
Qed.

(** A property of the host that every primitive the widget uses
    preserves holds after every event. *)
Section WindowInvariant.
Variable P : Window -> Prop.
Hypothesis P_pushState : forall u w, P w -> P (pushState u w).
Hypothesis P_setTimeout :
  forall cb ms w, isAnimationCallback cb = true -> P w -> P (setTimeout cb ms w).
Hypothesis P_announce :
  forall message st, P (window st) -> P (window (announceToScreenReader message st)).
Hypothesis P_navigate : forall hash st, P (window st) -> P (window (navigate hash st)).
Hypothesis P_expire :
  forall k t w, nth_error (timers w) k = Some t ->
                isAnimationCallback (callback t) = true -> P w -> P (expire k w).
Hypothesis P_remove :
  forall k t node st,
    nth_error (timers (window st)) k = Some t ->
    callback t = RemoveAnnouncement node ->
    P (window st) ->
    P (window (removeAnnouncement node (with_window (expire k (window st)) st))).

Let Pw (s : State) : Prop := P (window s).

Lemma Pw_updateURL (arg : option string) (st : State) : Pw st -> Pw (updateURL arg st).
Proof.
  unfold Pw. intros H.
  destruct (updateURL_window_cases arg st) as [-> | [u ->]]; [ exact H | now apply P_pushState ].
Qed.

Lemma Pw_filterByLetter (letter : option string) (updateHistory : bool) (st : State) :
  Pw st -> ends_in Pw (filterByLetter letter updateHistory st).
Proof.
  intros H. unfold filterByLetter.
  destruct (isAnimating st && enableAnimation (options st)); [ exact H | ].
  apply ends_in_andThen; [ apply ends_in_andThen | ].
  - unfold ends_in. destruct (enableAnimation _); cbn [final].
    + unfold Pw, animateFilter. cbn [window with_window with_cards with_isAnimating
                                       updateActiveButton with_buttons with_currentFilter].
      now apply P_setTimeout.
    + unfold Pw, instantFilter. rewrite bar_updateEmptyState. exact H.
  - intros s Hs. unfold ends_in. cbn [final].
    destruct updateHistory; [ now apply Pw_updateURL | exact Hs ].
  - intros s Hs. unfold ends_in.
    destruct letter as [l | ]; cbn [announceFilterChange final]; [ | exact Hs ].
    now apply P_announce.
Qed.

Lemma Pw_handleAlphabetClick (i : nat) (st : State) :
  Pw st -> ends_in Pw (handleAlphabetClick i st).
Proof.
  intros H. unfold handleAlphabetClick.
  destruct (isAnimating st); [ exact H | ].
  destruct (nth_error (alphabetButtons st) i) as [b | ]; [ | exact H ].
  destruct (button_disabled b || strict_eq (button_letter b) (currentFilter st));
    [ exact H | ].
  apply ends_in_andThen; [ now apply Pw_filterByLetter | ].
  intros s Hs. now apply Pw_updateURL.
Qed.

Lemma Pw_fireTimer (k : nat) (st : State) : Pw st -> ends_in Pw (fireTimer k st).
Proof.
  intros H. unfold fireTimer.
  destruct (nth_error (timers (window st)) k) as [t | ] eqn:E; [ | exact H ].
  change (mkWindow (location_hash (window st)) (history_pushed (window st))
            (remove_nth k (timers (window st))) (announcements (window st))
            (next_node (window st)))
    with (expire k (window st)).
  destruct (callback t) as [cardsToShow | | node] eqn:Ec; cbn [runCallback].
  - assert (H1 : P (expire k (window st))) by (apply (P_expire k t); [ | rewrite Ec | ]; trivial).
    unfold showMatching. apply ends_in_andThen.
    + unfold ends_in, Pw. rewrite bar_updateEmptyState. exact H1.
    + intros s Hs. unfold ends_in, Pw. cbn [final window with_window].
      now apply P_setTimeout.
  - unfold ends_in, Pw. cbn [final]. apply (P_expire k t); [ | rewrite Ec | ]; trivial.
  - unfold ends_in, Pw. cbn [final]. now apply (P_remove k t).
Qed.

Lemma Pw_step (st : State) (ev : Event) : Pw st -> Pw (step st ev).
Proof.
  intros H. unfold step. destruct ev as [i | i key | | hash | letter | k].
  - now apply Pw_handleAlphabetClick.
  - unfold handleAlphabetKeydown.
    destruct (String.eqb key "Enter" || String.eqb key " ");
      [ now apply Pw_handleAlphabetClick | exact H ].
  - destruct (showAllButton st); [ | exact H ].
    unfold handleShowAllClick.
    apply ends_in_andThen; [ now apply Pw_filterByLetter | ].
    intros s Hs. now apply Pw_updateURL.
  - apply Pw_filterByLetter. now apply P_navigate.
  - now apply Pw_filterByLetter.
  - now apply Pw_fireTimer.
Qed.

Lemma Pw_run (evs : list Event) (st : State) : Pw st -> Pw (run st evs).
Proof.
  unfold run. revert st. induction evs as [ | ev evs IH]; intros st H; [ exact H | ].
  cbn [fold_left]. apply IH. now apply Pw_step.
Qed.

Lemma Pw_new (buttons : list Button) (cards : list Card) (empty grid : option string)
    (showAll : bool) (opts : Options) (hash : string) :
  P (mkWindow hash [] [] [] 0) ->
  ends_in Pw (new_BrandShowcase buttons cards empty grid showAll opts hash).
Proof.
  intros H. rewrite new_BrandShowcase_returns.
  unfold ends_in. cbn [final]. unfold Pw.
  change (window (updateCounts ?s)) with (window s).
  apply Pw_updateURL. exact H.
Qed.

End WindowInvariant.

(** *** Announcements *)

Lemma removalNodes_app (l1 l2 : list Timer) :
  removalNodes (l1 ++ l2) = (removalNodes l1 ++ removalNodes l2)%list.
Proof.
  induction l1 as [ | t l1 IH]; cbn; [ reflexivity | ].
  destruct (callback t); cbn; now rewrite IH.
Qed.

Lemma removalNodes_In (ts : list Timer) (k : nat) (t : Timer) (node : nat) :
  nth_error ts k = Some t -> callback t = RemoveAnnouncement node ->
  In node (removalNodes ts).
Proof.
  revert k. induction ts as [ | a ts IH]; intros [ | k] H Hc; cbn in *; try discriminate.
  - injection H as ->. rewrite Hc. now left.
  - destruct (callback a); cbn; eauto.
Qed.

Lemma filter_not_in (n : nat) (l : list nat) :
  ~ In n l -> filter (fun x => negb (Nat.eqb x n)) l = l.
Proof.
  induction l as [ | x l IH]; cbn; intros H; [ reflexivity | ].
  destruct (Nat.eqb_spec x n) as [-> | _]; cbn; [ tauto | ].
  rewrite IH; tauto.
Qed.

Lemma removalNodes_expire_animation (ts : list Timer) (k : nat) (t : Timer) :
  nth_error ts k = Some t -> isAnimationCallback (callback t) = true ->
  removalNodes (remove_nth k ts) = removalNodes ts.
Proof.
  unfold remove_nth. revert k. induction ts as [ | a ts IH]; intros [ | k] H Hc; cbn in *;
    try discriminate.
  - injection H as ->. destruct (callback t); [ reflexivity | reflexivity | discriminate ].
  - rewrite (IH k H Hc). reflexivity.
Qed.

Lemma removalNodes_expire_removal (ts : list Timer) (k : nat) (t : Timer) (node : nat) :
  NoDup (removalNodes ts) ->
  nth_error ts k = Some t -> callback t = RemoveAnnouncement node ->
  removalNodes (remove_nth k ts) = filter (fun x => negb (Nat.eqb x node)) (removalNodes ts).
Proof.
  unfold remove_nth. revert k. induction ts as [ | a ts IH]; intros [ | k] Hn H Hc;
    cbn [nth_error firstn skipn app removalNodes] in *; try discriminate.
  - injection H as ->. rewrite Hc in *. inversion Hn as [ | ? ? Hnot Hn']; subst.
    cbn. rewrite Nat.eqb_refl. cbn. now rewrite filter_not_in.
  - destruct (callback a) as [cs | | m] eqn:Ea.
    + now apply IH.
    + now apply IH.
    + inversion Hn as [ | ? ? Hnot Hn']; subst.
      cbn [filter]. rewrite (IH k Hn' H Hc).
      destruct (Nat.eqb_spec m node) as [-> | _]; [ | reflexivity ].
      exfalso. apply Hnot. eapply removalNodes_In; eassumption.
Qed.

Lemma map_fst_filter (node : nat) (l : list (nat * string)) :
  map fst (filter (fun a => negb (Nat.eqb (fst a) node)) l)
  = filter (fun x => negb (Nat.eqb x node)) (map fst l).
Proof.
  induction l as [ | a l IH]; cbn; [ reflexivity | ].
  destruct (Nat.eqb (fst a) node); cbn; now rewrite IH.
Qed.

Lemma Announced_pushState (u : Url) (w : Window) : Announced w -> Announced (pushState u w).
Proof. trivial. Qed.

Lemma Announced_setTimeout (cb : Callback) (ms : number) (w : Window) :
  isAnimationCallback cb = true -> Announced w -> Announced (setTimeout cb ms w).
Proof.
  intros Hc (H1 & H2 & H3). unfold Announced. cbn [setTimeout announcements timers next_node].
  rewrite removalNodes_app. cbn.
  destruct cb; try discriminate; rewrite app_nil_r; repeat split; assumption.
Qed.

Lemma Announced_announce (message : string) (st : State) :
  Announced (window st) -> Announced (window (announceToScreenReader message st)).
Proof.
  intros (H1 & H2 & H3). unfold Announced.
  cbn [announceToScreenReader window with_window setTimeout announcements timers next_node].
  rewrite removalNodes_app, map_app. cbn. rewrite H1. split; [ reflexivity | ].
  rewrite <- H1. split.
  - apply NoDup_app; [ exact H2 | repeat constructor; intros [] | ].
    intros x Hx [<- | []]. rewrite Forall_forall in H3. specialize (H3 _ Hx). lia.
  - apply Forall_app. split.
    + eapply Forall_impl; [ | exact H3 ]. cbn. intros; lia.
    + repeat constructor.
Qed.

Lemma Announced_expire (k : nat) (t : Timer) (w : Window) :
  nth_error (timers w) k = Some t -> isAnimationCallback (callback t) = true ->
  Announced w -> Announced (expire k w).
Proof.
  intros Hk Hc (H1 & H2 & H3). unfold Announced. cbn [expire announcements timers next_node].
  rewrite (removalNodes_expire_animation _ k t Hk Hc). repeat split; assumption.
Qed.

Lemma Announced_remove (k : nat) (t : Timer) (node : nat) (st : State) :
  nth_error (timers (window st)) k = Some t ->
  callback t = RemoveAnnouncement node ->
  Announced (window st) ->
  Announced (window (removeAnnouncement node (with_window (expire k (window st)) st))).
Proof.
  intros Hk Hc (H1 & H2 & H3). unfold Announced.
  cbn [removeAnnouncement window with_window expire announcements timers next_node].
  rewrite map_fst_filter.
  rewrite (removalNodes_expire_removal _ k t node) by (try rewrite <- H1; assumption).
  rewrite H1. split; [ reflexivity | ]. rewrite <- H1. split.
  - now apply NoDup_filter.
  - rewrite Forall_forall in *. intros x Hx. apply filter_In in Hx. apply H3, Hx.
Qed.

Lemma Announced_reachable (buttons : list Button) (cards : list Card)
    (empty grid : option string) (showAll : bool) (opts : Options) (hash : string)
    (evs : list Event) :
  Announced
    (window (run (final (new_BrandShowcase buttons cards empty grid showAll opts hash)) evs)).
Proof.
  apply (Pw_run Announced Announced_pushState Announced_setTimeout Announced_announce
           (fun hash st H => H) Announced_expire Announced_remove).
  apply (Pw_new Announced Announced_pushState).
  repeat split; constructor.
Qed.

(** X13.  In every state the widget reaches, the announcements it has put
    in the body are exactly those whose removal timer is still pending, in
    the same order and each node once: none accumulates (when no timer is
    pending no announcement is left), and when the removal timer of a node
    fires, that node and no other leaves the body. *)
Theorem announcements_wait_for_their_timers (buttons : list Button) (cards : list Card)
    (empty grid : option string) (showAll : bool) (opts : Options) (hash : string)
    (evs : list Event) :
  let st := run (final (new_BrandShowcase buttons cards empty grid showAll opts hash)) evs in
  map fst (announcements (window st)) = removalNodes (timers (window st))
  /\ NoDup (map fst (announcements (window st)))
  /\ (timers (window st) = [] -> announcements (window st) = [])
  /\ (forall k t node,
        nth_error (timers (window st)) k = Some t ->
        callback t = RemoveAnnouncement node ->
        In node (map fst (announcements (window st)))
        /\ announcements (window (step st (TimerFires k)))
           = filter (fun a => negb (Nat.eqb (fst a) node)) (announcements (window st))
        /\ ~ In node (map fst (announcements (window (step st (TimerFires k)))))).
Proof.
  cbv zeta.
  pose proof (Announced_reachable buttons cards empty grid showAll opts hash evs)
    as (H1 & H2 & _).
  set (st := run _ evs) in *.
  split; [ exact H1 | ]. split; [ exact H2 | ]. split.
  - intros Ht. rewrite Ht in H1. cbn in H1.
    destruct (announcements (window st)); [ reflexivity | discriminate ].
  - intros k t node Hk Hc.
    assert (E : announcements (window (step st (TimerFires k)))
                = filter (fun a => negb (Nat.eqb (fst a) node)) (announcements (window st))).
    { unfold step, fireTimer. rewrite Hk, Hc. reflexivity. }
    split; [ rewrite H1; eapply removalNodes_In; eassumption | ].
    split; [ exact E | ].
    rewrite E, map_fst_filter. intros Hin. apply filter_In in Hin.
    destruct Hin as [_ Hin]. now rewrite Nat.eqb_refl in Hin.
Qed.

Lemma announcements_wait_for_their_timers_witness :
  let st := run (sample defaultOptions "") [SetFilter (Some "A")] in
  map snd (announcements (window st)) = ["Showing brands starting with A"]
  /\ announcements (window (step st (TimerFires 1))) = [].
Proof.
  cbv zeta. split; [ reflexivity | ].
  pose proof (announcements_wait_for_their_timers sampleButtons sampleCards (Some "none")
                (Some "grid") true defaultOptions "" [SetFilter (Some "A")]) as H.
  cbv zeta in H. destruct H as (_ & _ & _ & H).
  destruct (H 1%nat (mkTimer (of_Z 1000) (RemoveAnnouncement 0)) 0%nat eq_refl eq_refl)
    as (_ & E & _).
  etransitivity; [ exact E | reflexivity ].
Defined.

End BrandShowcaseFacts.

(** ** The mobile accordion *)

Section ComparisonShowcaseFacts.
Import ComparisonShowcase.

(** *** Lists *)

Lemma modify_nth_app_length {A : Type} (f : A -> A) (pre suf : list A) (a : A) :
  modify_nth (List.length pre) f (pre ++ a :: suf) = (pre ++ f a :: suf)%list.
Proof. induction pre as [ | p pre IH]; cbn; [ | rewrite IH ]; reflexivity. Qed.

Lemma map_modify_nth_same {A B : Type} (g : A -> B) (f : A -> A) (i : nat) (l : list A) :
  (forall a, g (f a) = g a) -> map g (modify_nth i f l) = map g l.
Proof.
  intros H. revert i. induction l as [ | a l IH]; intros [ | i]; cbn; try reflexivity.
  - now rewrite H.
  - now rewrite IH.
Qed.

Lemma mapi_from_ext {A B : Type} (f g : nat -> A -> B) (l : list A) (n : nat) :
  (forall i a, f i a = g i a) -> mapi_from n f l = mapi_from n g l.
Proof.
  intros H. revert n. induction l as [ | a l IH]; intros n; cbn;
    [ | rewrite H, IH ]; reflexivity.
Qed.

Lemma mapi_from_mapi_from {A B C : Type} (f : nat -> B -> C) (g : nat -> A -> B)
    (l : list A) (n : nat) :
  mapi_from n f (mapi_from n g l) = mapi_from n (fun i a => f i (g i a)) l.
Proof. revert n. induction l as [ | a l IH]; intros n; cbn; [ | rewrite IH ]; reflexivity. Qed.

Lemma nth_error_mapi_from {A B : Type} (f : nat -> A -> B) (l : list A) (n j : nat) :
  nth_error (mapi_from n f l) j = option_map (f (n + j)%nat) (nth_error l j).
Proof.
  revert n j. induction l as [ | a l IH]; intros n [ | j]; cbn; try reflexivity.
  - now rewrite Nat.add_0_r.
  - rewrite IH. now replace (S n + j)%nat with (n + S j)%nat by lia.
Qed.

(** *** One block *)

Lemma toggled_idem (x j : nat) (b : Block) : toggled x j (toggled x j b) = toggled x j b.
Proof. reflexivity. Qed.

Lemma isExpanded_toggled (x j : nat) (b : Block) : isExpanded (toggled x j b) = Nat.eqb j x.
Proof. unfold toggled, stateAfterToggle. now destruct (Nat.eqb j x). Qed.

Lemma data_mobile_state_toggled (x j : nat) (b : Block) :
  data_mobile_state (toggled x j b) = Some (stateAfterToggle x j).
Proof. reflexivity. Qed.

(** *** The loop of [handleToggle] *)

Lemma mobileBlocks_iteration (x : nat) (s : State) (j : nat) :
  mobileBlocks (iteration x s j) = modify_nth j (toggled x j) (mobileBlocks s).
Proof.
  unfold iteration, toggled, stateAfterToggle.
  destruct (Nat.eqb j x) eqn:E; [ apply Nat.eqb_eq in E; subst | ]; reflexivity.
Qed.

Lemma dispatched_iteration (x : nat) (s : State) (j : nat) :
  dispatched (iteration x s j)
  = (dispatched s
     ++ [mkCustomEvent (eventAfterToggle x j) j
           (sideOf (mobileBlocks (iteration x s j)) j)])%list.
Proof.
  unfold iteration, eventAfterToggle.
  destruct (Nat.eqb_spec j x) as [-> | _]; reflexivity.
Qed.

Lemma sideOf_map (blocks blocks' : list Block) (j : nat) :
  map data_mobile_side blocks' = map data_mobile_side blocks ->
  sideOf blocks' j = sideOf blocks j.
Proof.
  intros E. unfold sideOf.
  pose proof (nth_error_map data_mobile_side j blocks) as H.
  pose proof (nth_error_map data_mobile_side j blocks') as H'.
  rewrite E, H in H'.
  destruct (nth_error blocks j), (nth_error blocks' j); cbn in H'; congruence.
Qed.

Lemma sides_iteration (x : nat) (s : State) (j : nat) :
  map data_mobile_side (mobileBlocks (iteration x s j))
  = map data_mobile_side (mobileBlocks s).
Proof.
  rewrite mobileBlocks_iteration. now apply map_modify_nth_same.
Qed.

Lemma sides_updateAria_buttons (blocks : list Block) (buttons : list ToggleButton) :
  map closest_block
    (fold_left
       (fun bs b =>
          match block_toggle b with
          | Some t => modify_nth t (aria_of_toggle (isExpanded b)) bs
          | None => bs
          end) blocks buttons)
  = map closest_block buttons.
Proof.
  revert buttons. induction blocks as [ | b blocks IH]; intros buttons; cbn;
    [ reflexivity | ].
  rewrite IH. destruct (block_toggle b); [ | reflexivity ].
  now apply map_modify_nth_same.
Qed.

Lemma frame_iteration (x : nat) (s : State) (j : nat) :
  innerWidth (iteration x s j) = innerWidth s
  /\ map closest_block (toggleButtons (iteration x s j))
     = map closest_block (toggleButtons s).
Proof.
  unfold iteration.
  destruct (Nat.eqb j x); (split; [ reflexivity | ]); cbn;
    apply sides_updateAria_buttons.
Qed.

Lemma frame_loop (x : nat) (js : list nat) (s : State) :
  innerWidth (fold_left (iteration x) js s) = innerWidth s
  /\ map closest_block (toggleButtons (fold_left (iteration x) js s))
     = map closest_block (toggleButtons s).
Proof.
  revert s. induction js as [ | j js IH]; intros s; cbn; [ now split | ].
  destruct (IH (iteration x s j)) as [H1 H2], (frame_iteration x s j) as [H3 H4].
  split; congruence.
Qed.

(** The blocks after the loop: each one toggled, at its own turn. *)
Lemma mobileBlocks_loop (x m : nat) :
  forall (suf pre : list Block) (s : State),
    List.length suf = m ->
    mobileBlocks s = (pre ++ suf)%list ->
    mobileBlocks (fold_left (iteration x) (seq (List.length pre) m) s)
    = (pre ++ mapi_from (List.length pre) (toggled x) suf)%list.
Proof.
  induction m as [ | m IH]; intros suf pre s Hlen Hs.
  - destruct suf; [ | discriminate ]. cbn. exact Hs.
  - destruct suf as [ | b suf]; [ discriminate | ]. injection Hlen as Hlen.
    cbn [seq fold_left mapi_from].
    assert (H1 : mobileBlocks (iteration x s (List.length pre))
                 = ((pre ++ [toggled x (List.length pre) b]) ++ suf)%list).
    { rewrite mobileBlocks_iteration, Hs, modify_nth_app_length.
      now rewrite <- app_assoc. }
    pose proof (IH suf (pre ++ [toggled x (List.length pre) b])%list
                  (iteration x s (List.length pre)) Hlen H1) as H.
    rewrite length_app, Nat.add_1_r in H.
    rewrite H, <- app_assoc. reflexivity.
Qed.

Lemma dispatched_loop (x : nat) (js : list nat) (s : State) :
  dispatched (fold_left (iteration x) js s)
  = (dispatched s
     ++ map (fun j => mkCustomEvent (eventAfterToggle x j) j (sideOf (mobileBlocks s) j))
          js)%list.
Proof.
  revert s. induction js as [ | j js IH]; intros s; cbn [fold_left map].
  - now rewrite app_nil_r.
  - rewrite IH, dispatched_iteration, <- app_assoc. cbn [app]. do 2 f_equal.
    + f_equal. apply sideOf_map, sides_iteration.
    + apply map_ext. intros j'. f_equal. apply sideOf_map, sides_iteration.
Qed.

(** [handleToggle] on a narrow viewport, for a button inside a block. *)
Lemma handleToggle_loop (st : State) (i x : nat) (button : ToggleButton) :
  isMobileView st = true ->
  nth_error (toggleButtons st) i = Some button ->
  closest_block button = Some x ->
  handleToggle i st
  = fold_left (iteration x) (seq 0 (List.length (mobileBlocks st))) st.
Proof.
  intros Hm Hb Hx. unfold handleToggle. rewrite Hm, Hb, Hx. reflexivity.
Qed.

Lemma mobileBlocks_handleToggle (st : State) (i x : nat) (button : ToggleButton) :
  isMobileView st = true ->
  nth_error (toggleButtons st) i = Some button ->
  closest_block button = Some x ->
  mobileBlocks (handleToggle i st) = mapi (toggled x) (mobileBlocks st).
Proof.
  intros Hm Hb Hx. rewrite (handleToggle_loop st i x button Hm Hb Hx).
  apply (mobileBlocks_loop x (List.length (mobileBlocks st)) (mobileBlocks st) [] st);
    reflexivity.
Qed.

Lemma expanded_after_toggle (x : nat) (blocks : list Block) (k : nat) :
  List.length (filter isExpanded (mapi_from k (toggled x) blocks))
  = (if ((k <=? x) && (x <? k + List.length blocks))%nat then 1 else 0)%nat
  /\ find_index isExpanded k (mapi_from k (toggled x) blocks)
     = if ((k <=? x) && (x <? k + List.length blocks))%nat then Some x else None.
Proof.
  revert k. induction blocks as [ | b blocks IH]; intros k; cbn [mapi_from filter find_index].
  - cbn [List.length]. rewrite Nat.add_0_r.
    destruct (Nat.leb_spec k x), (Nat.ltb_spec x k); cbn; try lia; now split.
  - rewrite isExpanded_toggled. destruct (IH (S k)) as [IH1 IH2].
    cbn [List.length].
    destruct (Nat.eqb_spec k x) as [-> | Hne].
    + cbn [List.length]. rewrite IH1.
      destruct (Nat.leb_spec (S x) x); [ lia | ].
      destruct (Nat.leb_spec x x); [ | lia ].
      destruct (Nat.ltb_spec x (x + S (List.length blocks))); [ | lia ].
      now split.
    + rewrite IH1, IH2.
      destruct (Nat.leb_spec (S k) x), (Nat.leb_spec k x),
        (Nat.ltb_spec x (S k + List.length blocks)),
        (Nat.ltb_spec x (k + S (List.length blocks))); cbn; try lia; now split.
Qed.

(** *** Exclusivity *)

(** C7.  On a narrow viewport, after the toggle handler ran for a button
    of the block X, X's [data-mobile-state] is 'expanded' and every other
    block's is 'collapsed': exactly one block is expanded (X), and none
    if X is not among the blocks; running the handler a second time leaves
    the blocks as the first run left them. *)
Theorem handleToggle_exclusive (st : State) (i x : nat) (button : ToggleButton) :
  isMobileView st = true ->
  nth_error (toggleButtons st) i = Some button ->
  closest_block button = Some x ->
  let st' := handleToggle i st in
  let st'' := handleToggle i st' in
  (forall j b, nth_error (mobileBlocks st') j = Some b ->
               data_mobile_state b = Some (if Nat.eqb j x then "expanded" else "collapsed"))
  /\ List.length (mobileBlocks st') = List.length (mobileBlocks st)
  /\ expandedCount st' = (if (x <? List.length (mobileBlocks st))%nat then 1 else 0)%nat
  /\ getExpandedBlock st'
     = (if (x <? List.length (mobileBlocks st))%nat then Some x else None)
  /\ mobileBlocks st'' = mobileBlocks st'
  /\ expandedCount st'' = expandedCount st'
  /\ getExpandedBlock st'' = getExpandedBlock st'.
Proof.
  intros Hm Hb Hx st' st''.
  assert (E1 : mobileBlocks st' = mapi (toggled x) (mobileBlocks st))
    by exact (mobileBlocks_handleToggle st i x button Hm Hb Hx).
  (* the second run finds the same viewport and the same button *)
  assert (Hloop : st' = fold_left (iteration x) (seq 0 (List.length (mobileBlocks st))) st)
    by exact (handleToggle_loop st i x button Hm Hb Hx).
  destruct (frame_loop x (seq 0 (List.length (mobileBlocks st))) st) as [Fw Fb].
  rewrite <- Hloop in Fw, Fb.
  assert (Hm' : isMobileView st' = true) by (unfold isMobileView; now rewrite Fw).
  assert (Hb' : exists button', nth_error (toggleButtons st') i = Some button'
                                /\ closest_block button' = Some x).
  { pose proof (nth_error_map closest_block i (toggleButtons st')) as H.
    rewrite Fb, nth_error_map, Hb in H. cbn in H.
    destruct (nth_error (toggleButtons st') i) as [button' | ]; [ | discriminate ].
    exists button'. split; [ reflexivity | ]. cbn in H. congruence. }
  destruct Hb' as (button' & Hb' & Hx').
  assert (E2 : mobileBlocks st'' = mobileBlocks st').
  { unfold st''. rewrite (mobileBlocks_handleToggle st' i x button' Hm' Hb' Hx'), E1.
    unfold mapi. rewrite mapi_from_mapi_from. apply mapi_from_ext.
    intros j b. apply toggled_idem. }
  destruct (expanded_after_toggle x (mobileBlocks st) 0) as [C F].
  cbn [Nat.leb andb Nat.add] in C, F.
  split; [ | split; [ | split; [ | split; [ | split; [ | split ] ] ] ] ].
  - intros j b Hj. rewrite E1 in Hj. unfold mapi in Hj.
    rewrite nth_error_mapi_from in Hj.
    destruct (nth_error (mobileBlocks st) j) as [b0 | ]; [ | discriminate ].
    injection Hj as <-. apply data_mobile_state_toggled.
  - rewrite E1. apply mapi_from_length.
  - unfold expandedCount. rewrite E1. exact C.
  - unfold getExpandedBlock. rewrite E1. exact F.
  - exact E2.
  - unfold expandedCount. now rewrite E2.
  - unfold getExpandedBlock. now rewrite E2.
Qed.

Lemma handleToggle_exclusive_witness :
  isMobileView sample = true
  /\ map data_mobile_state (mobileBlocks (handleToggle 1 sample))
     = [Some "collapsed"; Some "expanded"]
  /\ expandedCount (handleToggle 1 sample) = 1%nat
  /\ getExpandedBlock (handleToggle 1 (handleToggle 1 sample)) = Some 1%nat.
Proof.
  pose proof (handleToggle_exclusive sample 1 1
                (mkToggleButton (Some 1%nat) (Some "button") (Some "0") (Some "false"))
                eq_refl eq_refl eq_refl) as H.
  cbv zeta in H. destruct H as (_ & _ & H3 & H4 & _ & _ & H7).
  split; [ reflexivity | ]. split; [ reflexivity | ]. split.
  - exact H3.
  - rewrite H7. exact H4.
Defined.

(** *** Notifications *)

(** C8, as amended.  On a narrow viewport, a click on a toggle inside the
    block X dispatches one notification for every block, in the order of
    the blocks, whether or not its state changed: 'comparison:expanded'
    for X and 'comparison:collapsed' for every other block, each carrying
    the block and its side tag. *)
Theorem handleToggle_notifications (st : State) (i x : nat) (button : ToggleButton) :
  isMobileView st = true ->
  nth_error (toggleButtons st) i = Some button ->
  closest_block button = Some x ->
  dispatched (handleToggle i st)
  = (dispatched st
     ++ map (fun j =>
               mkCustomEvent
                 (if Nat.eqb j x then "comparison:expanded" else "comparison:collapsed")
                 j (sideOf (mobileBlocks st) j))
          (seq 0 (List.length (mobileBlocks st))))%list.
Proof.
  intros Hm Hb Hx. rewrite (handleToggle_loop st i x button Hm Hb Hx).
  apply dispatched_loop.
Qed.

Lemma handleToggle_notifications_witness :
  isMobileView sample = true
  /\ dispatched (handleToggle 1 sample)
     = (dispatched sample
        ++ [mkCustomEvent "comparison:collapsed" 0 (Some "left");
            mkCustomEvent "comparison:expanded" 1 (Some "right")])%list.
Proof.
  split; [ reflexivity | ].
  exact (handleToggle_notifications sample 1 1
           (mkToggleButton (Some 1%nat) (Some "button") (Some "0") (Some "false"))
           eq_refl eq_refl eq_refl).
Defined.

(** C8 fails as stated: the left block is expanded and the right one
    collapsed; a click on the left toggle changes the state of neither,
    and both are notified. *)
Lemma handleToggle_notifies_unchanged_blocks :
  let st' := handleToggle 0 sample in
  map data_mobile_state (mobileBlocks sample) = [Some "expanded"; Some "collapsed"]
  /\ map data_mobile_state (mobileBlocks st') = [Some "expanded"; Some "collapsed"]
  /\ dispatched st'
     = (dispatched sample
        ++ [mkCustomEvent "comparison:expanded" 0 (Some "left");
            mkCustomEvent "comparison:collapsed" 1 (Some "right")])%list.
Proof. vm_compute. repeat split. Qed.

(** *** The initial state and resizing *)

Lemma mapi_from_const {A B : Type} (f : A -> B) (l : list A) (n : nat) :
  mapi_from n (fun _ => f) l = map f l.
Proof. revert n. induction l as [ | a l IH]; intros n; cbn; [ | rewrite IH ]; reflexivity. Qed.

Lemma isExpanded_initialized (b : Block) : isExpanded (initialized b) = isExpanded b.
Proof. unfold initialized, initialState. destruct (isExpanded b) eqn:E; reflexivity. Qed.

Lemma initialized_idem (b : Block) : initialized (initialized b) = initialized b.
Proof.
  unfold initialized at 1. unfold initialState. rewrite isExpanded_initialized. reflexivity.
Qed.

(** A loop that rewrites one block per turn, in order, and dispatches one
    event per turn: its closed form. *)
Lemma loop_closed_form (stepf : State -> nat -> State) (F : nat -> Block -> Block)
    (E : nat -> Block -> CustomEvent) :
  (forall s pre b suf,
      mobileBlocks s = (pre ++ b :: suf)%list ->
      mobileBlocks (stepf s (List.length pre)) = (pre ++ F (List.length pre) b :: suf)%list
      /\ dispatched (stepf s (List.length pre))
         = (dispatched s ++ [E (List.length pre) b])%list) ->
  forall (m : nat) (suf pre : list Block) (s : State),
    List.length suf = m ->
    mobileBlocks s = (pre ++ suf)%list ->
    mobileBlocks (fold_left stepf (seq (List.length pre) m) s)
    = (pre ++ mapi_from (List.length pre) F suf)%list
    /\ dispatched (fold_left stepf (seq (List.length pre) m) s)
       = (dispatched s ++ mapi_from (List.length pre) E suf)%list.
Proof.
  intros Hstep.
  induction m as [ | m IH]; intros suf pre s Hlen Hs.
  - destruct suf; [ | discriminate ]. cbn. rewrite !app_nil_r in *. now split.
  - destruct suf as [ | b suf]; [ discriminate | ]. injection Hlen as Hlen.
    cbn [seq fold_left mapi_from].
    destruct (Hstep s pre b suf Hs) as [B1 D1].
    pose proof (IH suf (pre ++ [F (List.length pre) b])%list
                  (stepf s (List.length pre)) Hlen) as H.
    rewrite length_app, Nat.add_1_r in H.
    destruct H as [H1 H2]; [ rewrite B1, <- app_assoc; reflexivity | ].
    rewrite H1, H2, D1, <- !app_assoc. now split.
Qed.

Lemma sideOf_middle (pre suf : list Block) (b : Block) :
  sideOf (pre ++ b :: suf) (List.length pre) = data_mobile_side b.
Proof. unfold sideOf. now rewrite nth_error_app2, Nat.sub_diag by lia. Qed.

Lemma expandBlock_effect (j : nat) (s : State) :
  mobileBlocks (expandBlock j s)
  = modify_nth j (set_mobile_state "expanded") (mobileBlocks s)
  /\ dispatched (expandBlock j s)
     = (dispatched s
        ++ [mkCustomEvent "comparison:expanded" j
              (sideOf (modify_nth j (set_mobile_state "expanded") (mobileBlocks s)) j)])%list.
Proof. split; reflexivity. Qed.

Lemma collapseBlock_effect (j : nat) (s : State) :
  mobileBlocks (collapseBlock j s)
  = modify_nth j (set_mobile_state "collapsed") (mobileBlocks s)
  /\ dispatched (collapseBlock j s)
     = (dispatched s
        ++ [mkCustomEvent "comparison:collapsed" j
              (sideOf (modify_nth j (set_mobile_state "collapsed") (mobileBlocks s)) j)])%list.
Proof. split; reflexivity. Qed.

(** One turn of [setInitialState]'s loop. *)
Lemma initial_turn (s : State) (pre suf : list Block) (b : Block) :
  mobileBlocks s = (pre ++ b :: suf)%list ->
  let s' := match nth_error (mobileBlocks s) (List.length pre) with
            | Some b0 =>
                if isExpanded b0 then expandBlock (List.length pre) s
                else collapseBlock (List.length pre) s
            | None => s
            end in
  mobileBlocks s' = (pre ++ initialized b :: suf)%list
  /\ dispatched s' = (dispatched s ++ [initialEvent (List.length pre) b])%list.
Proof.
  intros Hs. cbv zeta.
  assert (N : nth_error (mobileBlocks s) (List.length pre) = Some b)
    by (rewrite Hs, nth_error_app2, Nat.sub_diag by lia; reflexivity).
  rewrite N.
  unfold initialized, initialState, initialEvent.
  destruct (isExpanded b) eqn:Eb; cbv beta iota.
  - destruct (expandBlock_effect (List.length pre) s) as [-> ->].
    rewrite Hs, modify_nth_app_length, sideOf_middle. now split.
  - destruct (collapseBlock_effect (List.length pre) s) as [-> ->].
    rewrite Hs, modify_nth_app_length, sideOf_middle. now split.
Qed.

Lemma setInitialState_closed_form (st : State) :
  mobileBlocks (setInitialState st) = map initialized (mobileBlocks st)
  /\ dispatched (setInitialState st)
     = (dispatched st ++ mapi initialEvent (mobileBlocks st))%list.
Proof.
  unfold setInitialState.
  destruct (mobileBlocks st) as [ | b0 blocks0] eqn:Eb.
  - rewrite Eb. cbn. now rewrite app_nil_r.
  - rewrite <- Eb.
    destruct (loop_closed_form
                (fun s i =>
                   match nth_error (mobileBlocks s) i with
                   | Some b => if isExpanded b then expandBlock i s else collapseBlock i s
                   | None => s
                   end)
                (fun _ => initialized) initialEvent
                (fun s pre b suf Hs => initial_turn s pre suf b Hs)
                (List.length (mobileBlocks st)) (mobileBlocks st) [] st
                eq_refl eq_refl) as [H1 H2].
    cbn [List.length app] in H1, H2.
    change (mobileBlocks (updateAriaAttributes ?s)) with (mobileBlocks s).
    change (dispatched (updateAriaAttributes ?s)) with (dispatched s).
    split; [ now rewrite H1, mapi_from_const | exact H2 ].
Qed.

Lemma toggleBound_setInitialState (st : State) :
  toggleBound (setInitialState st) = toggleBound st.
Proof.
  unfold setInitialState. destruct (mobileBlocks st); [ reflexivity | ].
  change (toggleBound (updateAriaAttributes ?x)) with (toggleBound x).
  match goal with |- context [fold_left _ ?js _] => generalize js end.
  intros js. revert st.
  induction js as [ | j js IH]; intros st; [ reflexivity | ].
  cbn [fold_left]. rewrite IH.
  destruct (nth_error (mobileBlocks st) j) as [b0 | ]; [ | reflexivity ].
  destruct (isExpanded b0); reflexivity.
Qed.

Lemma expandedCount_initialized (blocks : list Block) :
  List.length (filter isExpanded (map initialized blocks))
  = List.length (filter isExpanded blocks).
Proof.
  induction blocks as [ | b blocks IH]; cbn [map filter]; [ reflexivity | ].
  rewrite isExpanded_initialized. destruct (isExpanded b); cbn; now rewrite IH.
Qed.

Lemma find_index_initialized (blocks : list Block) (n : nat) :
  find_index isExpanded n (map initialized blocks) = find_index isExpanded n blocks.
Proof.
  revert n. induction blocks as [ | b l IH]; intros n; cbn [map find_index];
    [ reflexivity | ].
  rewrite isExpanded_initialized. destruct (isExpanded b); [ reflexivity | apply IH ].
Qed.

(** X14.  On a narrow viewport the element starts from the markup: every
    block marked 'expanded' stays expanded and every other block becomes
    'collapsed', one event is dispatched per block, in order, and the
    number of expanded blocks is the number the markup marked expanded
    (none, one, or several: exclusivity is not enforced here). *)
Theorem init_follows_markup (width : Z) (blocks : list Block) (buttons : list ToggleButton)
    (cs : list (option string)) :
  (width < 900)%Z ->
  let st := init width blocks buttons cs in
  mobileBlocks st = map initialized blocks
  /\ (forall j b, nth_error (mobileBlocks st) j = Some b ->
                  exists b0, nth_error blocks j = Some b0
                             /\ data_mobile_state b
                                = Some (if isExpanded b0 then "expanded" else "collapsed")
                             /\ data_mobile_side b = data_mobile_side b0
                             /\ block_toggle b = block_toggle b0
                             /\ block_content b = block_content b0)
  /\ dispatched st = mapi initialEvent blocks
  /\ expandedCount st = List.length (filter isExpanded blocks)
  /\ toggleBound st = match buttons with [] => false | _ => true end.
Proof.
  intros Hw. cbv zeta. unfold init.
  assert (Hm : isMobileView (mkState width blocks buttons cs false false []) = true).
  { unfold isMobileView, breakpoint. cbn. now apply Z.ltb_lt. }
  rewrite Hm. unfold enableMobileToggle.
  set (s := bindEvents (mkState width blocks buttons cs false false [])).
  assert (Sb : mobileBlocks s = blocks /\ dispatched s = []
               /\ toggleBound s = match buttons with [] => false | _ => true end).
  { unfold s, bindEvents. cbn [toggleButtons]. destruct buttons; repeat split. }
  destruct Sb as (Sb & Sd & St).
  destruct (setInitialState_closed_form s) as [H1 H2]. rewrite Sb, Sd in *.
  cbn [mobileBlocks dispatched toggleBound].
  assert (Tb : toggleBound (setInitialState s) = toggleBound s)
    by apply toggleBound_setInitialState.
  split; [ exact H1 | ]. split; [ | split; [ | split ] ].
  - intros j b Hj. rewrite H1, nth_error_map in Hj.
    destruct (nth_error blocks j) as [b0 | ]; [ | discriminate ].
    injection Hj as <-. exists b0. repeat split.
  - exact H2.
  - unfold expandedCount. cbn [mobileBlocks]. rewrite H1. apply expandedCount_initialized.
  - now rewrite Tb.
Qed.

Lemma init_follows_markup_witness :
  (375 < 900)%Z
  /\ map data_mobile_state
       (mobileBlocks
          (init 375
             [ mkBlock (Some "expanded") (Some "left") None None;
               mkBlock None (Some "middle") None None;
               mkBlock (Some "expanded") (Some "right") None None ] [] []))
     = [Some "expanded"; Some "collapsed"; Some "expanded"]
  /\ expandedCount
       (init 375
          [ mkBlock (Some "expanded") (Some "left") None None;
            mkBlock None (Some "middle") None None;
            mkBlock (Some "expanded") (Some "right") None None ] [] [])
     = 2%nat.
Proof.
  pose proof (init_follows_markup 375
                [ mkBlock (Some "expanded") (Some "left") None None;
                  mkBlock None (Some "middle") None None;
                  mkBlock (Some "expanded") (Some "right") None None ] [] [] eq_refl) as H.
  cbv zeta in H. destruct H as (_ & _ & _ & H & _).
  split; [ reflexivity | ]. split; [ reflexivity | exact H ].
Defined.

(** X15.  On a wide viewport nothing is interactive: the element starts
    with the blocks as the markup has them, dispatches nothing and binds no
    toggle; the toggle and key handlers return without any change; and a
    resize to such a width unbinds the toggles and leaves the blocks in the
    state they last had. *)
Theorem wide_viewport_is_inert :
  (forall width blocks buttons cs,
      (900 <= width)%Z ->
      init width blocks buttons cs = mkState width blocks buttons cs false true [])
  /\ (forall st i key,
        (900 <= innerWidth st)%Z ->
        handleToggle i st = st /\ handleKeydown i key st = st /\ click i st = st)
  /\ (forall st width,
        (900 <= width)%Z -> resizeBound st = true ->
        let st' := resize width st in
        mobileBlocks st' = mobileBlocks st
        /\ dispatched st' = dispatched st
        /\ (toggleButtons st <> [] -> toggleBound st' = false)).
Proof.
  split; [ | split ].
  - intros width blocks buttons cs Hw. unfold init.
    assert (Hm : isMobileView (mkState width blocks buttons cs false false []) = false).
    { unfold isMobileView, breakpoint. cbn. now apply Z.ltb_ge. }
    rewrite Hm. unfold disableMobileToggle, removeEvents. cbn [toggleButtons].
    destruct buttons; reflexivity.
  - intros st i key Hw.
    assert (Hm : isMobileView st = false)
      by (unfold isMobileView, breakpoint; now apply Z.ltb_ge).
    assert (H : handleToggle i st = st) by (unfold handleToggle; now rewrite Hm).
    split; [ exact H | ]. split.
    + unfold handleKeydown. rewrite H. now destruct (_ || _).
    + unfold click. rewrite H. now destruct (toggleBound st).
  - intros st width Hw Hr. cbv zeta. unfold resize. rewrite Hr. cbv beta iota zeta.
    unfold handleResize.
    assert (Hm : isMobileView (mkState width (mobileBlocks st) (toggleButtons st)
                                 (contents st) (toggleBound st) true (dispatched st)) = false).
    { unfold isMobileView, breakpoint. cbn. now apply Z.ltb_ge. }
    rewrite Hm. unfold disableMobileToggle, removeEvents. cbn [toggleButtons].
    destruct (toggleButtons st); repeat split; congruence.
Qed.

Lemma wide_viewport_is_inert_witness :
  handleToggle 1 (init 1280 sampleBlocks sampleToggles sampleContents)
  = init 1280 sampleBlocks sampleToggles sampleContents
  /\ mobileBlocks (resize 1280 sample) = mobileBlocks sample.
Proof.
  pose proof wide_viewport_is_inert as (_ & H2 & H3).
  split.
  - exact (proj1 (H2 (init 1280 sampleBlocks sampleToggles sampleContents) 1%nat "Enter"
                    ltac:(vm_compute; discriminate))).
  - exact (proj1 (H3 sample 1280%Z ltac:(vm_compute; discriminate) eq_refl)).
Defined.

(** X16.  Every resize that ends on a narrow viewport runs the initial
    pass again: the blocks keep the states they had (the expanded ones stay
    expanded), one more event is dispatched for every block each time, and
    a second resize leaves the blocks as the first left them. *)
Theorem resize_on_narrow_viewport (st : State) (width : Z) :
  (width < 900)%Z ->
  resizeBound st = true ->
  let st' := resize width st in
  mobileBlocks st' = map initialized (mobileBlocks st)
  /\ expandedCount st' = expandedCount st
  /\ getExpandedBlock st' = getExpandedBlock st
  /\ dispatched st' = (dispatched st ++ mapi initialEvent (mobileBlocks st))%list
  /\ (forall width', (width' < 900)%Z -> resizeBound st' = true ->
                     mobileBlocks (resize width' st') = mobileBlocks st').
Proof.
  intros Hw Hr. cbv zeta.
  assert (R : forall w s, (w < 900)%Z -> resizeBound s = true ->
                          mobileBlocks (resize w s) = map initialized (mobileBlocks s)
                          /\ dispatched (resize w s)
                             = (dispatched s ++ mapi initialEvent (mobileBlocks s))%list).
  { intros w s Hw' Hr'. unfold resize. rewrite Hr'. cbv beta iota zeta.
    unfold handleResize.
    set (s1 := mkState w (mobileBlocks s) (toggleButtons s) (contents s) (toggleBound s) true
                 (dispatched s)).
    assert (Hm : isMobileView s1 = true)
      by (unfold isMobileView, breakpoint; cbn; now apply Z.ltb_lt).
    rewrite Hm. unfold enableMobileToggle.
    destruct (setInitialState_closed_form (bindEvents s1)) as [H1 H2].
    assert (B : mobileBlocks (bindEvents s1) = mobileBlocks s
                /\ dispatched (bindEvents s1) = dispatched s).
    { unfold bindEvents. destruct (toggleButtons s1); split; reflexivity. }
    destruct B as [B1 B2]. rewrite B1, B2 in *. now split. }
  destruct (R width st Hw Hr) as [H1 H2].
  split; [ exact H1 | ]. split; [ | split; [ | split ] ].
  - unfold expandedCount. rewrite H1. apply expandedCount_initialized.
  - unfold getExpandedBlock. rewrite H1. apply find_index_initialized.
  - exact H2.
  - intros width' Hw' Hr'. destruct (R width' _ Hw' Hr') as [H3 _].
    rewrite H3, H1, map_map. apply map_ext. intros b. apply initialized_idem.
Qed.

Lemma resize_on_narrow_viewport_witness :
  let st := handleToggle 1 sample in
  getExpandedBlock (resize 414 st) = Some 1%nat
  /\ List.length (dispatched (resize 414 st)) = (List.length (dispatched st) + 2)%nat.
Proof.
  cbv zeta.
  pose proof (resize_on_narrow_viewport (handleToggle 1 sample) 414 eq_refl eq_refl) as H.
  cbv zeta in H. destruct H as (_ & _ & H3 & H4 & _).
  split.
  - etransitivity; [ exact H3 | reflexivity ].
  - rewrite H4, length_app. reflexivity.
Defined.

(** *** The ARIA attributes *)

Lemma nth_error_modify_nth_eq {A : Type} (f : A -> A) (i : nat) (l : list A) :
  nth_error (modify_nth i f l) i = option_map f (nth_error l i).
Proof.
  revert i. induction l as [ | a l IH]; intros [ | i]; cbn; try reflexivity. apply IH.
Qed.

Lemma nth_error_modify_nth_neq {A : Type} (f : A -> A) (i j : nat) (l : list A) :
  i <> j -> nth_error (modify_nth i f l) j = nth_error l j.
Proof.
  revert i j. induction l as [ | a l IH]; intros [ | i] [ | j] H; cbn; try reflexivity.
  - congruence.
  - apply IH. congruence.
Qed.

(** The loop of [updateAriaAttributes] over one kind of element: the
    element found by one block only holds what that block wrote. *)
Lemma aria_loop_untouched {A : Type} (idx : Block -> option nat) (w : bool -> A -> A)
    (blocks : list Block) (xs : list A) (t : nat) :
  ~ In t (indicesOf idx blocks) ->
  nth_error
    (fold_left
       (fun xs b =>
          match idx b with
          | Some t => modify_nth t (w (isExpanded b)) xs
          | None => xs
          end) blocks xs) t
  = nth_error xs t.
Proof.
  revert xs. induction blocks as [ | b blocks IH]; intros xs H;
    cbn [fold_left indicesOf] in *; [ reflexivity | ].
  destruct (idx b) as [t0 | ].
  - rewrite IH by (intros K; apply H; now right).
    apply nth_error_modify_nth_neq. intros ->. apply H. now left.
  - now apply IH.
Qed.

Lemma In_indicesOf (idx : Block -> option nat) (blocks : list Block) (j t : nat) (b : Block) :
  nth_error blocks j = Some b -> idx b = Some t -> In t (indicesOf idx blocks).
Proof.
  revert j. induction blocks as [ | c blocks IH]; intros j Hj Ht.
  - now destruct j.
  - destruct j as [ | j]; cbn [nth_error indicesOf] in *.
    + injection Hj as ->. rewrite Ht. now left.
    + destruct (idx c); [ right | ]; eapply IH; eassumption.
Qed.

Lemma aria_loop_lookup {A : Type} (idx : Block -> option nat) (w : bool -> A -> A)
    (blocks : list Block) :
  forall (xs : list A) (j t : nat) (b : Block),
    NoDup (indicesOf idx blocks) ->
    nth_error blocks j = Some b ->
    idx b = Some t ->
    nth_error
      (fold_left
         (fun xs b =>
            match idx b with
            | Some t => modify_nth t (w (isExpanded b)) xs
            | None => xs
            end) blocks xs) t
    = option_map (w (isExpanded b)) (nth_error xs t).
Proof.
  induction blocks as [ | b0 blocks IH]; intros xs j t b N Hj Ht.
  - now destruct j.
  - cbn [fold_left indicesOf] in *. destruct j as [ | j].
    + injection Hj as ->. rewrite Ht in *. inversion N as [ | ? ? Hn N']; subst.
      rewrite aria_loop_untouched by exact Hn. apply nth_error_modify_nth_eq.
    + cbn [nth_error] in Hj.
      pose proof (In_indicesOf idx blocks j t b Hj Ht) as Hin.
      destruct (idx b0) as [t0 | ].
      * inversion N as [ | ? ? Hn N']; subst.
        rewrite (IH _ j t b N' Hj Ht). f_equal.
        apply nth_error_modify_nth_neq. intros ->. now apply Hn.
      * now apply (IH _ j t b).
Qed.

Lemma indicesOf_modify_nth (idx : Block -> option nat) (g : Block -> Block) (j : nat)
    (blocks : list Block) :
  (forall b, idx (g b) = idx b) ->
  indicesOf idx (modify_nth j g blocks) = indicesOf idx blocks.
Proof.
  intros H. revert j. induction blocks as [ | b blocks IH]; intros [ | j];
    cbn [modify_nth indicesOf]; try reflexivity.
  - now rewrite H.
  - now rewrite IH.
Qed.

Lemma Unshared_modify_nth (s : string) (j : nat) (blocks : list Block) :
  Unshared blocks -> Unshared (modify_nth j (set_mobile_state s) blocks).
Proof.
  unfold Unshared, togglesOf, contentsOf. intros [T C].
  now rewrite !indicesOf_modify_nth by reflexivity.
Qed.

Lemma AriaConsistent_updateAriaAttributes (st : State) :
  Unshared (mobileBlocks st) -> AriaConsistent (updateAriaAttributes st).
Proof.
  intros [T C] j b Hj.
  cbn [updateAriaAttributes mobileBlocks toggleButtons contents with_contents
         with_toggleButtons] in *.
  split.
  - intros c a Hc Ha.
    rewrite (aria_loop_lookup block_content aria_of_content (mobileBlocks st) (contents st)
               j c b C Hj Hc) in Ha.
    destruct (nth_error (contents st) c) as [a0 | ]; [ | discriminate ].
    now injection Ha as <-.
  - intros t button Ht Hb.
    rewrite (aria_loop_lookup block_toggle aria_of_toggle (mobileBlocks st) (toggleButtons st)
               j t b T Hj Ht) in Hb.
    destruct (nth_error (toggleButtons st) t) as [button0 | ]; [ | discriminate ].
    injection Hb as <-. repeat split.
Qed.

Lemma AriaConsistent_frame (s s' : State) :
  mobileBlocks s' = mobileBlocks s ->
  toggleButtons s' = toggleButtons s ->
  contents s' = contents s ->
  AriaConsistent s -> AriaConsistent s'.
Proof. unfold AriaConsistent. intros -> -> ->. trivial. Qed.

Lemma AriaConsistent_nil (s : State) : mobileBlocks s = [] -> AriaConsistent s.
Proof. intros H j b Hj. rewrite H in Hj. now destruct j. Qed.

Lemma Unshared_expandBlock (j : nat) (s : State) :
  Unshared (mobileBlocks s) -> Unshared (mobileBlocks (expandBlock j s)).
Proof. apply Unshared_modify_nth. Qed.

Lemma Unshared_collapseBlock (j : nat) (s : State) :
  Unshared (mobileBlocks s) -> Unshared (mobileBlocks (collapseBlock j s)).
Proof. apply Unshared_modify_nth. Qed.

Lemma AriaConsistent_expandBlock (j : nat) (s : State) :
  Unshared (mobileBlocks s) -> AriaConsistent (expandBlock j s).
Proof.
  intros N. unfold expandBlock.
  set (s1 := with_blocks _ s).
  apply (AriaConsistent_frame (updateAriaAttributes s1)); try reflexivity.
  apply AriaConsistent_updateAriaAttributes. now apply Unshared_modify_nth.
Qed.

Lemma AriaConsistent_collapseBlock (j : nat) (s : State) :
  Unshared (mobileBlocks s) -> AriaConsistent (collapseBlock j s).
Proof.
  intros N. unfold collapseBlock.
  set (s1 := with_blocks _ s).
  apply (AriaConsistent_frame (updateAriaAttributes s1)); try reflexivity.
  apply AriaConsistent_updateAriaAttributes. now apply Unshared_modify_nth.
Qed.

(** A loop whose every turn expands or collapses a block. *)
Lemma AriaConsistent_loop (stepf : State -> nat -> State) :
  (forall s j, Unshared (mobileBlocks s) -> Unshared (mobileBlocks (stepf s j))) ->
  (forall s j, Unshared (mobileBlocks s) -> AriaConsistent s ->
               AriaConsistent (stepf s j)) ->
  forall js s,
    Unshared (mobileBlocks s) -> AriaConsistent s ->
    Unshared (mobileBlocks (fold_left stepf js s))
    /\ AriaConsistent (fold_left stepf js s).
Proof.
  intros T C. induction js as [ | j js IH]; intros s N A; cbn [fold_left]; [ now split | ].
  apply IH; [ now apply T | now apply C ].
Qed.

Lemma Unshared_iteration (x : nat) (s : State) (j : nat) :
  Unshared (mobileBlocks s) -> Unshared (mobileBlocks (iteration x s j)).
Proof.
  unfold iteration.
  destruct (Nat.eqb j x); [ apply Unshared_expandBlock | apply Unshared_collapseBlock ].
Qed.

Lemma AriaConsistent_iteration (x : nat) (s : State) (j : nat) :
  Unshared (mobileBlocks s) -> AriaConsistent (iteration x s j).
Proof.
  intros N. unfold iteration.
  destruct (Nat.eqb j x);
    [ now apply AriaConsistent_expandBlock | now apply AriaConsistent_collapseBlock ].
Qed.

Lemma handleToggle_aria (i : nat) (st : State) :
  Unshared (mobileBlocks st) ->
  Unshared (mobileBlocks (handleToggle i st))
  /\ (AriaConsistent st -> AriaConsistent (handleToggle i st))
  /\ (forall button x,
        isMobileView st = true ->
        nth_error (toggleButtons st) i = Some button ->
        closest_block button = Some x ->
        AriaConsistent (handleToggle i st)).
Proof.
  intros N.
  assert (L : forall x,
             Unshared (mobileBlocks
                         (fold_left (iteration x) (seq 0 (List.length (mobileBlocks st))) st))
             /\ AriaConsistent
                  (fold_left (iteration x) (seq 0 (List.length (mobileBlocks st))) st)).
  { intros x. destruct (List.length (mobileBlocks st)) as [ | n] eqn:E.
    - cbn [seq fold_left]. split; [ exact N | ].
      now apply AriaConsistent_nil, length_zero_iff_nil.
    - cbn [seq fold_left].
      apply (AriaConsistent_loop (iteration x) (Unshared_iteration x)
               (fun s j Ns _ => AriaConsistent_iteration x s j Ns)).
      + now apply Unshared_iteration.
      + now apply AriaConsistent_iteration. }
  split; [ | split ].
  - unfold handleToggle. destruct (negb (isMobileView st)); [ exact N | ].
    destruct (nth_error (toggleButtons st) i) as [button | ]; [ | exact N ].
    destruct (closest_block button) as [x | ]; [ | exact N ]. apply L.
  - intros A. unfold handleToggle. destruct (negb (isMobileView st)); [ exact A | ].
    destruct (nth_error (toggleButtons st) i) as [button | ]; [ | exact A ].
    destruct (closest_block button) as [x | ]; [ | exact A ]. apply L.
  - intros button x Hm Hb Hx. rewrite (handleToggle_loop st i x button Hm Hb Hx). apply L.
Qed.

Lemma Unshared_initialized (blocks : list Block) :
  Unshared blocks -> Unshared (map initialized blocks).
Proof.
  unfold Unshared, togglesOf, contentsOf.
  assert (H : forall idx, (forall b, idx (initialized b) = idx b) ->
                          indicesOf idx (map initialized blocks) = indicesOf idx blocks).
  { intros idx Hi. induction blocks as [ | b blocks IH]; cbn [map indicesOf];
      [ reflexivity | ]. now rewrite Hi, IH. }
  now rewrite !H by reflexivity.
Qed.

Lemma setInitialState_aria (st : State) :
  Unshared (mobileBlocks st) ->
  Unshared (mobileBlocks (setInitialState st))
  /\ AriaConsistent (setInitialState st).
Proof.
  intros N.
  assert (T : Unshared (mobileBlocks (setInitialState st))).
  { destruct (setInitialState_closed_form st) as [-> _]. now apply Unshared_initialized. }
  split; [ exact T | ].
  unfold setInitialState in *. destruct (mobileBlocks st) as [ | b0 blocks] eqn:E.
  - now apply AriaConsistent_nil.
  - apply AriaConsistent_updateAriaAttributes. exact T.
Qed.

Lemma enableMobileToggle_aria (st : State) :
  Unshared (mobileBlocks st) ->
  Unshared (mobileBlocks (enableMobileToggle st))
  /\ AriaConsistent (enableMobileToggle st).
Proof.
  intros N. unfold enableMobileToggle.
  assert (B : mobileBlocks (bindEvents st) = mobileBlocks st)
    by (unfold bindEvents; now destruct st as [w b [ | t l] c tb rb d]).
  rewrite <- B in N. exact (setInitialState_aria _ N).
Qed.

Lemma disableMobileToggle_frame (st : State) :
  mobileBlocks (disableMobileToggle st) = mobileBlocks st
  /\ toggleButtons (disableMobileToggle st) = toggleButtons st
  /\ contents (disableMobileToggle st) = contents st.
Proof.
  unfold disableMobileToggle, removeEvents.
  destruct st as [w b [ | t l] c tb rb d]; now repeat split.
Qed.

Lemma handleResize_aria (st : State) :
  Unshared (mobileBlocks st) ->
  Unshared (mobileBlocks (handleResize st))
  /\ (AriaConsistent st -> AriaConsistent (handleResize st)).
Proof.
  intros N. unfold handleResize. destruct (isMobileView st).
  - destruct (enableMobileToggle_aria st N) as [H1 H2]. now split.
  - destruct (disableMobileToggle_frame st) as (H1 & H2 & H3). split; [ now rewrite H1 | ].
    now apply AriaConsistent_frame.
Qed.

Lemma step_aria (st : State) (ev : Event) :
  Unshared (mobileBlocks st) ->
  AriaConsistent st ->
  Unshared (mobileBlocks (step st ev)) /\ AriaConsistent (step st ev).
Proof.
  intros N A.
  destruct ev as [i | i key | width]; cbn [step].
  - unfold click. destruct (toggleBound st); [ | now split ].
    destruct (handleToggle_aria i st N) as (H1 & H2 & _). split; [ exact H1 | now apply H2 ].
  - unfold keydown, handleKeydown. destruct (toggleBound st); [ | now split ].
    destruct (_ || _); [ | now split ].
    destruct (handleToggle_aria i st N) as (H1 & H2 & _). split; [ exact H1 | now apply H2 ].
  - unfold resize. cbv zeta.
    set (s1 := mkState width (mobileBlocks st) (toggleButtons st) (contents st)
                 (toggleBound st) (resizeBound st) (dispatched st)).
    destruct (resizeBound st).
    + destruct (handleResize_aria s1 N) as [H1 H2]. split; [ exact H1 | ].
      apply H2. now apply (AriaConsistent_frame st).
    + split; [ exact N | now apply (AriaConsistent_frame st) ].
Qed.

Lemma init_aria (width : Z) (blocks : list Block) (buttons : list ToggleButton)
    (cs : list (option string)) :
  (width < 900)%Z ->
  Unshared blocks ->
  Unshared (mobileBlocks (init width blocks buttons cs))
  /\ AriaConsistent (init width blocks buttons cs).
Proof.
  intros Hw N. unfold init.
  assert (Hm : isMobileView (mkState width blocks buttons cs false false []) = true).
  { unfold isMobileView, breakpoint. cbn. now apply Z.ltb_lt. }
  rewrite Hm.
  destruct (enableMobileToggle_aria (mkState width blocks buttons cs false false []) N)
    as [H1 H2].
  split; [ exact H1 | ].
  revert H2. now apply AriaConsistent_frame.
Qed.

(** X17.  When no toggle and no content is found by two blocks, the ARIA
    attributes follow the states in every state reached from a start on a
    narrow viewport, whatever clicks, keys and resizes arrive: the toggle
    of a block reads [aria-expanded] 'true' exactly when the block is
    expanded (with role 'button' and tabindex '0'), and the content of a
    block reads [aria-hidden] 'false' exactly then. *)
Theorem aria_follows_state (width : Z) (blocks : list Block) (buttons : list ToggleButton)
    (cs : list (option string)) (evs : list Event) :
  (width < 900)%Z ->
  NoDup (togglesOf blocks) ->
  NoDup (contentsOf blocks) ->
  AriaConsistent (run (init width blocks buttons cs) evs).
Proof.
  intros Hw Nt Nc. destruct (init_aria width blocks buttons cs Hw (conj Nt Nc)) as [T A].
  revert T A. generalize (init width blocks buttons cs).
  unfold run. induction evs as [ | ev evs IH]; intros s T A; cbn [fold_left];
    [ exact A | ].
  destruct (step_aria s ev T A) as [H1 H2]. now apply IH.
Qed.

Lemma aria_follows_state_witness :
  map toggle_aria_expanded (toggleButtons (run sample [Click 1; Resize 1280; Resize 375]))
  = [Some "false"; Some "true"]
  /\ contents (run sample [Click 1; Resize 1280; Resize 375]) = [Some "true"; Some "false"]
  /\ AriaConsistent (run sample [Click 1; Resize 1280; Resize 375]).
Proof.
  split; [ reflexivity | ]. split; [ reflexivity | ].
  apply (aria_follows_state 375 sampleBlocks sampleToggles sampleContents
           [Click 1; Resize 1280; Resize 375] eq_refl);
    repeat constructor; cbn; intuition discriminate.
Defined.

(** A content that two blocks find has what the later block wrote: an
    expanded block around a collapsed one shows its content as hidden. *)
Example shared_content_takes_the_last_state :
  let blocks := [ mkBlock (Some "expanded") (Some "left") None (Some 0%nat);
                  mkBlock (Some "collapsed") (Some "right") None (Some 0%nat) ] in
  let st := init 375 blocks [] [None] in
  map data_mobile_state (mobileBlocks st) = [Some "expanded"; Some "collapsed"]
  /\ contents st = [Some "true"].
Proof. vm_compute. split; reflexivity. Qed.

(** *** The public method *)

Lemma hasSide_toggled (side : string) (x j : nat) (b : Block) :
  hasSide side (toggled x j b) = hasSide side b.
Proof. reflexivity. Qed.

Lemma find_index_hasSide_toggled (side : string) (x : nat) (blocks : list Block) :
  forall n m, find_index (hasSide side) n (mapi_from m (toggled x) blocks)
              = find_index (hasSide side) n blocks.
Proof.
  induction blocks as [ | b l IH]; intros n m; cbn [mapi_from find_index];
    [ reflexivity | ].
  rewrite hasSide_toggled. destruct (hasSide side b); [ reflexivity | apply IH ].
Qed.

(** X18.  For a [side] that stands for itself in the selector, on a narrow
    viewport with the toggles bound, [toggleBlock(side)] does what a click
    on the toggle of the first block tagged with that side does: that
    block ends expanded, every other block collapsed, and one event per
    block is dispatched; for a side no block carries it changes nothing.
    On a wide viewport it changes nothing, whatever the side. *)
Theorem toggleBlock_expands_side (st : State) (side : string) :
  (selectorSafe side = true ->
   (forall x block t button,
       isMobileView st = true ->
       toggleBound st = true ->
       find_index (hasSide side) 0 (mobileBlocks st) = Some x ->
       nth_error (mobileBlocks st) x = Some block ->
       block_toggle block = Some t ->
       nth_error (toggleButtons st) t = Some button ->
       closest_block button = Some x ->
       let st' := click t st in
       toggleBlock side st = Some st'
       /\ getExpandedBlock st' = Some x
       /\ expandedCount st' = 1%nat
       /\ (forall j b, nth_error (mobileBlocks st') j = Some b -> isExpanded b = Nat.eqb j x)
       /\ find_index (hasSide side) 0 (mobileBlocks st') = Some x
       /\ List.length (dispatched st')
          = (List.length (dispatched st) + List.length (mobileBlocks st))%nat)
   /\ (find_index (hasSide side) 0 (mobileBlocks st) = None ->
       toggleBlock side st = Some st))
  /\ ((900 <= innerWidth st)%Z -> toggleBlock side st = Some st).
Proof.
  split; [ intros Safe; split | ].
  - intros x block t button Hm Hb Hf Hx Ht Hbtn Hc. cbv zeta.
    assert (E : click t st = handleToggle t st) by (unfold click; now rewrite Hb).
    assert (M : mobileBlocks (handleToggle t st) = mapi (toggled x) (mobileBlocks st))
      by now apply (mobileBlocks_handleToggle st t x button).
    assert (Lx : (x < List.length (mobileBlocks st))%nat)
      by (apply nth_error_Some; congruence).
    destruct (expanded_after_toggle x (mobileBlocks st) 0) as [C1 C2].
    assert (G : ((0 <=? x) && (x <? 0 + List.length (mobileBlocks st)))%nat = true).
    { apply andb_true_intro. split; [ now apply Nat.leb_le, Nat.le_0_l | ].
      now apply Nat.ltb_lt. }
    rewrite G in C1, C2.
    split; [ unfold toggleBlock; now rewrite Hm, Safe, Hf, Hx, Ht | ].
    rewrite E.
    split; [ unfold getExpandedBlock; rewrite M; exact C2 | ].
    split; [ unfold expandedCount; rewrite M; exact C1 | ].
    split; [ | split ].
    + intros j b Hj. rewrite M in Hj. unfold mapi in Hj.
      rewrite nth_error_mapi_from in Hj.
      destruct (nth_error (mobileBlocks st) j) as [b0 | ]; [ | discriminate ].
      cbn in Hj. injection Hj as <-. apply isExpanded_toggled.
    + rewrite M. unfold mapi. now rewrite find_index_hasSide_toggled.
    + rewrite (handleToggle_loop st t x button Hm Hbtn Hc), dispatched_loop.
      now rewrite length_app, length_map, length_seq.
  - intros Hf. unfold toggleBlock. rewrite Hf, Safe. now destruct (negb (isMobileView st)).
  - intros Hw. unfold toggleBlock.
    replace (isMobileView st) with false; [ reflexivity | ].
    symmetry. unfold isMobileView, breakpoint. now apply Z.ltb_ge.
Qed.

Lemma toggleBlock_expands_side_witness :
  selectorSafe "right" = true
  /\ getExpandedBlock sample = Some 0%nat
  /\ option_map getExpandedBlock (toggleBlock "right" sample) = Some (Some 1%nat)
  /\ option_map expandedCount (toggleBlock "right" sample) = Some 1%nat.
Proof.
  pose proof (toggleBlock_expands_side sample "right") as [H _].
  destruct (H eq_refl) as [H1 _].
  specialize (H1 1%nat (mkBlock (Some "collapsed") (Some "right") (Some 1%nat) (Some 1%nat))
                1%nat
                (mkToggleButton (Some 1%nat) (Some "button") (Some "0") (Some "false"))
                eq_refl eq_refl eq_refl eq_refl eq_refl eq_refl eq_refl).
  cbv zeta in H1. destruct H1 as (E & H2 & H3 & _).
  split; [ reflexivity | ]. split; [ reflexivity | ].
  rewrite E. cbn [option_map]. split; [ now rewrite H2 | now rewrite H3 ].
Defined.

End ComparisonShowcaseFacts.

(** ** The debounced resize listener *)

Section DebounceFacts.
Import Debounce.
Context {Args World : Type} (func : Args -> World -> World).

Lemma without_single (id : nat) (args : Args) : without Args id [(id, args)] = [].
Proof. unfold without. cbn. now rewrite Nat.eqb_refl. Qed.

Lemma Settled_executed (a : Args) (c : Debounced Args World) :
  Settled c ->
  executedFunction a c
  = mkDebounced (Some (next_id c)) [(next_id c, a)] (S (next_id c)) (world c).
Proof.
  intros [H | (id & args & H & Ht)]; unfold executedFunction; rewrite H.
  - now destruct (timeout c).
  - rewrite Ht. cbn [clearTimeout]. now rewrite without_single.
Qed.

Lemma Settled_expire (id : nat) (c : Debounced Args World) :
  Settled c ->
  expire func id c = c
  \/ exists args, scheduled c = [(id, args)]
                  /\ expire func id c
                     = mkDebounced (timeout c) [] (next_id c) (func args (world c)).
Proof.
  intros [H | (id0 & args & H & Ht)]; unfold expire; rewrite H; cbn [find fst].
  - now left.
  - destruct (Nat.eqb_spec id0 id) as [-> | Hne]; [ | now left ].
    right. exists args. split; [ reflexivity | ].
    unfold later. cbn [timeout scheduled next_id world].
    rewrite without_single. now destruct (timeout c).
Qed.

Lemma Settled_step (c : Debounced Args World) (ev : Call Args) :
  Settled c -> Settled (step func c ev).
Proof.
  intros S. destruct ev as [a | id]; cbn [step].
  - rewrite (Settled_executed a c S). right. now exists (next_id c), a.
  - destruct (Settled_expire id c S) as [-> | (args & _ & ->)]; [ exact S | now left ].
Qed.

Lemma Settled_run (evs : list (Call Args)) (c : Debounced Args World) :
  Settled c -> Settled (run func c evs).
Proof.
  revert c. unfold run. induction evs as [ | ev evs IH]; intros c S; [ exact S | ].
  cbn [fold_left]. now apply IH, Settled_step.
Qed.

Lemma Settled_debounce (first_id : nat) (w : World) : Settled (debounce (Args := Args) first_id w).
Proof. now left. Qed.

Lemma run_app (c : Debounced Args World) (l1 l2 : list (Call Args)) :
  run func c (l1 ++ l2) = run func (run func c l1) l2.
Proof. unfold run. apply fold_left_app. Qed.

Lemma burst_frame (burst : list Args) (c : Debounced Args World) :
  Settled c ->
  next_id (run func c (map Invoke burst)) = (next_id c + List.length burst)%nat
  /\ world (run func c (map Invoke burst)) = world c.
Proof.
  revert c. induction burst as [ | a burst IH]; intros c S.
  - cbn. split; [ lia | reflexivity ].
  - cbn [map]. change (run func c (Invoke a :: map Invoke burst))
      with (run func (executedFunction a c) (map Invoke burst)).
    destruct (IH (executedFunction a c)) as [H1 H2].
    { apply (Settled_step c (Invoke a) S). }
    rewrite H1, H2, (Settled_executed a c S). cbn [next_id world List.length].
    split; [ lia | reflexivity ].
Qed.


(** X20.  The last call wins: after a burst of calls, however long, one
    timer is pending, set by the last call; when it expires [func] runs
    once, with the arguments of the last call, and the arguments of the
    earlier calls of the burst are never used. *)
Theorem debounce_last_call_wins (first_id : nat) (w : World) (evs : list (Call Args))
    (burst : list Args) (a : Args) :
  let c := run func (debounce first_id w) evs in
  let c1 := run func c (map Invoke (burst ++ [a])) in
  let id := (next_id c + List.length burst)%nat in
  world c1 = world c
  /\ scheduled c1 = [(id, a)]
  /\ world (step func c1 (Expire id)) = func a (world c)
  /\ scheduled (step func c1 (Expire id)) = []
  /\ (forall id', id' <> id -> step func c1 (Expire id') = c1).
Proof.
  cbv zeta.
  pose proof (Settled_run evs _ (Settled_debounce first_id w)) as S.
  set (c := run func _ evs) in *.
  rewrite map_app, run_app. cbn [map].
  destruct (burst_frame burst c S) as [Hn Hw].
  pose proof (Settled_run (map Invoke burst) c S) as S'.
  set (c' := run func c (map Invoke burst)) in *.
  change (run func c' [Invoke a]) with (executedFunction a c').
  rewrite (Settled_executed a c' S'), Hn, Hw.
  cbn [step]. unfold expire, later. cbn [scheduled find fst world timeout next_id].
  rewrite Nat.eqb_refl. cbn [clearTimeout]. rewrite without_single.
  do 4 (split; [ reflexivity | ]).
  intros id' Hne. destruct (Nat.eqb_spec (next_id c + List.length burst) id');
    [ congruence | reflexivity ].
Qed.

End DebounceFacts.

Section ResizeListenerFacts.
Import Debounce.

Lemma nav_handleResize (l : Layout) :
  nav_scrollBehavior (handleResize l)
  = if (innerWidth l <=? 899)%Z
    then option_map (fun _ => "smooth") (nav_scrollBehavior l)
    else nav_scrollBehavior l.
Proof.
  unfold handleResize, updateLayout, ensureScrollableAlphabet.
  destruct (innerWidth l <=? 899)%Z; [ | reflexivity ].
  now destruct l as [w [s | ]].
Qed.

Lemma Settled_windowStep (c : Debounced unit Layout) (ev : WindowEvent) :
  Settled c -> Settled (windowStep c ev).
Proof.
  intros S. destruct ev as [width | id]; cbn [windowStep].
  - apply (Settled_step (fun _ => handleResize) _ (Invoke tt)).
    destruct S as [H | (id & args & H & Ht)]; [ now left | right ].
    now exists id, args.
  - now apply (Settled_step (fun _ => handleResize) c (Expire id)).
Qed.

Lemma Settled_windowRun (evs : list WindowEvent) (c : Debounced unit Layout) :
  Settled c -> Settled (windowRun c evs).
Proof.
  revert c. unfold windowRun. induction evs as [ | ev evs IH]; intros c S; [ exact S | ].
  cbn [fold_left]. now apply IH, Settled_windowStep.
Qed.

Lemma resized_effect (width : Z) (c : Debounced unit Layout) :
  Settled c ->
  windowStep c (Resized width)
  = mkDebounced (Some (next_id c)) [(next_id c, tt)] (S (next_id c))
      (mkLayout width (nav_scrollBehavior (world c))).
Proof.
  intros S. cbn [windowStep].
  rewrite Settled_executed; [ reflexivity | ].
  destruct S as [H | (id & args & H & Ht)]; [ now left | right ].
  now exists id, args.
Qed.

Lemma keepsStyle_step (l0 : Layout) (c : Debounced unit Layout) (ev : WindowEvent) :
  Settled c -> keepsStyle l0 (world c) -> keepsStyle l0 (world (windowStep c ev)).
Proof.
  intros S K. destruct ev as [width | id].
  - rewrite (resized_effect width c S). exact K.
  - cbn [windowStep].
    destruct (Settled_expire (fun _ => handleResize) id c S) as [-> | (args & _ & ->)];
      [ exact K | ].
    cbn [world]. unfold keepsStyle in *. rewrite nav_handleResize.
    destruct (innerWidth (world c) <=? 899)%Z; [ | exact K ].
    destruct K as [K | [K1 K2]].
    + rewrite K. destruct (nav_scrollBehavior l0) eqn:E; [ right | now left ].
      split; [ discriminate | reflexivity ].
    + right. rewrite K2. now split.
Qed.

(** X21.  The resize listener of the brand directory: a resize event alone
    never touches the page; when the pending timer fires, the alphabet
    navigation (if the container has one) gets [scroll-behavior] 'smooth'
    exactly when the window is at most 899 wide at that moment, whatever
    widths the earlier resize events of the burst reported; and the style,
    once set, is never changed back. *)
Theorem resize_listener_sets_smooth_scrolling (first_id : nat) (l0 : Layout)
    (evs : list WindowEvent) (widths : list Z) (width : Z) :
  let c := windowRun (resizeListener first_id l0) evs in
  let c1 := windowRun c (map Resized (widths ++ [width])) in
  let id := (next_id c + List.length widths)%nat in
  keepsStyle l0 (world c)
  /\ nav_scrollBehavior (world c1) = nav_scrollBehavior (world c)
  /\ scheduled c1 = [(id, tt)]
  /\ nav_scrollBehavior (world (windowStep c1 (TimerFires id)))
     = (if (width <=? 899)%Z
        then option_map (fun _ => "smooth") (nav_scrollBehavior (world c))
        else nav_scrollBehavior (world c))
  /\ scheduled (windowStep c1 (TimerFires id)) = [].
Proof.
  cbv zeta.
  assert (S0 : Settled (resizeListener first_id l0)) by now left.
  assert (K : forall evs0 c0, Settled c0 -> keepsStyle l0 (world c0) ->
                              keepsStyle l0 (world (windowRun c0 evs0))).
  { unfold windowRun. induction evs0 as [ | ev evs0 IH]; intros c0 S1 K1; [ exact K1 | ].
    cbn [fold_left]. apply IH; [ now apply Settled_windowStep | now apply keepsStyle_step ]. }
  pose proof (Settled_windowRun evs _ S0) as S.
  pose proof (K evs _ S0 (or_introl eq_refl)) as K0.
  set (c := windowRun _ evs) in *.
  assert (B : forall ws c0, Settled c0 ->
                next_id (windowRun c0 (map Resized ws)) = (next_id c0 + List.length ws)%nat
                /\ nav_scrollBehavior (world (windowRun c0 (map Resized ws)))
                   = nav_scrollBehavior (world c0)).
  { induction ws as [ | w0 ws IH]; intros c0 S1.
    - cbn. split; [ lia | reflexivity ].
    - cbn [map]. change (windowRun c0 (Resized w0 :: map Resized ws))
        with (windowRun (windowStep c0 (Resized w0)) (map Resized ws)).
      destruct (IH (windowStep c0 (Resized w0))) as [H1 H2].
      { now apply Settled_windowStep. }
      rewrite H1, H2, (resized_effect w0 c0 S1). cbn [next_id world nav_scrollBehavior List.length].
      split; [ lia | reflexivity ]. }
  split; [ exact K0 | ].
  unfold windowRun at 1 2 3 4. rewrite map_app, fold_left_app. cbn [map fold_left].
  destruct (B widths c S) as [Hn Hw].
  pose proof (Settled_windowRun (map Resized widths) c S) as S'.
  fold (windowRun c (map Resized widths)).
  set (c' := windowRun c (map Resized widths)) in *.
  rewrite (resized_effect width c' S'), Hn, Hw.
  cbn [windowStep]. unfold expire, later. cbn [scheduled find fst world timeout next_id].
  rewrite Nat.eqb_refl. cbn [clearTimeout]. rewrite without_single.
  cbn [world scheduled]. rewrite nav_handleResize. cbn [innerWidth nav_scrollBehavior].
  repeat split; reflexivity.
Qed.

Lemma resize_listener_sets_smooth_scrolling_witness :
  let c := windowRun (resizeListener 7 (mkLayout 1280 (Some "auto")))
             [Resized 1000; Resized 800; Resized 600] in
  scheduled c = [(9%nat, tt)]
  /\ nav_scrollBehavior (world c) = Some "auto"
  /\ nav_scrollBehavior (world (windowStep c (TimerFires 9))) = Some "smooth".
Proof.
  cbv zeta.
  pose proof (resize_listener_sets_smooth_scrolling 7 (mkLayout 1280 (Some "auto")) []
                [1000%Z; 800%Z] 600%Z) as H.
  cbv zeta in H. destruct H as (_ & H2 & H3 & H4 & _).
  split; [ exact H3 | ]. split; [ exact H2 | exact H4 ].
Defined.

End ResizeListenerFacts.

(** ** Listeners *)

Section ListenerFacts.
Import EventTarget.

Lemma Fresh_newFunction (p : Page) : Fresh p -> Fresh (snd (newFunction p)).
Proof.
  unfold Fresh. cbn. apply Forall_impl. intros l (k & H1 & H2). exists k. split; [ exact H1 | lia ].
Qed.

Lemma Fresh_notin (p : Page) (t : Target) (ty : string) :
  Fresh p -> ~ In (mkListener t ty (Created (created p))) (listeners p).
Proof.
  intros F Hin. unfold Fresh in F. rewrite Forall_forall in F.
  destruct (F _ Hin) as (k & H1 & H2). cbn in H1. injection H1 as <-. lia.
Qed.

Lemma addBound_effect (t : Target) (ty : string) (p : Page) :
  Fresh p ->
  listeners (addBound t ty p) = (listeners p ++ [mkListener t ty (Created (created p))])%list
  /\ created (addBound t ty p) = S (created p)
  /\ Fresh (addBound t ty p).
Proof.
  intros F. unfold addBound, newFunction, addEventListener. cbn [listeners created].
  destruct (in_dec Listener_eq_dec _ (listeners p)) as [Hin | _].
  - now apply Fresh_notin in Hin.
  - cbn [listeners created]. repeat split.
    unfold Fresh. cbn [listeners created]. apply Forall_app. split.
    + revert F. apply Forall_impl. intros l (k & H1 & H2). exists k. split; [ exact H1 | lia ].
    + constructor; [ | constructor ]. exists (created p). split; [ reflexivity | lia ].
Qed.

Lemma removeEventListener_Proto (t : Target) (ty : string) (m : Method) (p : Page) :
  Fresh p -> removeEventListener (mkListener t ty (Proto m)) p = p.
Proof.
  intros F. unfold removeEventListener. rewrite notin_remove; [ now destruct p | ].
  intros Hin. unfold Fresh in F. rewrite Forall_forall in F.
  destruct (F _ Hin) as (k & H1 & _). discriminate.
Qed.

Lemma removeAll_app (ks l1 l2 : list Listener) :
  removeAll ks (l1 ++ l2) = (removeAll ks l1 ++ removeAll ks l2)%list.
Proof.
  unfold removeAll. revert l1 l2.
  induction ks as [ | k ks IH]; intros l1 l2; cbn [fold_left]; [ reflexivity | ].
  now rewrite remove_app, IH.
Qed.

Lemma removeAll_notin (ks l : list Listener) :
  (forall k, In k ks -> ~ In k l) -> removeAll ks l = l.
Proof.
  unfold removeAll. induction ks as [ | k ks IH]; intros H; cbn [fold_left]; [ reflexivity | ].
  rewrite notin_remove by (apply H; now left). apply IH. intros k' Hk'. apply H. now right.
Qed.

Lemma removeAll_all_in (ks : list Listener) :
  forall l, (forall x, In x l -> In x ks) -> removeAll ks l = [].
Proof.
  unfold removeAll. induction ks as [ | k ks IH]; intros l H; cbn [fold_left].
  - destruct l as [ | x l]; [ reflexivity | ]. destruct (H x). now left.
  - apply IH. intros x Hx. apply in_remove in Hx. destruct Hx as [Hx Hne].
    destruct (H x Hx) as [E | Hin]; [ congruence | exact Hin ].
Qed.

End ListenerFacts.

Section BrandShowcaseListenerFacts.
Import EventTarget BrandShowcaseListeners.

Lemma Extends_refl (p : Page) : Fresh p -> Extends p p 0.
Proof. intros F. split; [ exact F | ]. exists []. now rewrite app_nil_r. Qed.

Lemma Extends_trans (p q r : Page) (n m : nat) :
  Extends p q n -> Extends q r m -> Extends p r (n + m).
Proof.
  intros (_ & a & E1 & L1) (F & b & E2 & L2). split; [ exact F | ].
  exists (a ++ b)%list. rewrite E2, E1, <- app_assoc, length_app. now split; [ | lia ].
Qed.

Lemma Extends_addBound (t : Target) (ty : string) (p : Page) :
  Fresh p -> Extends p (addBound t ty p) 1.
Proof.
  intros F. destruct (addBound_effect t ty p F) as (L & _ & F1).
  split; [ exact F1 | ]. now exists [mkListener t ty (Created (created p))].
Qed.

Lemma Extends_bindButton (p : Page) (i : nat) : Fresh p -> Extends p (bindButton p i) 2.
Proof.
  intros F. unfold bindButton.
  pose proof (Extends_addBound (AlphabetButton i) "click" p F) as E1.
  apply (Extends_trans _ _ _ 1 1 E1). apply Extends_addBound, E1.
Qed.

Lemma Extends_bindButtons (js : list nat) (p : Page) :
  Fresh p -> Extends p (fold_left bindButton js p) (2 * List.length js).
Proof.
  revert p. induction js as [ | j js IH]; intros p F; cbn [fold_left].
  - now apply Extends_refl.
  - pose proof (Extends_bindButton p j F) as E1.
    replace (2 * List.length (j :: js))%nat with (2 + 2 * List.length js)%nat
      by (cbn [List.length]; lia).
    apply (Extends_trans _ _ _ _ _ E1). apply IH, E1.
Qed.

Lemma destroy_Fresh (buttons : nat) (showAllButton : bool) (p : Page) :
  Fresh p -> destroy buttons showAllButton p = p.
Proof.
  intros F. unfold destroy.
  assert (B : forall js, fold_left unbindButton js p = p).
  { assert (U : forall j, unbindButton p j = p)
      by (intros j; unfold unbindButton;
          now rewrite !(fun t ty m => removeEventListener_Proto t ty m p F)).
    induction js as [ | j js IH]; cbn [fold_left]; [ reflexivity | ].
    now rewrite U. }
  rewrite B.
  destruct showAllButton; now rewrite !(fun t ty m => removeEventListener_Proto t ty m p F).
Qed.

(** X22.  [destroy] removes no listener: [bindEvents] registers functions
    that [bind] (and [debounce]) created anew, two for every alphabet
    button, one for the show-all button when there is one, and two on the
    window, while [destroy] asks to remove the methods of the prototype,
    which never were listeners; the page after [destroy] is the page
    before it. *)
Theorem destroy_removes_no_listener (buttons : nat) (showAllButton : bool) (p : Page) :
  Fresh p ->
  let p1 := bindEvents buttons showAllButton p in
  destroy buttons showAllButton p1 = p1
  /\ exists added,
       listeners p1 = (listeners p ++ added)%list
       /\ List.length added = (2 * buttons + (if showAllButton then 1 else 0) + 2)%nat.
Proof.
  intros F. cbv zeta.
  assert (E : Extends p (bindEvents buttons showAllButton p)
                (2 * buttons + (if showAllButton then 1 else 0) + 2)).
  { unfold bindEvents.
    pose proof (Extends_bindButtons (seq 0 buttons) p F) as E1. rewrite length_seq in E1.
    set (p1 := fold_left bindButton (seq 0 buttons) p) in *.
    assert (E2 : Extends p1 (if showAllButton then addBound ShowAllButton "click" p1 else p1)
                   (if showAllButton then 1 else 0)).
    { destruct showAllButton; [ apply Extends_addBound | apply Extends_refl ]; apply E1. }
    set (p2 := if showAllButton then addBound ShowAllButton "click" p1 else p1) in *.
    pose proof (Extends_addBound TheWindow "popstate" p2 (proj1 E2)) as E3.
    set (p3 := addBound TheWindow "popstate" p2) in *.
    cbn [newFunction].
    assert (E4 : Extends p3 (mkPage (listeners p3) (S (created p3))) 0).
    { split; [ exact (Fresh_newFunction p3 (proj1 E3)) | ].
      exists []. cbn [listeners]. now rewrite app_nil_r. }
    pose proof (Extends_addBound TheWindow "resize" _ (proj1 E4)) as E5.
    pose proof (Extends_trans _ _ _ _ _ (Extends_trans _ _ _ _ _ (Extends_trans _ _ _ _ _
                  (Extends_trans _ _ _ _ _ E1 E2) E3) E4) E5) as E.
    replace (2 * buttons + (if showAllButton then 1 else 0) + 2)%nat
      with (2 * buttons + (if showAllButton then 1 else 0) + 1 + 0 + 1)%nat by lia.
    exact E. }
  destruct E as (F1 & added & E1 & L1).
  split; [ now apply destroy_Fresh | ]. now exists added.
Qed.

Lemma destroy_removes_no_listener_witness :
  List.length (listeners (bindEvents 26 true (mkPage [] 0))) = 55%nat
  /\ destroy 26 true (bindEvents 26 true (mkPage [] 0)) = bindEvents 26 true (mkPage [] 0).
Proof.
  assert (F : Fresh (mkPage [] 0)) by constructor.
  destruct (destroy_removes_no_listener 26 true (mkPage [] 0) F) as (H1 & _).
  split; [ reflexivity | exact H1 ].
Defined.

End BrandShowcaseListenerFacts.

Section ComparisonShowcaseListenerFacts.
Import EventTarget ComparisonShowcaseListeners.

Lemma listeners_removeEvents (f : Fields) (buttons : nat) (p : Page) :
  listeners (removeEvents f buttons p)
  = removeAll (flat_map (fun i => [clickListener f i; keydownListener f i]) (seq 0 buttons))
      (listeners p)
  /\ created (removeEvents f buttons p) = created p.
Proof.
  assert (H : forall js q,
             listeners
               (fold_left
                  (fun p i => removeEventListener (keydownListener f i)
                                (removeEventListener (clickListener f i) p)) js q)
             = removeAll (flat_map (fun i => [clickListener f i; keydownListener f i]) js)
                 (listeners q)
             /\ created
                  (fold_left
                     (fun p i => removeEventListener (keydownListener f i)
                                   (removeEventListener (clickListener f i) p)) js q)
                = created q).
  { induction js as [ | j js IH]; intros q; cbn [fold_left flat_map]; [ now split | ].
    destruct (IH (removeEventListener (keydownListener f j)
                    (removeEventListener (clickListener f j) q))) as [-> ->].
    now split. }
  unfold removeEvents. destruct buttons as [ | n]; [ now split | apply H ].
Qed.

Lemma listeners_cleanup (f : Fields) (buttons : nat) (p : Page) :
  listeners (cleanup f buttons p) = removeAll (own f buttons) (listeners p).
Proof.
  unfold cleanup, own, removeAll. rewrite fold_left_app. cbn [fold_left removeEventListener listeners].
  f_equal. apply listeners_removeEvents.
Qed.

Lemma own_click (f : Fields) (buttons i : nat) :
  (i < buttons)%nat ->
  In (clickListener f i) (own f buttons) /\ In (keydownListener f i) (own f buttons).
Proof.
  intros H. unfold own.
  split; apply in_or_app; left; apply in_flat_map; exists i;
    (split; [ apply in_seq; lia | cbn; tauto ]).
Qed.

Lemma own_resize (f : Fields) (buttons : nat) : In (resizeListener f) (own f buttons).
Proof. unfold own. apply in_or_app. right. now left. Qed.

Lemma Owned_add (f : Fields) (buttons : nat) (before : list Listener) (l : Listener)
    (p : Page) :
  In l (own f buttons) -> Owned f buttons before p ->
  Owned f buttons before (addEventListener l p).
Proof.
  intros Hl (mine & E & H). unfold addEventListener.
  destruct (in_dec Listener_eq_dec l (listeners p)); [ now exists mine | ].
  exists (mine ++ [l])%list. cbn [listeners]. split; [ now rewrite E, app_assoc | ].
  intros x Hx. apply in_app_or in Hx. destruct Hx as [Hx | [<- | []]]; [ now apply H | exact Hl ].
Qed.

Lemma Owned_remove (f : Fields) (buttons : nat) (before : list Listener) (l : Listener)
    (p : Page) :
  ~ In l before -> Owned f buttons before p ->
  Owned f buttons before (removeEventListener l p).
Proof.
  intros Hl (mine & E & H). exists (remove Listener_eq_dec l mine).
  cbn [removeEventListener listeners]. split.
  - now rewrite E, remove_app, (notin_remove _ before).
  - intros x Hx. apply in_remove in Hx. now apply H.
Qed.

Lemma Owned_handleResize (mobile : bool) (f : Fields) (buttons : nat)
    (before : list Listener) (p : Page) :
  (forall x, In x (own f buttons) -> ~ In x before) ->
  Owned f buttons before p ->
  Owned f buttons before (handleResize mobile f buttons p).
Proof.
  intros D O. unfold handleResize, bindEvents, removeEvents.
  assert (A : forall js q, (forall i, In i js -> (i < buttons)%nat) ->
                Owned f buttons before q ->
                Owned f buttons before
                  (fold_left
                     (fun p i => addEventListener (keydownListener f i)
                                   (addEventListener (clickListener f i) p)) js q)).
  { induction js as [ | j js IH]; intros q Hjs Oq; cbn [fold_left]; [ exact Oq | ].
    destruct (own_click f buttons j) as [C K]; [ apply Hjs; now left | ].
    apply IH; [ intros i Hi; apply Hjs; now right | ].
    now apply Owned_add, Owned_add. }
  assert (R : forall js q, (forall i, In i js -> (i < buttons)%nat) ->
                Owned f buttons before q ->
                Owned f buttons before
                  (fold_left
                     (fun p i => removeEventListener (keydownListener f i)
                                   (removeEventListener (clickListener f i) p)) js q)).
  { induction js as [ | j js IH]; intros q Hjs Oq; cbn [fold_left]; [ exact Oq | ].
    destruct (own_click f buttons j) as [C K]; [ apply Hjs; now left | ].
    apply IH; [ intros i Hi; apply Hjs; now right | ].
    apply Owned_remove; [ now apply D | ]. apply Owned_remove; [ now apply D | exact Oq ]. }
  assert (Hseq : forall i, In i (seq 0 buttons) -> (i < buttons)%nat)
    by (intros i Hi; apply in_seq in Hi; lia).
  destruct mobile, buttons as [ | n]; try exact O; [ now apply A | now apply R ].
Qed.

Lemma addEventListener_present (l : Listener) (p : Page) :
  In l (listeners p) -> addEventListener l p = p.
Proof.
  intros H. unfold addEventListener.
  now destruct (in_dec Listener_eq_dec l (listeners p)).
Qed.

Lemma In_addEventListener (l x : Listener) (p : Page) :
  In x (listeners (addEventListener l p)) <-> x = l \/ In x (listeners p).
Proof.
  unfold addEventListener.
  destruct (in_dec Listener_eq_dec l (listeners p)) as [Hin | Hn]; cbn [listeners].
  - split; [ tauto | ]. intros [-> | H]; assumption.
  - rewrite in_app_iff. cbn. split; [ intros [H | [H | []]]; auto | intros [-> | H]; auto ].
Qed.

Lemma bindEvents_binds (f : Fields) (js : list nat) :
  forall p,
    let p' := fold_left
                (fun p i => addEventListener (keydownListener f i)
                              (addEventListener (clickListener f i) p)) js p in
    (forall x, In x (listeners p) -> In x (listeners p'))
    /\ (forall i, In i js -> In (clickListener f i) (listeners p')
                             /\ In (keydownListener f i) (listeners p')).
Proof.
  induction js as [ | j js IH]; intros p; cbv zeta; cbn [fold_left].
  - split; [ trivial | intros i [] ].
  - destruct (IH (addEventListener (keydownListener f j)
                    (addEventListener (clickListener f j) p))) as [H1 H2].
    cbv zeta in H1, H2. split.
    + intros x Hx. apply H1. rewrite !In_addEventListener. auto.
    + intros i [<- | Hi]; [ | now apply H2 ].
      split; apply H1; rewrite !In_addEventListener; auto.
Qed.

Lemma bindEvents_present (f : Fields) (js : list nat) :
  forall p,
    (forall i, In i js -> In (clickListener f i) (listeners p)
                          /\ In (keydownListener f i) (listeners p)) ->
    fold_left
      (fun p i => addEventListener (keydownListener f i)
                    (addEventListener (clickListener f i) p)) js p
    = p.
Proof.
  induction js as [ | j js IH]; intros p H; cbn [fold_left]; [ reflexivity | ].
  destruct (H j (or_introl eq_refl)) as [C K].
  rewrite (addEventListener_present (clickListener f j) p C).
  rewrite (addEventListener_present (keydownListener f j) p K).
  apply IH. intros i Hi. apply H. now right.
Qed.

(** X23.  The comparison table adds and removes its listeners with the
    same functions, created once by the constructor: binding again (at
    every resize to a narrow viewport) adds nothing, and [cleanup], after
    whatever resizes, leaves the page with exactly the listeners it had
    before the element. *)
Theorem cleanup_removes_own_listeners (p0 : Page) (buttons : nat) (mobile : bool)
    (resizes : list bool) :
  Fresh p0 ->
  let f := fst (constructor p0) in
  let p1 := fold_left (fun p m => handleResize m f buttons p) resizes
              (init mobile f buttons (snd (constructor p0))) in
  listeners (cleanup f buttons p1) = listeners p0
  /\ (forall p, bindEvents f buttons (bindEvents f buttons p) = bindEvents f buttons p).
Proof.
  intros F. cbv zeta. split.
  - set (f := fst (constructor p0)).
    assert (D : forall x, In x (own f buttons) -> ~ In x (listeners p0)).
    { intros x Hx Hin. unfold Fresh in F. rewrite Forall_forall in F.
      destruct (F x Hin) as (k & Hk & Hlt).
      unfold own in Hx. apply in_app_or in Hx. destruct Hx as [Hx | [<- | []]].
      - apply in_flat_map in Hx. destruct Hx as (i & _ & [<- | [<- | []]]);
          cbn in Hk; injection Hk as <-; lia.
      - cbn in Hk. injection Hk as <-. lia. }
    assert (O : Owned f buttons (listeners p0)
                  (fold_left (fun p m => handleResize m f buttons p) resizes
                     (init mobile f buttons (snd (constructor p0))))).
    { assert (O0 : Owned f buttons (listeners p0) (init mobile f buttons (snd (constructor p0)))).
      { unfold init. apply Owned_add; [ apply own_resize | ].
        apply (Owned_handleResize mobile f buttons (listeners p0) _ D).
        exists []. split; [ cbn; now rewrite app_nil_r | intros x [] ]. }
      revert O0. generalize (init mobile f buttons (snd (constructor p0))).
      induction resizes as [ | m resizes IH]; intros q Oq; cbn [fold_left]; [ exact Oq | ].
      apply IH. now apply Owned_handleResize. }
    destruct O as (mine & E & H).
    rewrite listeners_cleanup, E, removeAll_app.
    rewrite (removeAll_notin (own f buttons) (listeners p0)) by exact D.
    rewrite (removeAll_all_in (own f buttons) mine H). apply app_nil_r.
  - intros p. unfold bindEvents. destruct buttons as [ | n]; [ reflexivity | ].
    apply bindEvents_present. intros i Hi.
    now apply (bindEvents_binds (fst (constructor p0)) (seq 0 (S n)) p).
Qed.

Lemma cleanup_removes_own_listeners_witness :
  let p0 := mkPage [mkListener TheWindow "scroll" (Created 0)] 1 in
  let f := fst (constructor p0) in
  List.length (listeners (init true f 2 (snd (constructor p0)))) = 6%nat
  /\ listeners (cleanup f 2
                  (handleResize true f 2
                     (handleResize false f 2 (init true f 2 (snd (constructor p0))))))
     = [mkListener TheWindow "scroll" (Created 0)].
Proof.
  cbv zeta. split; [ reflexivity | ].
  assert (F : Fresh (mkPage [mkListener TheWindow "scroll" (Created 0)] 1)).
  { constructor; [ | constructor ]. exists 0%nat. split; [ reflexivity | cbn; lia ]. }
  exact (proj1 (cleanup_removes_own_listeners _ 2 true [false; true] F)).
Defined.

End ComparisonShowcaseListenerFacts.
